(** * Markdown-Bridge: the protect / transform / recover pipeline of [main.py]

    A shallow embedding of the Python functions that protect the special
    elements of a Markdown text behind placeholders, restore them after the
    translation call, and repair the format of the result, together with the
    properties of that pipeline.

    Python strings are sequences of Unicode code points, and the functions
    below act on them through [str.replace], [str.lower], slicing and the
    [re] module.  Both are embedded here: the string methods as list
    functions, and the regular expressions as a small backtracking matcher
    whose results come in the order in which Python's matcher tries them. *)

From Stdlib Require Import Ascii String DecimalString DecimalNat.
From Stdlib Require Import NArith Bool Lia Arith PeanoNat List.
Import ListNotations.

Set Implicit Arguments.
Local Open Scope N_scope.

(** ** Characters and strings *)

(** A character is a Unicode code point. *)
Definition char := N.
Definition str := list char.

(** The code points of an ASCII literal. *)
Definition py (s : string) : str := map N_of_ascii (list_ascii_of_string s).
Arguments py s%_string.

(** The characters the source writes outside ASCII. *)
Definition fw_excl : char := 65281.    (* U+FF01 FULLWIDTH EXCLAMATION MARK *)
Definition fw_hash : char := 65283.    (* U+FF03 FULLWIDTH NUMBER SIGN *)
Definition fw_lparen : char := 65288.  (* U+FF08 FULLWIDTH LEFT PARENTHESIS *)
Definition fw_rparen : char := 65289.  (* U+FF09 FULLWIDTH RIGHT PARENTHESIS *)
Definition newline : char := 10.

Fixpoint str_eqb (a b : str) : bool :=
  match a, b with
  | [], [] => true
  | c :: a', d :: b' => (c =? d) && str_eqb a' b'
  | _, _ => false
  end.

(** [s.startswith(p)] *)
Fixpoint startswith (s p : str) {struct p} : bool :=
  match p, s with
  | [], _ => true
  | c :: p', d :: s' => (c =? d) && startswith s' p'
  | _ :: _, [] => false
  end.

(** [s.endswith(p)] *)
Definition endswith (s p : str) : bool := startswith (rev s) (rev p).

(** [sub in s] *)
Fixpoint contains (s sub : str) : bool :=
  startswith s sub ||
  match s with
  | [] => false
  | _ :: s' => contains s' sub
  end.

(** [s.replace(old, new)]: every occurrence, left to right, without overlap.
    [skip] counts the characters of the occurrence just replaced that are
    still to be passed over. *)
Fixpoint replace_from (old new : str) (skip : nat) (s : str) : str :=
  match s with
  | [] => []
  | c :: s' =>
      match skip with
      | S k => replace_from old new k s'
      | O => if startswith s old
             then new ++ replace_from old new (length old - 1) s'
             else c :: replace_from old new 0 s'
      end
  end.

Definition replace (s old new : str) : str :=
  match old with
  | [] => new ++ flat_map (fun c => c :: new) s
  | _ :: _ => replace_from old new 0 s
  end.

(** [s.replace(old, new, 1)]: the first occurrence only. *)
Fixpoint replace1 (s old new : str) : str :=
  if startswith s old then new ++ skipn (length old) s
  else match s with
       | [] => []
       | c :: s' => c :: replace1 s' old new
       end.

(** [sep.join(parts)] *)
Fixpoint join (sep : str) (parts : list str) : str :=
  match parts with
  | [] => []
  | [p] => p
  | p :: ps => p ++ sep ++ join sep ps
  end.

(** [s.split(c)] for a one-character separator. *)
Fixpoint split_on (c : char) (s : str) : list str :=
  match s with
  | [] => [[]]
  | d :: s' =>
      if d =? c then [] :: split_on c s'
      else match split_on c s' with
           | [] => [[d]]
           | w :: ws => (d :: w) :: ws
           end
  end.

(** [l[-2]]; Python raises [IndexError] on a list of fewer than two items. *)
Definition second_last (A : Type) (l : list A) : option A :=
  match rev l with
  | _ :: x :: _ => Some x
  | _ => None
  end.

(** [f"{n}"] for a non-negative integer. *)
Definition str_of_nat (n : nat) : str := py (NilEmpty.string_of_uint (Nat.to_uint n)).

(** ** The Unicode database

    [\d], [\s], [str.lower], [int] and [re.IGNORECASE] read Python's Unicode
    tables, which are no part of the repository.  They are taken as an
    interface whose laws fix them on ASCII, where the placeholders live. *)

Definition ascii_digit (c : char) : bool := (48 <=? c) && (c <=? 57).
Definition ascii_upper (c : char) : bool := (65 <=? c) && (c <=? 90).
Definition ascii_letter (c : char) : bool :=
  ascii_upper c || ((97 <=? c) && (c <=? 122)).
Definition ascii_lower (c : char) : char := if ascii_upper c then c + 32 else c.
Definition ascii_space (c : char) : bool :=
  ((9 <=? c) && (c <=? 13)) || ((28 <=? c) && (c <=? 32)).

Class PyUnicode := {
  (** [\d]: a decimal digit (category Nd) *)
  is_decimal : char -> bool;
  (** the value [int] gives a decimal digit *)
  decimal_value : char -> nat;
  (** [\s] and the characters [str.strip] removes *)
  is_space : char -> bool;
  (** [str.lower] *)
  str_lower : str -> str;
  (** a literal of the pattern against a character of the subject under
      [re.IGNORECASE] *)
  ci_eq : char -> char -> bool;
  is_decimal_ascii : forall c, c < 128 -> is_decimal c = ascii_digit c;
  decimal_value_ascii : forall c, ascii_digit c = true ->
    decimal_value c = N.to_nat (c - 48);
  is_space_ascii : forall c, c < 128 -> is_space c = ascii_space c;
  str_lower_ascii : forall s, Forall (fun c => c < 128) s ->
    str_lower s = map ascii_lower s;
  ci_eq_ascii : forall p c, p < 128 -> c < 128 ->
    ci_eq p c = (ascii_lower p =? ascii_lower c);
  ci_eq_uncased : forall p c, p < 128 -> ascii_letter p = false ->
    ci_eq p c = (p =? c);
  ci_eq_digit : forall p c, is_decimal p = true -> ci_eq p c = (p =? c)
}.

(** The tables restricted to ASCII: the instance the examples run on. *)
Definition ascii_ci_eq (p c : char) : bool :=
  if ascii_letter p then ascii_lower p =? ascii_lower c else p =? c.

Definition ascii_unicode : PyUnicode.
Proof.
  refine {| is_decimal := ascii_digit;
            decimal_value := fun c => N.to_nat (c - 48);
            is_space := ascii_space;
            str_lower := map ascii_lower;
            ci_eq := ascii_ci_eq |}.
  - reflexivity.
  - reflexivity.
  - reflexivity.
  - reflexivity.
  - intros p c Hp Hc. unfold ascii_ci_eq, ascii_letter, ascii_lower, ascii_upper.
    destruct (65 <=? p) eqn:E1, (p <=? 90) eqn:E2, (97 <=? p) eqn:E3, (p <=? 122) eqn:E4,
      (65 <=? c) eqn:E5, (c <=? 90) eqn:E6; simpl; try reflexivity;
      repeat match goal with
             | H : (_ <=? _) = true |- _ => apply N.leb_le in H
             | H : (_ <=? _) = false |- _ => apply N.leb_gt in H
             end;
      try lia;
      destruct (N.eqb_spec p c); destruct (N.eqb_spec p (c + 32)); try reflexivity; lia.
  - intros p c _ Hl. unfold ascii_ci_eq. now rewrite Hl.
  - intros p c Hd. unfold ascii_ci_eq, ascii_letter, ascii_upper, ascii_digit in *.
    apply andb_true_iff in Hd as [H1 H2].
    apply N.leb_le in H1. apply N.leb_le in H2.
    replace (65 <=? p) with false by (symmetry; apply N.leb_gt; lia).
    replace (97 <=? p) with false by (symmetry; apply N.leb_gt; lia).
    reflexivity.
Defined.

(** ** Regular expressions

    The fragment of [re] the source uses.  The flags of a call are part of
    the pattern: a literal under [re.IGNORECASE] is [CLitI], the dot under
    [re.DOTALL] is [CAll], and [^], [$] are the [re.MULTILINE] ones. *)

Inductive cclass : Type :=
| CLit (c : char)        (* a literal *)
| CLitI (c : char)       (* a literal under re.IGNORECASE *)
| CDot                   (* .  : any character but a newline *)
| CAll                   (* . under re.DOTALL, and [\s\S] *)
| CDigit                 (* \d *)
| CSpace                 (* \s *)
| CSet (l : list char)   (* [...] *)
| CNot (l : list char)   (* [^...] *)
| CAlphaUnd.             (* [A-Za-z_] *)

Inductive regex : Type :=
| Eps
| Chr (cc : cclass)
| Seq (r1 r2 : regex)
| Alt (r1 r2 : regex)
| Star (greedy : bool) (r : regex)    (* r* and r*? *)
| Plus (greedy : bool) (r : regex)    (* r+ and r+? *)
| Grp (n : nat) (r : regex)           (* the n-th capturing group *)
| NotAhead (r : regex)                (* (?!r) *)
| Bol                                 (* ^ under re.MULTILINE *)
| Eol.                                (* $ under re.MULTILINE *)

(** A position of the matcher: the groups captured so far, the subject
    before the cursor (nearest character first) and the subject after it. *)
Record mstate : Type := MState {
  ms_caps : list (nat * str);
  ms_seen : str;
  ms_rest : str
}.

Definition in_set (c : char) (l : list char) : bool := existsb (N.eqb c) l.

Definition cc_match {U : PyUnicode} (cc : cclass) (c : char) : bool :=
  match cc with
  | CLit d => d =? c
  | CLitI d => ci_eq d c
  | CDot => negb (c =? newline)
  | CAll => true
  | CDigit => is_decimal c
  | CSpace => is_space c
  | CSet l => in_set c l
  | CNot l => negb (in_set c l)
  | CAlphaUnd => ascii_letter c || (c =? 95)
  end.

(** The iterations of a repeated body from [st], in the order a backtracking
    matcher tries them: more iterations first when greedy, fewer first when
    lazy.  An iteration has to move the cursor. *)
Fixpoint rep_loop (body : mstate -> list mstate) (greedy : bool) (fuel : nat)
                  (st : mstate) : list mstate :=
  match fuel with
  | O => [st]
  | S f =>
      let more :=
        flat_map (fun st' =>
                    if (length (ms_rest st') <? length (ms_rest st))%nat
                    then rep_loop body greedy f st' else [])
                 (body st) in
      if greedy then more ++ [st] else st :: more
  end.

(** The text between two positions of one subject. *)
Definition consumed (st st' : mstate) : str :=
  firstn (length (ms_rest st) - length (ms_rest st')) (ms_rest st).

Definition set_cap (n : nat) (w : str) (caps : list (nat * str)) : list (nat * str) :=
  (n, w) :: filter (fun p => negb (Nat.eqb (fst p) n)) caps.

(** All the ways [r] matches at [st], first the one Python's matcher finds. *)
Fixpoint rx_match {U : PyUnicode} (r : regex) (st : mstate) : list mstate :=
  match r with
  | Eps => [st]
  | Chr cc =>
      match ms_rest st with
      | c :: rest' =>
          if cc_match cc c then [MState (ms_caps st) (c :: ms_seen st) rest'] else []
      | [] => []
      end
  | Seq r1 r2 => flat_map (rx_match r2) (rx_match r1 st)
  | Alt r1 r2 => rx_match r1 st ++ rx_match r2 st
  | Star g r1 => rep_loop (rx_match r1) g (length (ms_rest st)) st
  | Plus g r1 =>
      flat_map (fun st' => rep_loop (rx_match r1) g (length (ms_rest st')) st')
               (rx_match r1 st)
  | Grp n r1 =>
      map (fun st' => MState (set_cap n (consumed st st') (ms_caps st'))
                             (ms_seen st') (ms_rest st'))
          (rx_match r1 st)
  | NotAhead r1 => match rx_match r1 st with [] => [st] | _ :: _ => [] end
  | Bol => match ms_seen st with
           | [] => [st]
           | c :: _ => if c =? newline then [st] else []
           end
  | Eol => match ms_rest st with
           | [] => [st]
           | c :: _ => if c =? newline then [st] else []
           end
  end.

(** A match object: [group(0)] and the captured groups. *)
Record rmatch : Type := RMatch {
  m_text : str;
  m_caps : list (nat * str)
}.

(** [m.group(n)] for a group that took part in the match. *)
Definition group (m : rmatch) (n : nat) : str :=
  match find (fun p => Nat.eqb (fst p) n) (m_caps m) with
  | Some (_, w) => w
  | None => []
  end.

(** The first match of [r] at the cursor, as the number of characters it
    spans and its groups; when [advance] is set an empty match is refused. *)
Definition first_hit {U : PyUnicode} (r : regex) (seen rest : str) (advance : bool)
  : option (nat * list (nat * str)) :=
  let span st' := (length rest - length (ms_rest st'))%nat in
  match filter (fun st' => negb advance || negb (Nat.eqb (span st') 0))
               (rx_match r (MState [] seen rest)) with
  | st' :: _ => Some (span st', ms_caps st')
  | [] => None
  end.

(** The scan shared by [re.findall], [re.sub] and [re.split]: the matches of
    [r] in the subject from left to right, no two overlapping, each with the
    unmatched text in front of it, and the unmatched text after the last.
    [skip] counts the characters of the current match still to be passed;
    [pend] is the unmatched text since the last match, nearest first.  After
    an empty match the same position is tried again for a match that is not. *)
Fixpoint scan {U : PyUnicode} (r : regex) (seen pend : str) (skip : nat) (rest : str)
  : list (str * rmatch) * str :=
  let hit len caps := RMatch (firstn len rest) caps in
  match skip, rest with
  | S k, c :: rest' => scan r (c :: seen) pend k rest'
  | S _, [] => ([], rev pend)
  | O, _ =>
      match first_hit r seen rest false, rest with
      | Some (S k, caps), c :: rest' =>
          let (ms, tl) := scan r (c :: seen) [] k rest' in
          ((rev pend, hit (S k) caps) :: ms, tl)
      | Some (_, caps), _ =>
          match first_hit r seen rest true, rest with
          | Some (S k, caps'), c :: rest' =>
              let (ms, tl) := scan r (c :: seen) [] k rest' in
              ((rev pend, hit O caps) :: ([], hit (S k) caps') :: ms, tl)
          | _, c :: rest' =>
              let (ms, tl) := scan r (c :: seen) [c] 0 rest' in
              ((rev pend, hit O caps) :: ms, tl)
          | _, [] => ([(rev pend, hit O caps)], [])
          end
      | None, c :: rest' => scan r (c :: seen) (c :: pend) 0 rest'
      | None, [] => ([], rev pend)
      end
  end.

Definition finditer {U : PyUnicode} (r : regex) (s : str) : list rmatch :=
  map snd (fst (scan r [] [] 0 s)).

(** [re.findall] of a pattern without a group, with one, and with two. *)
Definition findall {U : PyUnicode} (r : regex) (s : str) : list str :=
  map m_text (finditer r s).
Definition findall1 {U : PyUnicode} (r : regex) (s : str) : list str :=
  map (fun m => group m 1) (finditer r s).
Definition findall2 {U : PyUnicode} (r : regex) (s : str) : list (str * str) :=
  map (fun m => (group m 1, group m 2)) (finditer r s).

(** [re.sub(r, f, s)] *)
Definition re_sub {U : PyUnicode} (r : regex) (f : rmatch -> str) (s : str) : str :=
  let (ms, tl) := scan r [] [] 0 s in
  flat_map (fun pm => fst pm ++ f (snd pm)) ms ++ tl.

(** [re.split(r, s)] for a pattern without a group *)
Definition re_split {U : PyUnicode} (r : regex) (s : str) : list str :=
  let (ms, tl) := scan r [] [] 0 s in map fst ms ++ [tl].

(** [re.search(r, s)] *)
Definition re_search {U : PyUnicode} (r : regex) (s : str) : option rmatch :=
  hd_error (finditer r s).

(** [re.match(r, s)]: a match at the start of the subject. *)
Definition re_match {U : PyUnicode} (r : regex) (s : str) : option rmatch :=
  match first_hit r [] s false with
  | Some (len, caps) => Some (RMatch (firstn len s) caps)
  | None => None
  end.

(** Patterns are written with these. *)
Definition lit (s : string) : regex :=
  fold_right (fun c r => Seq (Chr (CLit c)) r) Eps (py s).
Definition lit_i (s : string) : regex :=
  fold_right (fun c r => Seq (Chr (CLitI c)) r) Eps (py s).
Definition lit_str (s : str) : regex :=
  fold_right (fun c r => Seq (Chr (CLit c)) r) Eps s.
Definition lit_str_i (s : str) : regex :=
  fold_right (fun c r => Seq (Chr (CLitI c)) r) Eps s.
Fixpoint seqs (rs : list regex) : regex :=
  match rs with
  | [] => Eps
  | [r] => r
  | r :: rs' => Seq r (seqs rs')
  end.
Fixpoint alts (rs : list regex) : regex :=
  match rs with
  | [] => NotAhead Eps
  | [r] => r
  | r :: rs' => Alt r (alts rs')
  end.
Definition ch (s : string) : char :=
  match py s with c :: _ => c | [] => 0 end.
Arguments lit s%_string.
Arguments lit_i s%_string.
Arguments ch s%_string.

(** ** Dictionaries

    A Python [dict] keeps its keys in the order of their first insertion;
    assigning to a key that is present changes the value in place. *)

Fixpoint dict_set (V : Type) (d : list (str * V)) (k : str) (v : V) : list (str * V) :=
  match d with
  | [] => [(k, v)]
  | (k', v') :: d' =>
      if str_eqb k' k then (k', v) :: d' else (k', v') :: dict_set d' k v
  end.

Fixpoint dict_get (V : Type) (d : list (str * V)) (k : str) : option V :=
  match d with
  | [] => None
  | (k', v') :: d' => if str_eqb k' k then Some v' else dict_get d' k
  end.

(** [d.update(d2)] *)
Definition dict_update (V : Type) (d d2 : list (str * V)) : list (str * V) :=
  fold_left (fun acc kv => dict_set acc (fst kv) (snd kv)) d2 d.

(** ** The registry of a unit

    [special_elements] maps each placeholder to the text it stands for.  Its
    one value that is not a string is the image list under the reserved key
    [__ALL_IMAGE_PATHS__]; every loop over the items passes that key by, so
    the list is kept in a field of its own: [image_paths] is [Some l] when
    the key is in the dictionary. *)

(** [(has_title, title, url, placeholder)] *)
Definition image_entry : Type := (bool * str * str * str)%type.

Record registry : Type := Registry {
  entries : list (str * str);
  image_paths : option (list image_entry)
}.

Definition empty_registry : registry := Registry [] None.

Definition reg_set (reg : registry) (k v : str) : registry :=
  Registry (dict_set (entries reg) k v) (image_paths reg).

(** ** LatexFormulaHandler *)

Definition lazy_dots : regex := Star false (Chr CDot).

(** [r'\$[^\$]+?\$'] *)
Definition inline_math_pattern : regex :=
  seqs [lit "$"; Plus false (Chr (CNot [ch "$"])); lit "$"].

(** [r'\$\$[\s\S]*?\$\$'] *)
Definition block_math_pattern : regex :=
  seqs [lit "$$"; Star false (Chr CAll); lit "$$"].

(** [$.*?]<macro>[{.*?}.*?$], the shape of most of the complex patterns *)
Definition with_braced (macro : string) : regex :=
  seqs [lit "$"; lazy_dots; lit macro; lit "{"; lazy_dots; lit "}"; lazy_dots; lit "$"].
Arguments with_braced macro%_string.

(** [$.*?]<word>[.*?$] *)
Definition with_word (word : string) : regex :=
  seqs [lit "$"; lazy_dots; lit word; lazy_dots; lit "$"].
Arguments with_word word%_string.

Definition complex_math_patterns : list regex :=
  [ with_braced "\mathbf";                             (* \$.*?\\mathbf\{.*?\}.*?\$ *)
    with_braced "\mathrm";                             (* \$.*?\\mathrm\{.*?\}.*?\$ *)
    with_braced "\text";                               (* \$.*?\\text\{.*?\}.*?\$ *)
    seqs [lit "$"; lazy_dots; lit "\left"; lazy_dots;
          lit "\right"; lazy_dots; lit "$"];           (* \$.*?\\left.*?\\right.*?\$ *)
    seqs [lit "$"; lazy_dots; lit "\frac{"; lazy_dots; lit "}{"; lazy_dots;
          lit "}"; lazy_dots; lit "$"];                (* \$.*?\\frac\{.*?\}\{.*?\}.*?\$ *)
    with_word "\sum";                                  (* \$.*?\\sum.*?\$ *)
    with_word "\prod";                                 (* \$.*?\\prod.*?\$ *)
    with_word "\int";                                  (* \$.*?\\int.*?\$ *)
    with_word " for ";                                 (* \$.*? for .*?\$ *)
    with_braced "^";                                   (* \$.*?\^\{.*?\}.*?\$ *)
    with_braced "_";                                   (* \$.*?_\{.*?\}.*?\$ *)
    with_braced "\widetilde";                          (* \$.*?\\widetilde\{.*?\}.*?\$ *)
    with_braced "\mathit";                             (* \$.*?\\mathit\{.*?\}.*?\$ *)
    with_word "\Pi";                                   (* \$.*?\\Pi.*?\$ *)
    with_word "\Gamma";                                (* \$.*?\\Gamma.*?\$ *)
    with_word "\nabla";                                (* \$.*?\\nabla.*?\$ *)
    with_word "\sim";                                  (* \$.*?\\sim.*?\$ *)
    with_word "\tilde";                                (* \$.*?\\tilde.*?\$ *)
    with_word "\cdot";                                 (* \$.*?\\cdot.*?\$ *)
    seqs [lit "$^"; lazy_dots; lit "$"];               (* \$\^.*?\$ *)
    seqs [lit "$_"; lazy_dots; lit "$"];               (* \$_.*?\$ *)
    seqs [lit "$\"; lazy_dots; lit "$"] ].             (* \$\\.*?\$ *)

(** [(?:COMPLEX|INLINE|BLOCK|ALL)_MATH_\d+] under [re.IGNORECASE] *)
Definition math_core : regex :=
  seqs [alts [lit_i "COMPLEX"; lit_i "INLINE"; lit_i "BLOCK"; lit_i "ALL"];
        lit_i "_MATH_"; Plus true (Chr CDigit)].

Definition math_placeholder_patterns : list regex :=
  [ seqs [lit_i "__"; math_core; lit_i "__"];
    seqs [lit_i "_"; math_core; lit_i "_"];
    seqs [lit_i "_ "; math_core; lit_i " _"];
    seqs [lit_i "{"; math_core; lit_i "}"];
    seqs [lit_i "___ "; math_core; lit_i "__"];
    seqs [lit_i "__ _"; math_core; lit_i "__"];
    seqs [lit_i "__ "; math_core; lit_i "__"];
    seqs [lit_i "___ _"; math_core; lit_i "__"] ].

(** [f"__{kind}_{n}__"] *)
Definition placeholder (kind : string) (n : nat) : str :=
  py "__" ++ py kind ++ py "_" ++ str_of_nat n ++ py "__".
Arguments placeholder kind%_string n%_nat.

(** One turn of the loops of [protect_formulas]: register [formula] under the
    next placeholder of [kind] and replace its first occurrence. *)
Definition protect_one (kind : string) (st : str * registry * nat) (formula : str)
  : str * registry * nat :=
  let '(text, special_elements, counter) := st in
  let ph := placeholder kind counter in
  (replace1 text formula ph, reg_set special_elements ph formula, S counter).
Arguments protect_one kind%_string st formula.

Definition protect_complex (st : str * registry * nat) (formula : str)
  : str * registry * nat :=
  let '(_, special_elements, _) := st in
  if existsb (fun kv => str_eqb formula (snd kv)) (entries special_elements)
  then st
  else protect_one "COMPLEX_MATH" st formula.

Definition protect_formulas {U : PyUnicode} (text : str) (special_elements : registry)
    (counter : nat) : str * registry * nat :=
  let st := (text, special_elements, counter) in
  let st := fold_left (protect_one "BLOCK_MATH") (findall block_math_pattern text) st in
  let st := fold_left (protect_one "ALL_MATH")
                      (findall inline_math_pattern (fst (fst st))) st in
  fold_left (fun st pattern =>
               fold_left protect_complex (findall pattern (fst (fst st))) st)
            complex_math_patterns st.

(** The replacement [macro{\1}] of a match. *)
Definition regroup (macro : string) (m : rmatch) : str :=
  py macro ++ py "{" ++ group m 1 ++ py "}".
Arguments regroup macro%_string m.

(** [macro\{\s*(G)\s*\}] where the group [G] is [[^}]*] *)
Definition spaced_group (macro : string) : regex :=
  seqs [lit macro; lit "{"; Star true (Chr CSpace);
        Grp 1 (Star true (Chr (CNot [ch "}"]))); Star true (Chr CSpace); lit "}"].
Arguments spaced_group macro%_string.

Definition fix_formula_format {U : PyUnicode} (formula : str) : str :=
  let formula := replace formula (py " $") (py "$") in
  let formula := replace formula (py "$ ") (py "$") in
  let formula := replace formula (py "$^{") (py "$^{") in
  let formula := replace formula (py "$_{") (py "$_{") in
  (* \$\{\\sim\}([^$]+)\$  ->  $\\sim \1$ *)
  let formula :=
    re_sub (seqs [lit "${\sim}"; Grp 1 (Plus true (Chr (CNot [ch "$"]))); lit "$"])
           (fun m => py "$\sim " ++ group m 1 ++ py "$") formula in
  (* _\$\{\\sim\}([^$]+)\$  ->  $\\sim \1$ *)
  let formula :=
    re_sub (seqs [lit "_${\sim}"; Grp 1 (Plus true (Chr (CNot [ch "$"]))); lit "$"])
           (fun m => py "$\sim " ++ group m 1 ++ py "$") formula in
  let formula := re_sub (spaced_group "\mathrm") (regroup "\mathrm") formula in
  let formula := re_sub (spaced_group "\mathbf") (regroup "\mathbf") formula in
  (* \\mathbf\{([^}]+)\}\\mathbf\{([^}]+)\}  ->  \\mathbf{\1\2} *)
  let formula :=
    re_sub (seqs [lit "\mathbf{"; Grp 1 (Plus true (Chr (CNot [ch "}"]))); lit "}";
                  lit "\mathbf{"; Grp 2 (Plus true (Chr (CNot [ch "}"]))); lit "}"])
           (fun m => py "\mathbf{" ++ group m 1 ++ group m 2 ++ py "}") formula in
  let formula := re_sub (spaced_group "^") (regroup "^") formula in
  let formula := re_sub (spaced_group "_") (regroup "_") formula in
  let formula := re_sub (spaced_group "\widetilde") (regroup "\widetilde") formula in
  let formula := re_sub (spaced_group "\tilde") (regroup "\tilde") formula in
  replace formula (py "{}") [].

(** [r'__([A-Za-z_]+)_(\d+)__'] and its three relatives, by their delimiters *)
Definition typed_number (opening closing : string) : regex :=
  seqs [lit opening; Grp 1 (Plus true (Chr CAlphaUnd)); lit "_";
        Grp 2 (Plus true (Chr CDigit)); lit closing].
Arguments typed_number (opening closing)%_string.

(** [re.search(r'MATH', placeholder, re.IGNORECASE)] *)
Definition mentions_math {U : PyUnicode} (ph : str) : bool :=
  match re_search (lit_i "MATH") ph with Some _ => true | None => false end.

(** The variants of a placeholder, in the order the source enters them in
    [all_variations_map]. *)
Definition variants {U : PyUnicode} (ph type_name number : str) : list str :=
  let t := str_lower type_name in
  [ ph;
    str_lower ph;
    py "__" ++ t ++ py "_" ++ number ++ py "__";
    py "_" ++ t ++ py "_" ++ number ++ py "_";
    py "_ " ++ t ++ py "_" ++ number ++ py " _";
    py "{" ++ t ++ py "_" ++ number ++ py "}";
    py "__" ++ t ++ py "_" ++ str_lower number ++ py "__";
    py "__ " ++ t ++ py " _ " ++ number ++ py " __";
    py "__" ++ t ++ py "_" ++ number ++ py "__";
    py "__" ++ t ++ number ++ py "__";
    py "__" ++ t ++ py "-" ++ number ++ py "__";
    py "__ _" ++ t ++ py "_" ++ number ++ py "__";
    py "___ " ++ t ++ py "_" ++ number ++ py "__";
    py "__ " ++ t ++ py "_" ++ number ++ py "__" ].

Definition set_all (V : Type) (d : list (str * V)) (keys : list str) (v : V)
  : list (str * V) :=
  fold_left (fun acc k => dict_set acc k v) keys d.

Definition delimited (ph : str) : bool :=
  startswith ph (py "__") && endswith ph (py "__").

(** The first loop of [restore_formulas]: the table of the math entries. *)
Definition math_variations {U : PyUnicode} (special_elements : registry)
  : list (str * str) :=
  fold_left
    (fun map kv =>
       let '(ph, original) := kv in
       if negb (delimited ph) then map
       else match re_match (typed_number "__" "__") ph with
            | None => map
            | Some m =>
                let type_name := group m 1 in
                let number := group m 2 in
                if negb (endswith type_name (py "MATH")) then map
                else set_all map (variants ph type_name number) original
            end)
    (entries special_elements) [].

(** The body of the second loop for one match: the first math entry whose
    lower-cased placeholder contains the lower-cased match, or is contained
    in it, replaces the match. *)
Fixpoint resolve_match {U : PyUnicode} (items : list (str * str)) (mt text : str) : str :=
  match items with
  | [] => text
  | (ph, original) :: items' =>
      if negb (delimited ph) then resolve_match items' mt text
      else if negb (mentions_math ph) then resolve_match items' mt text
      else
        let match_lower := str_lower mt in
        let placeholder_lower := str_lower ph in
        if contains match_lower placeholder_lower || contains placeholder_lower match_lower
        then replace text mt (fix_formula_format original)
        else resolve_match items' mt text
  end.

Definition restore_formulas {U : PyUnicode} (text : str) (special_elements : registry)
  : str :=
  let text :=
    fold_left (fun text kv => replace text (fst kv) (fix_formula_format (snd kv)))
              (math_variations special_elements) text in
  let text :=
    fold_left (fun text pattern =>
                 fold_left (fun text mt => resolve_match (entries special_elements) mt text)
                           (findall pattern text) text)
              math_placeholder_patterns text in
  fold_left
    (fun text kv =>
       let '(ph, original) := kv in
       if negb (delimited ph) then text
       else if negb (mentions_math ph) then text
       else if contains text ph then replace text ph (fix_formula_format original)
       else text)
    (entries special_elements) text.

(** ** TranslationCache

    The cache proper is the dictionary [cache]; [_load_cache] and
    [_save_cache] copy it from and to the file [cache_file] and swallow
    their failures, so [set] and [clear] act on the dictionary alone. *)

Record TranslationCache : Type := Cache {
  cache : list (str * str);
  cache_file : option str
}.

Module TranslationCacheOps.

(** [self.cache.get(key, default)] *)
Definition get (c : TranslationCache) (key : str) (default : option str) : option str :=
  match dict_get (cache c) key with
  | Some v => Some v
  | None => default
  end.

Definition set (c : TranslationCache) (key value : str) : TranslationCache :=
  Cache (dict_set (cache c) key value) (cache_file c).

Definition clear (c : TranslationCache) : TranslationCache :=
  Cache [] (cache_file c).

End TranslationCacheOps.

(** ** protect_special_elements *)

(** [enumerate(l)] *)
Definition enumerate (A : Type) (l : list A) : list (nat * A) :=
  combine (seq 0 (length l)) l.

(** [(?:(?!stop).)+?] inside group [n] *)
Definition until (n : nat) (stop : string) : regex :=
  Grp n (Plus false (Seq (NotAhead (lit stop)) (Chr CDot))).
Arguments until n%_nat stop%_string.

(** [r'```.*?\n(.*?)```'] under [re.DOTALL] *)
Definition code_block_pattern : regex :=
  seqs [lit "```"; Star false (Chr CAll); Chr (CLit newline);
        Grp 1 (Star false (Chr CAll)); lit "```"].

(** [r'`([^`]+)`'] *)
Definition inline_code_pattern : regex :=
  seqs [lit "`"; Grp 1 (Plus true (Chr (CNot [ch "`"]))); lit "`"].

(** [r'<([^>]+)>'] *)
Definition html_tag_pattern : regex :=
  seqs [lit "<"; Grp 1 (Plus true (Chr (CNot [ch ">"]))); lit ">"].

(** [r'!\[((?:(?!\]\().)+?)\]\(((?:(?!\)).)+?)\)'] *)
Definition titled_image_pattern : regex :=
  seqs [lit "!["; until 1 "]("; lit "]("; until 2 ")"; lit ")"].

(** [r'!\[\]\(((?:(?!\)).)+?)\)'] *)
Definition untitled_image_pattern : regex :=
  seqs [lit "![]("; until 1 ")"; lit ")"].

(** [r'\[((?:(?!\]\().)+?)\]\(((?:(?!\)).)+?)\)'] *)
Definition link_pattern : regex :=
  seqs [lit "["; until 1 "]("; lit "]("; until 2 ")"; lit ")"].

(** [f"![{title}]({url})"] *)
Definition image_text (title url : str) : str :=
  py "![" ++ title ++ py "](" ++ url ++ py ")".

(** The loops over code blocks, inline code and HTML tags: the [i]-th span
    found, wrapped again in its delimiters, goes under [__KIND_i__]. *)
Definition protect_wrapped (kind : string) (opening closing : str)
    (st : str * registry) (ix : nat * str) : str * registry :=
  let '(text, special_elements) := st in
  let '(i, inner) := ix in
  let ph := placeholder kind i in
  let original := opening ++ inner ++ closing in
  (replace1 text original ph, reg_set special_elements ph original).
Arguments protect_wrapped kind%_string opening closing st ix.

Definition protect_titled (st : str * registry * list image_entry)
    (ix : nat * (str * str)) : str * registry * list image_entry :=
  let '(text, special_elements, all_image_paths) := st in
  let '(i, (title, url)) := ix in
  match title with
  | [] => st
  | _ :: _ =>
      let ph := placeholder "IMAGE_LINK_TITLED" i in
      let original := image_text title url in
      (replace1 text original ph, reg_set special_elements ph original,
       all_image_paths ++ [(true, title, url, ph)])
  end.

Definition protect_untitled (st : str * registry * list image_entry)
    (ix : nat * str) : str * registry * list image_entry :=
  let '(text, special_elements, all_image_paths) := st in
  let '(i, url) := ix in
  let ph := placeholder "IMAGE_LINK" i in
  let original := image_text [] url in
  (replace1 text original ph, reg_set special_elements ph original,
   all_image_paths ++ [(false, [], url, ph)]).

Definition protect_link (st : str * registry) (ix : nat * (str * str)) : str * registry :=
  let '(text, special_elements) := st in
  let '(i, (title, url)) := ix in
  let original := py "[" ++ title ++ py "](" ++ url ++ py ")" in
  if existsb (fun kv => str_eqb (py "!" ++ original) (snd kv)) (entries special_elements)
  then st
  else
    let ph := placeholder "LINK" i in
    (replace1 text original ph, reg_set special_elements ph original).

Definition protect_special_elements {U : PyUnicode} (text : str) : str * registry :=
  let special_elements := empty_registry in
  let counter := O in
  let '(text, special_elements, counter) :=
    protect_formulas text special_elements counter in
  let st := (text, special_elements) in
  let st := fold_left (protect_wrapped "CODE_BLOCK" (py "```" ++ [newline]) (py "```"))
                      (enumerate (findall1 code_block_pattern (fst st))) st in
  let st := fold_left (protect_wrapped "INLINE_CODE" (py "`") (py "`"))
                      (enumerate (findall1 inline_code_pattern (fst st))) st in
  let st := fold_left (protect_wrapped "HTML_TAG" (py "<") (py ">"))
                      (enumerate (findall1 html_tag_pattern (fst st))) st in
  let titled_images := findall2 titled_image_pattern (fst st) in
  let untitled_images := findall1 untitled_image_pattern (fst st) in
  let st3 := fold_left protect_titled (enumerate titled_images) (st, []) in
  let '(text, special_elements, all_image_paths) :=
    fold_left protect_untitled (enumerate untitled_images) st3 in
  let special_elements := Registry (entries special_elements) (Some all_image_paths) in
  fold_left protect_link (enumerate (findall2 link_pattern text)) (text, special_elements).

(** ** restore_special_elements *)

Definition ALL_IMAGE_PATHS : str := py "__ALL_IMAGE_PATHS__".

(** The table [all_variations_map] of [restore_special_elements]: every
    delimited entry, math or not, with its raw original. *)
Definition all_variations {U : PyUnicode} (special_elements : registry)
  : list (str * str) :=
  fold_left
    (fun map kv =>
       let '(ph, original) := kv in
       if negb (delimited ph) then map
       else if str_eqb ph ALL_IMAGE_PATHS then map
       else
         let map := set_all map [ph; str_lower ph] original in
         match re_match (typed_number "__" "__") ph with
         | None => map
         | Some m =>
             set_all map (skipn 2 (variants ph (group m 1) (group m 2))) original
         end)
    (entries special_elements) [].

(** The four keys of [pattern_variations], in order. *)
Definition pattern_variations : list regex :=
  [ typed_number "__" "__";     (* __([A-Za-z_]+)_(\d+)__ *)
    typed_number "_" "_";       (* _([A-Za-z_]+)_(\d+)_ *)
    typed_number "_ " " _";     (* _ ([A-Za-z_]+)_(\d+) _ *)
    typed_number "{" "}" ].     (* {([A-Za-z_]+)_(\d+)} *)

(** [replace_with_original]: each formatter gives [__\1_\2__]. *)
Definition replace_with_original (all_variations_map : list (str * str)) (m : rmatch)
  : str :=
  let key := py "__" ++ group m 1 ++ py "_" ++ group m 2 ++ py "__" in
  match dict_get all_variations_map key with
  | Some original => original
  | None => m_text m
  end.

(** Lines 478 to 481: the full-width forms of the image and link
    punctuation go back to ASCII. *)
Definition fix_fullwidth_punctuation (text : str) : str :=
  let text := replace text [fw_excl; ch "["] (py "![") in
  let text := replace text (py "](") (py "](") in
  let text := replace text [fw_rparen] (py ")") in
  replace text [fw_lparen] (py "(").

Definition fix_image_path_in_markdown (m : rmatch) : str :=
  let alt_text := group m 1 in
  let path := group m 2 in
  let path :=
    if startswith path (py "__")
    then replace (replace path (py "__ ") []) (py "__") []
    else if startswith path (py "_ ") then replace path (py "_ ") []
    else if startswith path (py "_") then replace path (py "_") []
    else path in
  let path :=
    if contains path (py "_ images/") || contains path (py "__images/")
       || contains path (py "__ images/")
    then replace (replace (replace path (py "_ images/") (py "images/"))
                          (py "__images/") (py "images/"))
                 (py "__ images/") (py "images/")
    else path in
  image_text alt_text path.

(** [r'!\[(.*?)\]\((.*?)\)'] *)
Definition image_pattern : regex :=
  seqs [lit "!["; Grp 1 lazy_dots; lit "]("; Grp 2 lazy_dots; lit ")"].

(** [s.strip()] *)
Fixpoint lstrip {U : PyUnicode} (s : str) : str :=
  match s with
  | c :: s' => if is_space c then lstrip s' else s
  | [] => []
  end.
Definition strip {U : PyUnicode} (s : str) : str := rev (lstrip (rev (lstrip s))).

(** The keys one image enters in [image_placeholder_map]; [None] when
    [placeholder.split('_')[-2]] raises. *)
Definition image_keys {U : PyUnicode} (has_title : bool) (ph : str) : option (list str) :=
  match second_last (split_on (ch "_") ph) with
  | None => None
  | Some num =>
      Some (if has_title
            then [ ph;
                   str_lower ph;
                   replace ph (py "__") (py "_");
                   replace ph (py "__") (py "_ ");
                   py "image_link_titled_" ++ num;
                   py "IMAGE_LINK_TITLED_" ++ num;
                   strip (py "image_link_titled_" ++ num);
                   strip (py "image link titled " ++ num);
                   strip (py "imagelinktitled" ++ num) ]
            else [ ph;
                   str_lower ph;
                   replace ph (py "__") (py "_");
                   replace ph (py "__") (py "_ ");
                   py "image_link_" ++ num;
                   py "IMAGE_LINK_" ++ num;
                   strip (py "image_link_" ++ num);
                   strip (py "image link " ++ num);
                   strip (py "imagelink" ++ num) ])
  end.

Fixpoint image_placeholder_map {U : PyUnicode} (all_image_paths : list image_entry)
    (map : list (str * str)) : option (list (str * str)) :=
  match all_image_paths with
  | [] => Some map
  | (has_title, title, url, ph) :: rest =>
      match image_keys has_title ph with
      | None => None
      | Some keys =>
          image_placeholder_map rest
            (set_all map keys (image_text (if has_title then title else []) url))
      end
  end.

(** The eighteen [image_link_patterns], each a prefix, the group [(\d+)] and
    a suffix, under [re.IGNORECASE]. *)
Definition image_link_shapes : list (string * string) :=
  [ ("__IMAGE_LINK_TITLED_", "__"); ("__IMAGE_LINK_", "__");
    ("_IMAGE_LINK_TITLED_", "_"); ("_IMAGE_LINK_", "_");
    ("_ IMAGE_LINK_TITLED_", " _"); ("_ IMAGE_LINK_", " _");
    ("__image_link_titled_", "__"); ("__image_link_", "__");
    ("_image_link_titled_", "_"); ("_image_link_", "_");
    ("image_link_titled_", ""); ("image_link_", "");
    ("IMAGE_LINK_TITLED_", ""); ("IMAGE_LINK_", "");
    ("image link titled ", ""); ("image link ", "");
    ("imagelinktitled", ""); ("imagelink", "") ]%string.

Definition image_link_pattern (shape : string * string) : regex :=
  seqs [lit_i (fst shape); Grp 1 (Plus true (Chr CDigit)); lit_i (snd shape)].

(** [pattern.replace('(\\d+)', f'({match_num})')] *)
Definition image_link_pattern_at (shape : string * string) (match_num : str) : regex :=
  seqs [lit_i (fst shape); Grp 1 (lit_str_i match_num); lit_i (snd shape)].

(** [int(s)] on a string of decimal digits *)
Definition int_of {U : PyUnicode} (s : str) : nat :=
  fold_left (fun acc c => (10 * acc + decimal_value c)%nat) s O.

(** [l.sort(key=lambda x: x[0])]: a stable sort; an item goes in front of
    the items to its right that have its key. *)
Fixpoint insert_by_num (x : nat * str) (l : list (nat * str)) : list (nat * str) :=
  match l with
  | [] => [x]
  | y :: l' => if (fst x <=? fst y)%nat then x :: l else y :: insert_by_num x l'
  end.
Definition sort_by_num (l : list (nat * str)) : list (nat * str) :=
  fold_right insert_by_num [] l.

Definition remaining_placeholders {U : PyUnicode} (text : str) : list (nat * str) :=
  flat_map
    (fun shape =>
       flat_map
         (fun match_num =>
            map (fun full_match => (int_of match_num, full_match))
                (findall (image_link_pattern_at shape match_num) text))
         (findall1 (image_link_pattern shape) text))
    image_link_shapes.

(** The image of an entry of the image list, as the source rebuilds it. *)
Definition entry_image (e : image_entry) : str :=
  let '(has_title, title, url, _) := e in
  if has_title then image_text title url else image_text [] url.

(** [for i, x in enumerate(found): if i < len(all_image_paths): ...]: the
    [i]-th text found is replaced by the [i]-th image of the list. *)
Definition replace_in_order (all_image_paths : list image_entry) (found : list str)
    (text : str) : str :=
  fold_left
    (fun text ip =>
       match nth_error all_image_paths (fst ip) with
       | Some e => replace text (snd ip) (entry_image e)
       | None => text
       end)
    (enumerate found) text.

Definition fix_heading_format (m : rmatch) : str :=
  let hashes := group m 1 in
  let content := group m 2 in
  let english_hashes := repeat (ch "#") (length hashes) in
  let content := if negb (startswith content (py " ")) then py " " ++ content else content in
  english_hashes ++ content.

(** [r'^([#＃]+)(.*?)$'] under [re.MULTILINE] *)
Definition heading_pattern : regex :=
  seqs [Bol; Grp 1 (Plus true (Chr (CSet [ch "#"; fw_hash]))); Grp 2 lazy_dots; Eol].

(** [re.sub(r'^([#＃]+)(.*?)$', fix_heading_format, text, flags=re.MULTILINE)] *)
Definition repair_headings {U : PyUnicode} (text : str) : str :=
  re_sub heading_pattern fix_heading_format text.

(** [None] stands for the [IndexError] of [placeholder.split('_')[-2]] on an
    image placeholder without an underscore.  The source also builds a
    [lowercase_map] that it never reads; it is left out. *)
Definition restore_special_elements {U : PyUnicode} (text : str)
    (special_elements : registry) : option str :=
  let text := restore_formulas text special_elements in
  let all_variations_map := all_variations special_elements in
  let text :=
    fold_left (fun text pattern => re_sub pattern (replace_with_original all_variations_map) text)
              pattern_variations text in
  let text :=
    fold_left (fun text kv => replace text (fst kv) (snd kv)) all_variations_map text in
  let text := fix_fullwidth_punctuation text in
  let text := re_sub image_pattern fix_image_path_in_markdown text in
  let images :=
    match image_paths special_elements with
    | None => Some text
    | Some all_image_paths =>
        match image_placeholder_map all_image_paths [] with
        | None => None
        | Some map =>
            let text := fold_left (fun text kv => replace text (fst kv) (snd kv)) map text in
            let remaining := sort_by_num (remaining_placeholders text) in
            Some (replace_in_order all_image_paths (List.map snd remaining) text)
        end
    end in
  match images with
  | None => None
  | Some text => Some (repair_headings text)
  end.

(** ** fix_markdown_format *)

Definition fix_image_link (m : rmatch) : str :=
  let alt_text := group m 1 in
  let url := group m 2 in
  match alt_text, url with
  | [], _ :: _ => py "![](" ++ url ++ py ")"
  | _, _ => image_text alt_text url
  end.

(** [image_link_\d+|IMAGE_LINK_\d+|image_link_titled_\d+|IMAGE_LINK_TITLED_\d+|
    image link \d+|image link titled \d+|imagelink\d+|imagelinktitled\d+]
    under [re.IGNORECASE] *)
Definition bare_image_pattern : regex :=
  let digits := Plus true (Chr CDigit) in
  alts [ Seq (lit_i "image_link_") digits;
         Seq (lit_i "IMAGE_LINK_") digits;
         Seq (lit_i "image_link_titled_") digits;
         Seq (lit_i "IMAGE_LINK_TITLED_") digits;
         Seq (lit_i "image link ") digits;
         Seq (lit_i "image link titled ") digits;
         Seq (lit_i "imagelink") digits;
         Seq (lit_i "imagelinktitled") digits ].

(** The six patterns of the second look, under [re.IGNORECASE]. *)
Definition leftover_patterns : list regex :=
  let digits := Plus true (Chr CDigit) in
  [ seqs [lit_i "__IMAGE_LINK_"; digits; lit_i "__"];
    seqs [lit_i "__IMAGE_LINK_TITLED_"; digits; lit_i "__"];
    Seq (lit_i "image_link_") digits;
    Seq (lit_i "image_link_titled_") digits;
    Seq (lit_i "IMAGE_LINK_") digits;
    Seq (lit_i "IMAGE_LINK_TITLED_") digits ].

(** The loop that reads the index out of each placeholder found:
    [re.search(r'(\d+)', placeholder)], then [all_image_paths[index]] when
    the index is in range. *)
Definition replace_by_index {U : PyUnicode} (all_image_paths : list image_entry)
    (found : list str) (text : str) : str :=
  fold_left
    (fun text ph =>
       match re_search (Grp 1 (Plus true (Chr CDigit))) ph with
       | None => text
       | Some index_match =>
           match nth_error all_image_paths (int_of (group index_match 1)) with
           | Some e => replace text ph (entry_image e)
           | None => text
           end
       end)
    found text.

Definition fix_markdown_format {U : PyUnicode} (markdown_text : str)
    (special_elements : option registry) : str :=
  let markdown_text := repair_headings markdown_text in
  let markdown_text := re_sub image_pattern fix_image_link markdown_text in
  match special_elements with
  | Some (Registry _ (Some all_image_paths)) =>
      let image_placeholders := findall bare_image_pattern markdown_text in
      let markdown_text :=
        replace_in_order all_image_paths image_placeholders markdown_text in
      let remaining_placeholders :=
        flat_map (fun pattern => findall pattern markdown_text) leftover_patterns in
      replace_by_index all_image_paths remaining_placeholders markdown_text
  | _ => markdown_text
  end.

(** ** translate_markdown

    The translation providers are outside the repository.  What one of them
    does with the protected text of a unit is an [outcome]: it answers, or it
    raises and the source falls back on the protected text (as it does for a
    service it does not know), or, for [deepseek] without a key or an
    address, the source leaves the unit out with [continue]. *)

Inductive outcome : Type :=
| Translated (translated_text : str)
| Failed
| Dropped.

Record request : Type := Request {
  lang_in : str;
  lang_out : str;
  service : str;
  ignore_cache : bool;
  provider : str -> outcome
}.

(** [all_special_elements.update(special_elements)] *)
Definition registry_update (all_special_elements special_elements : registry) : registry :=
  Registry (dict_update (entries all_special_elements) (entries special_elements))
           (match image_paths special_elements with
            | Some l => Some l
            | None => image_paths all_special_elements
            end).

(** The state of the loop over the paragraphs. *)
Record progress : Type := Progress {
  translated_paragraphs : list str;
  the_cache : TranslationCache;
  all_special_elements : registry
}.

Definition translate_paragraph {U : PyUnicode} (rq : request) (st : option progress)
    (paragraph : str) : option progress :=
  match st with
  | None => None
  | Some (Progress done c all) =>
      match strip paragraph with
      | [] => Some (Progress (done ++ [paragraph]) c all)
      | _ :: _ =>
          let cache_key :=
            paragraph ++ py "_" ++ lang_in rq ++ py "_" ++ lang_out rq
                      ++ py "_" ++ service rq in
          let cached_result :=
            if ignore_cache rq then None else TranslationCacheOps.get c cache_key None in
          match cached_result with
          | Some (x :: cached) => Some (Progress (done ++ [x :: cached]) c all)
          | _ =>
              let '(protected_text, special_elements) := protect_special_elements paragraph in
              let all := registry_update all special_elements in
              if str_eqb (lang_in rq) (lang_out rq) then
                let translated_text := protected_text in
                let restored_text := restore_formulas translated_text special_elements in
                Some (Progress (done ++ [restored_text])
                               (TranslationCacheOps.set c cache_key restored_text) all)
              else
                match provider rq protected_text with
                | Dropped => Some (Progress done c all)
                | outcome =>
                    let translated_text :=
                      match outcome with
                      | Translated t => t
                      | _ => protected_text
                      end in
                    let restored_text := restore_formulas translated_text special_elements in
                    match restore_special_elements restored_text special_elements with
                    | None => None
                    | Some restored_text =>
                        Some (Progress (done ++ [restored_text])
                                       (TranslationCacheOps.set c cache_key restored_text) all)
                    end
                end
          end
      end
  end.

(** [r'\n\n+'] *)
Definition paragraph_break : regex :=
  Seq (Chr (CLit newline)) (Plus true (Chr (CLit newline))).

(** [translate_markdown] from the cache it loaded to the text it returns and
    the cache it leaves; [None] when [restore_special_elements] raised. *)
Definition translate_markdown {U : PyUnicode} (markdown_text : str) (rq : request)
    (loaded : TranslationCache) : option (str * TranslationCache) :=
  let paragraphs := re_split paragraph_break markdown_text in
  match fold_left (translate_paragraph rq) paragraphs
                  (Some (Progress [] loaded empty_registry)) with
  | None => None
  | Some (Progress translated c all) =>
      let result := join [newline; newline] translated in
      let result := fix_markdown_format result (Some all) in
      let result :=
        match image_paths all with
        | Some all_image_paths =>
            replace_by_index all_image_paths (findall bare_image_pattern result) result
        | None => result
        end in
      Some (result, c)
  end.

(** * Properties *)

(** ** Strings *)

Lemma str_eqb_eq (a b : str) : str_eqb a b = true <-> a = b.
Proof.
  revert b. induction a as [|c a IH]; intros [|d b]; simpl; split; intro H;
    try reflexivity; try discriminate.
  - apply andb_true_iff in H as [H1 H2]. apply N.eqb_eq in H1. apply IH in H2.
    now subst.
  - injection H as -> ->. rewrite N.eqb_refl. simpl. now apply IH.
Qed.

Lemma str_eqb_refl (a : str) : str_eqb a a = true.
Proof. now apply str_eqb_eq. Qed.

Lemma str_eqb_neq (a b : str) : a <> b -> str_eqb a b = false.
Proof.
  intro H. destruct (str_eqb a b) eqn:E; [|reflexivity].
  apply str_eqb_eq in E. contradiction.
Qed.

Lemma startswith_cons (x c : char) (s p : str) :
  startswith (x :: s) (c :: p) = (c =? x) && startswith s p.
Proof. reflexivity. Qed.

Lemma startswith_nil (s : str) : startswith s [] = true.
Proof. now destruct s. Qed.

Lemma startswith_app (s p : str) : startswith (p ++ s) p = true.
Proof.
  induction p as [|c p IH]; simpl; [reflexivity|]. now rewrite N.eqb_refl.
Qed.

Lemma startswith_split (s p : str) :
  startswith s p = true -> s = p ++ skipn (length p) s.
Proof.
  revert s. induction p as [|c p IH]; intros s H; [reflexivity|].
  destruct s as [|d s]; [discriminate|]. simpl in H.
  apply andb_true_iff in H as [H1 H2]. apply N.eqb_eq in H1. subst d.
  simpl. f_equal. now apply IH.
Qed.

(** A string that starts with [p] holds every character of [p]. *)
Lemma startswith_in (s p : str) (c : char) :
  startswith s p = true -> In c p -> In c s.
Proof.
  intros H Hin. apply startswith_split in H. rewrite H. apply in_or_app. now left.
Qed.

Definition lacks (c : char) (s : str) : Prop := ~ In c s.

Lemma lacks_cons (c d : char) (s : str) : lacks c (d :: s) <-> d <> c /\ lacks c s.
Proof. unfold lacks. simpl. tauto. Qed.

Lemma lacks_app (c : char) (s t : str) : lacks c (s ++ t) <-> lacks c s /\ lacks c t.
Proof. unfold lacks. rewrite in_app_iff. tauto. Qed.

Lemma startswith_lacks (s p : str) (c : char) :
  In c p -> lacks c s -> startswith s p = false.
Proof.
  intros Hin Hl. destruct (startswith s p) eqn:E; [|reflexivity].
  exfalso. apply Hl. eapply startswith_in; eassumption.
Qed.

Lemma contains_lacks (s p : str) (c : char) :
  In c p -> lacks c s -> contains s p = false.
Proof.
  intros Hin. induction s as [|d s IH]; intro Hl; cbn [contains].
  - rewrite (startswith_lacks p Hin Hl). reflexivity.
  - rewrite (startswith_lacks p Hin Hl). cbn [orb]. apply IH.
    apply lacks_cons in Hl. tauto.
Qed.

(** [replace] leaves alone a string that lacks a character of [old]. *)
Lemma replace_from_lacks (old new s : str) (c : char) :
  In c old -> lacks c s -> replace_from old new 0 s = s.
Proof.
  intros Hin. induction s as [|d s IH]; intro Hl; cbn [replace_from]; [reflexivity|].
  rewrite (startswith_lacks old Hin Hl). f_equal. apply IH.
  apply lacks_cons in Hl. tauto.
Qed.

Lemma replace_lacks (s old new : str) (c : char) :
  In c old -> lacks c s -> replace s old new = s.
Proof.
  intros Hin Hl. destruct old as [|o old]; [destruct Hin|].
  unfold replace. eapply replace_from_lacks; eassumption.
Qed.

(** Replacing a string by itself changes nothing. *)
Lemma replace_from_same (o : char) (old s : str) (k : nat) :
  replace_from (o :: old) (o :: old) k s = skipn k s.
Proof.
  revert k. induction s as [|d s IH]; intros k; cbn [replace_from].
  - now destruct k.
  - destruct k as [|k]; [|apply IH].
    destruct (startswith (d :: s) (o :: old)) eqn:E.
    + rewrite IH. apply startswith_split in E.
      cbn [length skipn app Nat.sub] in *.
      rewrite Nat.sub_0_r. injection E as -> E. now f_equal.
    + rewrite IH. reflexivity.
Qed.

Lemma replace_same (s old : str) : old <> [] -> replace s old old = s.
Proof.
  intro H. destruct old as [|o old]; [contradiction|].
  unfold replace. apply replace_from_same.
Qed.

(** [replace] with a one-character [old] acts character by character. *)
Lemma replace_char (s new : str) (c : char) :
  replace s [c] new = flat_map (fun d => if d =? c then new else [d]) s.
Proof.
  unfold replace. induction s as [|d s IH]; [reflexivity|].
  cbn [replace_from startswith flat_map length Nat.sub].
  rewrite ?startswith_nil, ?andb_true_r, N.eqb_sym, IH.
  destruct (d =? c); reflexivity.
Qed.


(** ** The matcher *)

Section Matcher.
Context {U : PyUnicode}.

(** [st'] is [st] with the cursor moved over [w]. *)
Definition moved (st st' : mstate) (w : str) : Prop :=
  ms_rest st = w ++ ms_rest st' /\ ms_seen st' = rev w ++ ms_seen st.

Lemma moved_refl (st : mstate) : moved st st [].
Proof. now split. Qed.

Lemma moved_trans (a b c : mstate) (w1 w2 : str) :
  moved a b w1 -> moved b c w2 -> moved a c (w1 ++ w2).
Proof.
  intros [H1 H2] [H3 H4]. split.
  - rewrite H1, H3. now rewrite app_assoc.
  - rewrite H4, H2, rev_app_distr. now rewrite app_assoc.
Qed.

Lemma moved_length (st st' : mstate) (w : str) :
  moved st st' w -> length (ms_rest st) = (length w + length (ms_rest st'))%nat.
Proof. intros [H _]. rewrite H. apply length_app. Qed.

(** A property of the words a matcher moves over, kept by repetition. *)
Lemma rep_loop_moved (Q : str -> Prop) (body : mstate -> list mstate)
    (g : bool) (fuel : nat) :
  Q [] -> (forall w1 w2, Q w1 -> Q w2 -> Q (w1 ++ w2)) ->
  (forall a b, In b (body a) -> exists w, moved a b w /\ Q w) ->
  forall st st', In st' (rep_loop body g fuel st) -> exists w, moved st st' w /\ Q w.
Proof.
  intros Q0 Qapp Hbody. induction fuel as [|f IH]; intros st st' Hin.
  - destruct Hin as [<-|[]]. exists []. split; [apply moved_refl|assumption].
  - cbn [rep_loop] in Hin.
    assert (Hmore : forall x,
               In x (flat_map (fun st1 =>
                       if (length (ms_rest st1) <? length (ms_rest st))%nat
                       then rep_loop body g f st1 else []) (body st)) ->
               exists w, moved st x w /\ Q w).
    { intros x Hx. apply in_flat_map in Hx as [st1 [H1 H2]].
      destruct (length (ms_rest st1) <? length (ms_rest st))%nat; [|destruct H2].
      apply Hbody in H1 as [w1 [M1 Q1]]. apply IH in H2 as [w2 [M2 Q2]].
      exists (w1 ++ w2). split; [eapply moved_trans; eassumption|now apply Qapp]. }
    destruct g.
    + apply in_app_or in Hin as [Hin|[<-|[]]]; [now apply Hmore|].
      exists []. split; [apply moved_refl|assumption].
    + destruct Hin as [<-|Hin]; [|now apply Hmore].
      exists []. split; [apply moved_refl|assumption].
Qed.

Lemma rx_match_moved (r : regex) :
  forall st st', In st' (rx_match r st) -> exists w, moved st st' w.
Proof.
  induction r as [|cc|r1 IH1 r2 IH2|r1 IH1 r2 IH2|g r IH|g r IH|n r IH|r IH| |];
    intros st st' Hin; cbn [rx_match] in Hin.
  - destruct Hin as [<-|[]]. exists []. apply moved_refl.
  - destruct st as [caps seen [|c rest]]; cbn in Hin; [destruct Hin|].
    destruct (cc_match cc c); [|destruct Hin]. destruct Hin as [<-|[]].
    exists [c]. now split.
  - apply in_flat_map in Hin as [st1 [H1 H2]].
    apply IH1 in H1 as [w1 M1]. apply IH2 in H2 as [w2 M2].
    exists (w1 ++ w2). eapply moved_trans; eassumption.
  - apply in_app_or in Hin as [Hin|Hin]; [now apply IH1|now apply IH2].
  - eapply rep_loop_moved with (Q := fun _ => True) in Hin; auto.
    + destruct Hin as [w [M _]]. now exists w.
    + intros a b Hab. apply IH in Hab as [w M]. now exists w.
  - apply in_flat_map in Hin as [st1 [H1 H2]].
    apply IH in H1 as [w1 M1].
    eapply rep_loop_moved with (Q := fun _ => True) in H2; auto.
    + destruct H2 as [w2 [M2 _]]. exists (w1 ++ w2). eapply moved_trans; eassumption.
    + intros a b Hab. apply IH in Hab as [w M]. now exists w.
  - apply in_map_iff in Hin as [st1 [<- H1]]. apply IH in H1 as [w M].
    exists w. exact M.
  - destruct (rx_match r st); [|destruct Hin]. destruct Hin as [<-|[]].
    exists []. apply moved_refl.
  - destruct (ms_seen st) as [|c ?]; [|destruct (c =? newline)];
      cbn in Hin; try contradiction;
      destruct Hin as [<-|[]]; exists []; apply moved_refl.
  - destruct (ms_rest st) as [|c ?]; [|destruct (c =? newline)];
      cbn in Hin; try contradiction;
      destruct Hin as [<-|[]]; exists []; apply moved_refl.
Qed.

(** [wantsb ok r]: every match of [r] goes over a character that a class
    accepted by [ok] matched. *)
Fixpoint wantsb (ok : cclass -> bool) (r : regex) : bool :=
  match r with
  | Chr cc => ok cc
  | Seq r1 r2 => wantsb ok r1 || wantsb ok r2
  | Alt r1 r2 => wantsb ok r1 && wantsb ok r2
  | Plus _ r1 => wantsb ok r1
  | Grp _ r1 => wantsb ok r1
  | _ => false
  end.

Section Wants.
Variables (ok : cclass -> bool) (p : char -> bool).
Hypothesis ok_sound :
  forall cc c, ok cc = true -> cc_match cc c = true -> p c = true.

Lemma existsb_app_l (w1 w2 : str) :
  existsb p w1 = true -> existsb p (w1 ++ w2) = true.
Proof. intro H. rewrite existsb_app, H. reflexivity. Qed.

Lemma existsb_app_r (w1 w2 : str) :
  existsb p w2 = true -> existsb p (w1 ++ w2) = true.
Proof. intro H. rewrite existsb_app, H. apply orb_true_r. Qed.

Lemma rx_match_wants (r : regex) :
  wantsb ok r = true ->
  forall st st', In st' (rx_match r st) ->
  exists w, moved st st' w /\ existsb p w = true.
Proof.
  induction r as [|cc|r1 IH1 r2 IH2|r1 IH1 r2 IH2|g r IH|g r IH|n r IH|r IH| |];
    intros Hw st st' Hin; cbn [wantsb] in Hw; try discriminate;
    cbn [rx_match] in Hin.
  - destruct st as [caps seen [|c rest]]; cbn in Hin; [destruct Hin|].
    destruct (cc_match cc c) eqn:E; [|destruct Hin]. destruct Hin as [<-|[]].
    exists [c]. split; [now split|]. cbn. now rewrite (@ok_sound cc c Hw E).
  - apply in_flat_map in Hin as [st1 [H1 H2]].
    apply orb_true_iff in Hw as [Hw|Hw].
    + destruct (IH1 Hw _ _ H1) as [w1 [M1 P1]].
      apply rx_match_moved in H2 as [w2 M2].
      exists (w1 ++ w2). split; [eapply moved_trans; eassumption|].
      now apply existsb_app_l.
    + apply rx_match_moved in H1 as [w1 M1].
      destruct (IH2 Hw _ _ H2) as [w2 [M2 P2]].
      exists (w1 ++ w2). split; [eapply moved_trans; eassumption|].
      now apply existsb_app_r.
  - apply andb_true_iff in Hw as [Hw1 Hw2].
    apply in_app_or in Hin as [Hin|Hin]; [now apply IH1|now apply IH2].
  - apply in_flat_map in Hin as [st1 [H1 H2]].
    destruct (IH Hw _ _ H1) as [w1 [M1 P1]].
    eapply rep_loop_moved with (Q := fun _ => True) in H2; auto.
    + destruct H2 as [w2 [M2 _]].
      exists (w1 ++ w2). split; [eapply moved_trans; eassumption|].
      now apply existsb_app_l.
    + intros a b Hab. apply rx_match_moved in Hab as [w M]. now exists w.
  - apply in_map_iff in Hin as [st1 [<- H1]].
    destruct (IH Hw _ _ H1) as [w [M P]]. exists w. split; [exact M|exact P].
Qed.

(** The subject has no character of the wanted kind. *)
Definition free (s : str) : Prop := forall c, In c s -> p c = false.

Lemma free_cons (c : char) (s : str) : free (c :: s) -> free s.
Proof. intros H d Hd. apply H. now right. Qed.

Lemma rx_match_free (r : regex) (caps : list (nat * str)) (seen rest : str) :
  wantsb ok r = true -> free rest -> rx_match r (MState caps seen rest) = [].
Proof.
  intros Hw Hf. destruct (rx_match r (MState caps seen rest)) as [|st' l] eqn:E;
    [reflexivity|].
  assert (Hin : In st' (rx_match r (MState caps seen rest))) by (rewrite E; now left).
  destruct (rx_match_wants r Hw _ _ Hin) as [w [[M _] P]].
  apply existsb_exists in P as [c [Hc Pc]]. cbn in M.
  rewrite Hf in Pc; [discriminate|]. rewrite M. apply in_or_app. now left.
Qed.

Lemma first_hit_free (r : regex) (seen rest : str) (adv : bool) :
  wantsb ok r = true -> free rest -> first_hit r seen rest adv = None.
Proof.
  intros Hw Hf. unfold first_hit. now rewrite rx_match_free.
Qed.

Lemma scan_free (r : regex) (rest : str) :
  wantsb ok r = true -> free rest ->
  forall seen pend, scan r seen pend 0 rest = ([], rev pend ++ rest).
Proof.
  intros Hw. induction rest as [|c rest IH]; intros Hf seen pend; cbn [scan].
  - rewrite first_hit_free by assumption. now rewrite app_nil_r.
  - rewrite first_hit_free by assumption.
    rewrite IH by (eapply free_cons; eassumption).
    cbn [rev]. now rewrite <- app_assoc.
Qed.

Lemma re_sub_free (r : regex) (f : rmatch -> str) (s : str) :
  wantsb ok r = true -> free s -> re_sub r f s = s.
Proof. intros Hw Hf. unfold re_sub. now rewrite scan_free. Qed.

Lemma finditer_free (r : regex) (s : str) :
  wantsb ok r = true -> free s -> finditer r s = [].
Proof. intros Hw Hf. unfold finditer. now rewrite scan_free. Qed.

Lemma findall_free (r : regex) (s : str) :
  wantsb ok r = true -> free s -> findall r s = [].
Proof. intros Hw Hf. unfold findall. now rewrite finditer_free. Qed.


End Wants.

(** A class that only matches characters with [p]: a literal with [p], a
    set of such; under [re.IGNORECASE] a literal that has no case. *)
Definition within (p : char -> bool) (cc : cclass) : bool :=
  match cc with
  | CLit d => p d
  | CLitI d => p d && (d <? 128) && negb (ascii_letter d)
  | CSet l => forallb p l
  | _ => false
  end.

Lemma within_sound (p : char -> bool) (cc : cclass) (c : char) :
  within p cc = true -> cc_match cc c = true -> p c = true.
Proof.
  destruct cc; cbn; intros Hw Hm; try discriminate.
  - apply N.eqb_eq in Hm. now subst.
  - apply andb_true_iff in Hw as [Hw H3]. apply andb_true_iff in Hw as [H1 H2].
    apply N.ltb_lt in H2. apply negb_true_iff in H3.
    rewrite ci_eq_uncased in Hm by assumption. apply N.eqb_eq in Hm. now subst.
  - unfold in_set in Hm. apply existsb_exists in Hm as [d [Hd E]].
    apply N.eqb_eq in E. subst d. rewrite forallb_forall in Hw. now apply Hw.
Qed.

(** The class [\d]. *)
Definition digit_class (cc : cclass) : bool :=
  match cc with CDigit => true | _ => false end.

Lemma digit_class_sound (cc : cclass) (c : char) :
  digit_class cc = true -> cc_match cc c = true -> is_decimal c = true.
Proof. destruct cc; cbn; intros Hw Hm; try discriminate. exact Hm. Qed.

End Matcher.

(** ** The cache (claim C8) *)

Lemma dict_get_set_same (V : Type) (d : list (str * V)) (k : str) (v : V) :
  dict_get (dict_set d k v) k = Some v.
Proof.
  induction d as [|[k' v'] d IH]; cbn.
  - now rewrite str_eqb_refl.
  - destruct (str_eqb k' k) eqn:E; cbn; rewrite E; [reflexivity|exact IH].
Qed.

(** C8: on the in-memory cache, [set(k, v)] followed by [get(k)] returns
    [v], whatever the default and whatever the cache held; and after
    [clear()] every [get(k)] returns the default [None]. *)
Theorem cache_round_trip :
  (forall (c : TranslationCache) (k v : str) (default : option str),
     TranslationCacheOps.get (TranslationCacheOps.set c k v) k default = Some v) /\
  (forall (c : TranslationCache) (k : str),
     TranslationCacheOps.get (TranslationCacheOps.clear c) k None = None).
Proof.
  split.
  - intros c k v default. unfold TranslationCacheOps.get, TranslationCacheOps.set.
    cbn [cache]. now rewrite dict_get_set_same.
  - intros c k. reflexivity.
Qed.

(** ** The pipeline on the inputs of the specification

    These run the embedding on ASCII inputs, where the laws of [PyUnicode]
    leave no choice, with the tables of [ascii_unicode]. *)

Section OnInputs.
#[local] Existing Instance ascii_unicode.

(** The number in a placeholder [__KIND_N__], as the source reads it. *)
Definition placeholder_number (ph : str) : option str :=
  match re_match (typed_number "__" "__") ph with
  | Some m => Some (group m 2)
  | None => None
  end.

(** The three untitled images of the scenario. *)
Definition three_images : str := py "![](a.png) ![](b.png) ![](c.png)".

(** C3: the unit with the untitled images a.png, b.png, c.png is protected
    as three placeholders, but when the transform renders them as
    imagelink0, imagelink1, imagelink2 recovery does not give back the
    three images: the key meant to be [imagelink<N>] is built from
    [placeholder.split('_')[-2]], which is the empty string, so the key is
    [imagelink] for each image, the last image takes it, and each number is
    left behind it.  The format repair changes nothing more.  In upper case
    the same text is recovered by position, as the claim has it; spelled
    with spaces in lower case it is lost the same way. *)
Theorem imagelink_fallback_last_image :
  let '(protected, reg) := protect_special_elements three_images in
  protected = py "__IMAGE_LINK_0__ __IMAGE_LINK_1__ __IMAGE_LINK_2__" /\
  image_paths reg = Some [ (false, [], py "a.png", py "__IMAGE_LINK_0__");
                           (false, [], py "b.png", py "__IMAGE_LINK_1__");
                           (false, [], py "c.png", py "__IMAGE_LINK_2__") ] /\
  image_keys false (py "__IMAGE_LINK_0__") =
    Some [ py "__IMAGE_LINK_0__"; py "__image_link_0__"; py "_IMAGE_LINK_0_";
           py "_ IMAGE_LINK_0_ "; py "image_link_"; py "IMAGE_LINK_";
           py "image_link_"; py "image link"; py "imagelink" ] /\
  restore_special_elements (py "imagelink0 imagelink1 imagelink2") reg
    = Some (py "![](c.png)0 ![](c.png)1 ![](c.png)2") /\
  fix_markdown_format (py "![](c.png)0 ![](c.png)1 ![](c.png)2") (Some reg)
    = py "![](c.png)0 ![](c.png)1 ![](c.png)2" /\
  restore_special_elements (py "IMAGELINK0 IMAGELINK1 IMAGELINK2") reg
    = Some three_images /\
  restore_special_elements (py "image link 0 image link 1 image link 2") reg
    = Some (py "![](c.png) 0 ![](c.png) 1 ![](c.png) 2").
Proof. vm_compute. repeat split. Qed.

Definition same_language (provider : str -> outcome) : request :=
  Request (py "en") (py "en") (py "google") true provider.

Definition other_language (provider : str -> outcome) : request :=
  Request (py "en") (py "zh") (py "google") true provider.

(** C6: with the source language equal to the target language the unit
    [Use `x` now] comes back with the placeholder of its inline code still
    in it: that branch calls [restore_formulas] alone and goes on to the
    next unit.  The branch that translates restores the span, here with a
    provider that fails and so leaves the protected text as it is. *)
Theorem same_language_leaves_placeholders (provider : str -> outcome) :
  option_map fst (translate_markdown (py "Use `x` now") (same_language provider)
                                     (Cache [] None))
    = Some (py "Use __INLINE_CODE_0__ now") /\
  option_map fst (translate_markdown (py "Use `x` now")
                                     (other_language (fun _ => Failed)) (Cache [] None))
    = Some (py "Use `x` now").
Proof. vm_compute. split; reflexivity. Qed.

(** The scenario of the specification. *)
Definition scenario : str := py "See $E=mc^2$ and ![](img/a.png).".




(** C5, as stated, fails: in the registry of the scenario the formula and
    the image both carry the number 0. *)
Lemma numbers_repeat_across_kinds :
  let '(_, reg) := protect_special_elements scenario in
  map fst (entries reg) = [py "__ALL_MATH_0__"; py "__IMAGE_LINK_0__"] /\
  ~ NoDup (map placeholder_number (map fst (entries reg))).
Proof.
  vm_compute. split; [reflexivity|].
  intro H. inversion H as [|x l Hn _]. apply Hn. now left.
Qed.

End OnInputs.

(** ** Runs of one class

    What a repeated character class gives on a run [w] of characters it
    matches, when the character after the run is not one of them. *)

(** The positions inside the run, nearest first. *)
Fixpoint run_states (caps : list (nat * str)) (seen w rest : str) : list mstate :=
  MState caps seen (w ++ rest) ::
  match w with
  | [] => []
  | c :: w' => run_states caps (c :: seen) w' rest
  end.

Section Runs.
Context {U : PyUnicode}.

(** The run ends at [rest]. *)
Definition stops (cc : cclass) (rest : str) : Prop :=
  match rest with
  | [] => True
  | c :: _ => cc_match cc c = false
  end.

Lemma rx_match_chr_cons (cc : cclass) (caps : list (nat * str)) (seen rest : str)
    (c : char) :
  cc_match cc c = true ->
  rx_match (Chr cc) (MState caps seen (c :: rest)) = [MState caps (c :: seen) rest].
Proof. cbn. now intros ->. Qed.

Lemma rx_match_seq (r1 r2 : regex) (st : mstate) :
  rx_match (Seq r1 r2) st = flat_map (rx_match r2) (rx_match r1 st).
Proof. reflexivity. Qed.

Lemma rx_match_plus (g : bool) (r : regex) (st : mstate) :
  rx_match (Plus g r) st =
  flat_map (fun st' => rep_loop (rx_match r) g (length (ms_rest st')) st')
           (rx_match r st).
Proof. reflexivity. Qed.

Lemma rx_match_star (g : bool) (r : regex) (st : mstate) :
  rx_match (Star g r) st = rep_loop (rx_match r) g (length (ms_rest st)) st.
Proof. reflexivity. Qed.

Lemma rx_match_grp (n : nat) (r : regex) (st : mstate) :
  rx_match (Grp n r) st =
  map (fun st' => MState (set_cap n (consumed st st') (ms_caps st'))
                         (ms_seen st') (ms_rest st'))
      (rx_match r st).
Proof. reflexivity. Qed.

Lemma rx_match_chr_stops (cc : cclass) (caps : list (nat * str)) (seen rest : str) :
  stops cc rest -> rx_match (Chr cc) (MState caps seen rest) = [].
Proof. destruct rest as [|c rest]; cbn; [reflexivity|]. now intros ->. Qed.

Lemma rep_loop_run (cc : cclass) (g : bool) (caps : list (nat * str)) (w rest : str) :
  Forall (fun c => cc_match cc c = true) w -> stops cc rest ->
  forall seen fuel, (length w <= fuel)%nat ->
  rep_loop (rx_match (Chr cc)) g fuel (MState caps seen (w ++ rest)) =
  if g then rev (run_states caps seen w rest) else run_states caps seen w rest.
Proof.
  intros Hw Hstop. induction Hw as [|c w Hc Hw IH]; intros seen fuel Hf.
  - cbn [app run_states rev]. destruct fuel as [|f]; cbn [rep_loop].
    + now destruct g.
    + rewrite rx_match_chr_stops by assumption. now destruct g.
  - destruct fuel as [|f]; [cbn in Hf; lia|]. cbn [rep_loop app].
    rewrite rx_match_chr_cons by assumption. cbn [flat_map ms_rest].
    replace (length (w ++ rest) <? length (c :: w ++ rest))%nat with true
      by (symmetry; apply Nat.ltb_lt; cbn; lia).
    rewrite app_nil_r, IH by (cbn in Hf; lia).
    cbn [run_states app]. destruct g; reflexivity.
Qed.

Lemma run_states_last (caps : list (nat * str)) (w rest : str) :
  forall seen, exists init,
    run_states caps seen w rest = init ++ [MState caps (rev w ++ seen) rest].
Proof.
  induction w as [|c w IH]; intros seen.
  - exists []. reflexivity.
  - destruct (IH (c :: seen)) as [init E]. cbn [run_states].
    exists (MState caps seen ((c :: w) ++ rest) :: init). rewrite E.
    cbn [rev app]. now rewrite <- app_assoc.
Qed.

(** A greedy [+] first takes the whole run. *)
Lemma plus_greedy_run (cc : cclass) (caps : list (nat * str)) (c : char) (w rest seen : str) :
  Forall (fun d => cc_match cc d = true) (c :: w) -> stops cc rest ->
  exists others,
    rx_match (Plus true (Chr cc)) (MState caps seen ((c :: w) ++ rest)) =
    MState caps (rev (c :: w) ++ seen) rest :: others.
Proof.
  intros Hw Hstop. inversion Hw as [|? ? Hc Hw']; subst.
  rewrite rx_match_plus. cbn [app].
  rewrite rx_match_chr_cons by assumption. cbn [flat_map ms_rest].
  rewrite app_nil_r, rep_loop_run by (auto; rewrite length_app; lia).
  destruct (run_states_last caps w rest (c :: seen)) as [init E]. rewrite E.
  rewrite rev_app_distr. cbn [rev app]. exists (rev init).
  now rewrite <- app_assoc.
Qed.

(** The text a group took, when the cursor went from [w ++ rest] to [rest]. *)
Lemma consumed_run (caps caps' : list (nat * str)) (seen seen' w rest : str) :
  consumed (MState caps seen (w ++ rest)) (MState caps' seen' rest) = w.
Proof.
  unfold consumed. cbn [ms_rest]. rewrite length_app.
  replace (length w + length rest - length rest)%nat with (length w) by lia.
  rewrite firstn_app, Nat.sub_diag, firstn_all. cbn. apply app_nil_r.
Qed.

End Runs.

(** ** Headings (claim C7) *)

Definition is_hash (c : char) : bool := (c =? ch "#") || (c =? fw_hash).

(** The number of hash marks a line begins with. *)
Fixpoint hash_run (l : str) : nat :=
  match l with
  | c :: l' => if is_hash c then S (hash_run l') else O
  | [] => O
  end.

(** The repair of one line, in the words of the specification: the marks
    become as many ASCII [#], and the text after them gets a space in front
    when it does not begin with one. *)
Definition repair_line (l : str) : str :=
  match hash_run l with
  | O => l
  | S n =>
      let content := skipn (S n) l in
      repeat (ch "#") (S n) ++
      (if startswith content (py " ") then content else py " " ++ content)
  end.

Section Headings.
Context {U : PyUnicode}.

Definition hash_class : cclass := CSet [ch "#"; fw_hash].

Lemma hash_class_match (c : char) : cc_match hash_class c = is_hash c.
Proof. cbn. unfold is_hash. now rewrite orb_false_r. Qed.

(** The cursor is at the start of a line, and at the end of one. *)
Definition line_start (seen : str) : Prop :=
  match seen with [] => True | c :: _ => c = newline end.
Definition line_end (tail : str) : Prop :=
  match tail with [] => True | c :: _ => c = newline end.

Lemma hash_run_firstn (l : str) :
  Forall (fun c => cc_match hash_class c = true) (firstn (hash_run l) l).
Proof.
  induction l as [|c l IH]; cbn [hash_run]; [constructor|].
  destruct (is_hash c) eqn:E; cbn [firstn]; constructor; [|exact IH].
  now rewrite hash_class_match.
Qed.

Lemma hash_run_length (l : str) : length (firstn (hash_run l) l) = hash_run l.
Proof.
  induction l as [|c l IH]; cbn [hash_run]; [reflexivity|].
  destruct (is_hash c); cbn; [now rewrite IH|reflexivity].
Qed.

Lemma hash_run_stops (l tail : str) :
  lacks newline l -> line_end tail ->
  stops hash_class (skipn (hash_run l) l ++ tail).
Proof.
  intros Hl Ht. induction l as [|c l IH]; cbn [hash_run].
  - cbn. destruct tail as [|t tail]; [exact I|]. cbn in Ht. subst t. reflexivity.
  - destruct (is_hash c) eqn:E.
    + cbn [skipn]. apply IH. apply lacks_cons in Hl. tauto.
    + cbn [skipn app stops]. now rewrite hash_class_match.
Qed.

Lemma rx_match_bol (caps : list (nat * str)) (seen rest : str) :
  line_start seen -> rx_match Bol (MState caps seen rest) = [MState caps seen rest].
Proof.
  destruct seen as [|c seen]; cbn; [reflexivity|]. intros ->. reflexivity.
Qed.

Lemma rx_match_bol_inside (caps : list (nat * str)) (c : char) (seen rest : str) :
  c <> newline -> rx_match Bol (MState caps (c :: seen) rest) = [].
Proof. intro H. cbn. apply N.eqb_neq in H. now rewrite H. Qed.

(** A lazy [.*?] followed by [$] goes to the end of the line. *)
Lemma lazy_dots_to_eol (F : mstate -> mstate) (caps : list (nat * str))
    (content tail : str) :
  (forall st, ms_rest (F st) = ms_rest st) ->
  lacks newline content -> line_end tail ->
  forall seen,
    flat_map (rx_match Eol) (map F (run_states caps seen content tail)) =
    [F (MState caps (rev content ++ seen) tail)].
Proof.
  intros HF Hc Ht. induction content as [|c content IH]; intros seen.
  - cbn [run_states map flat_map app rev]. cbn [rx_match]. rewrite HF. cbn [ms_rest].
    destruct tail as [|t tail]; [reflexivity|]. cbn in Ht. subst t. reflexivity.
  - apply lacks_cons in Hc as [Hc1 Hc2].
    cbn [run_states map flat_map]. rewrite IH by assumption.
    cbn [rx_match]. rewrite HF. cbn [ms_rest app].
    apply N.eqb_neq in Hc1. rewrite Hc1. cbn [app rev]. now rewrite <- app_assoc.
Qed.

Lemma dots_run (content : str) :
  lacks newline content -> Forall (fun c => cc_match CDot c = true) content.
Proof.
  induction content as [|c content IH]; intro H; constructor.
  - apply lacks_cons in H as [H _]. cbn. apply N.eqb_neq in H. now rewrite H.
  - apply IH. apply lacks_cons in H. tauto.
Qed.

Lemma dots_stop (tail : str) : line_end tail -> stops CDot tail.
Proof. destruct tail as [|t tail]; cbn; [trivial|]. now intros ->. Qed.

(** The match of the heading pattern on a line that begins with marks. *)
Lemma heading_hit (seen hs content tail : str) (h : char) :
  line_start seen ->
  Forall (fun c => cc_match hash_class c = true) (h :: hs) ->
  stops hash_class (content ++ tail) ->
  lacks newline content -> line_end tail ->
  first_hit heading_pattern seen ((h :: hs) ++ content ++ tail) false =
  Some (length ((h :: hs) ++ content), [(2%nat, content); (1%nat, h :: hs)]).
Proof.
  intros Hs Hh Hstop Hc Ht. unfold first_hit, heading_pattern. cbn [seqs].
  rewrite rx_match_seq, rx_match_bol by assumption. cbn [flat_map]. rewrite app_nil_r.
  rewrite rx_match_seq, rx_match_grp.
  destruct (@plus_greedy_run _ hash_class [] h hs (content ++ tail) seen Hh Hstop)
    as [others E].
  fold hash_class. rewrite E. cbn [map flat_map ms_caps ms_seen ms_rest].
  rewrite consumed_run.
  rewrite rx_match_seq, rx_match_grp. unfold lazy_dots. rewrite rx_match_star.
  cbn [ms_rest]. rewrite rep_loop_run
    by (auto using dots_run, dots_stop; rewrite length_app; lia).
  rewrite lazy_dots_to_eol by auto.
  cbn [app filter negb orb ms_rest ms_caps].
  rewrite consumed_run. f_equal. f_equal.
  cbn [length]. rewrite !length_app. lia.
Qed.

(** No match starts where the line does not begin with a mark. *)
Lemma heading_miss_start (seen rest : str) :
  stops hash_class rest -> first_hit heading_pattern seen rest false = None.
Proof.
  intro Hstop. unfold first_hit, heading_pattern. cbn [seqs].
  rewrite rx_match_seq.
  destruct (rx_match Bol (MState [] seen rest)) as [|st l] eqn:E; [reflexivity|].
  assert (l = [] /\ st = MState [] seen rest) as [-> ->].
  { cbn in E. destruct seen as [|c seen]; [|destruct (c =? newline)];
      inversion E; now subst. }
  cbn [flat_map]. rewrite app_nil_r, rx_match_seq, rx_match_grp, rx_match_plus.
  fold hash_class. now rewrite rx_match_chr_stops.
Qed.

(** No match starts inside a line. *)
Lemma heading_miss_inside (c : char) (seen rest : str) :
  c <> newline -> first_hit heading_pattern (c :: seen) rest false = None.
Proof.
  intro H. unfold first_hit, heading_pattern. cbn [seqs].
  now rewrite rx_match_seq, rx_match_bol_inside.
Qed.

Lemma scan_skip (r : regex) (w rest : str) :
  forall seen pend,
    scan r seen pend (length w) (w ++ rest) = scan r (rev w ++ seen) pend 0 rest.
Proof.
  induction w as [|c w IH]; intros seen pend; [reflexivity|].
  cbn [length app scan]. rewrite IH. cbn [rev]. now rewrite <- app_assoc.
Qed.

Lemma scan_inside_line (w rest : str) :
  lacks newline w ->
  forall c seen pend, c <> newline ->
    scan heading_pattern (c :: seen) pend 0 (w ++ rest) =
    scan heading_pattern (rev w ++ c :: seen) (rev w ++ pend) 0 rest.
Proof.
  induction w as [|d w IH]; intros Hw c seen pend Hc; [reflexivity|].
  apply lacks_cons in Hw as [Hd Hw].
  cbn [app scan]. rewrite heading_miss_inside by assumption.
  rewrite IH by assumption. cbn [rev]. now rewrite <- !app_assoc.
Qed.

End Headings.

(** The text [re.sub] puts together from a scan. *)
Definition stitch (f : rmatch -> str) (p : list (str * rmatch) * str) : str :=
  flat_map (fun pm => fst pm ++ f (snd pm)) (fst p) ++ snd p.

Section Stitch.
Context {U : PyUnicode}.

Lemma re_sub_stitch (r : regex) (f : rmatch -> str) (s : str) :
  re_sub r f s = stitch f (scan r [] [] 0 s).
Proof. unfold re_sub, stitch. now destruct (scan r [] [] 0 s). Qed.

Lemma stitch_cons (f : rmatch -> str) (pre : str) (m : rmatch)
    (p : list (str * rmatch) * str) :
  stitch f (let (ms, tl) := p in ((pre, m) :: ms, tl)) = pre ++ f m ++ stitch f p.
Proof. destruct p as [ms tl]. unfold stitch. cbn. now rewrite <- !app_assoc. Qed.

Lemma stitch_cons2 (f : rmatch -> str) (pre : str) (m m' : rmatch)
    (p : list (str * rmatch) * str) :
  stitch f (let (ms, tl) := p in ((pre, m) :: ([], m') :: ms, tl)) =
  pre ++ f m ++ f m' ++ stitch f p.
Proof. destruct p as [ms tl]. unfold stitch. cbn. now rewrite <- !app_assoc. Qed.

(** The unmatched text carried along comes out in front. *)
Lemma stitch_scan_pend (f : rmatch -> str) (r : regex) (rest : str) :
  forall seen pend k,
    stitch f (scan r seen pend k rest) = rev pend ++ stitch f (scan r seen [] k rest).
Proof.
  induction rest as [|c rest IH]; intros seen pend k.
  - destruct k as [|k]; cbn [scan].
    + destruct (first_hit r seen [] false) as [[[|len] caps]|];
        try destruct (first_hit r seen [] true) as [[[|len'] caps']|];
        unfold stitch; cbn; now rewrite ?app_nil_r.
    + unfold stitch. cbn. now rewrite app_nil_r.
  - destruct k as [|k]; cbn [scan].
    + destruct (first_hit r seen (c :: rest) false) as [[[|len] caps]|].
      * destruct (first_hit r seen (c :: rest) true) as [[[|len'] caps']|].
        -- rewrite !stitch_cons. reflexivity.
        -- rewrite !stitch_cons2. reflexivity.
        -- rewrite !stitch_cons. reflexivity.
      * rewrite !stitch_cons. reflexivity.
      * rewrite IH. rewrite (IH _ [c]). cbn [rev app]. now rewrite <- app_assoc.
    + apply IH.
Qed.

End Stitch.

Section HeadingLines.
Context {U : PyUnicode}.

Lemma fix_heading_format_groups (text hs content : str) (n : nat) :
  length hs = S n ->
  fix_heading_format (RMatch text [(2%nat, content); (1%nat, hs)]) =
  repeat (ch "#") (S n) ++
  (if startswith content (py " ") then content else py " " ++ content).
Proof.
  intro H. unfold fix_heading_format, group. cbn [m_caps find fst snd Nat.eqb].
  rewrite H. now destruct (startswith content (py " ")).
Qed.

Lemma firstn_hash_run_cons (l : str) (n : nat) :
  hash_run l = S n -> exists h hs, firstn (S n) l = h :: hs.
Proof.
  destruct l as [|c l]; cbn [hash_run]; [discriminate|].
  destruct (is_hash c); [|discriminate]. intros _. cbn. eauto.
Qed.

(** One line of the subject. *)
Lemma scan_heading_line (l tail seen : str) :
  lacks newline l -> line_start seen -> line_end tail ->
  stitch fix_heading_format (scan heading_pattern seen [] 0 (l ++ tail)) =
  repair_line l ++
  stitch fix_heading_format (scan heading_pattern (rev l ++ seen) [] 0 tail).
Proof.
  intros Hl Hs Ht. unfold repair_line. destruct (hash_run l) as [|n] eqn:En.
  - destruct l as [|c l]; [reflexivity|].
    cbn [hash_run] in En. destruct (is_hash c) eqn:Eh; [discriminate|].
    apply lacks_cons in Hl as [Hc Hl].
    cbn [app scan]. rewrite heading_miss_start
      by (cbn [stops]; now rewrite hash_class_match).
    rewrite scan_inside_line by assumption.
    rewrite stitch_scan_pend. rewrite rev_app_distr, rev_involutive. cbn [rev app].
    now rewrite <- app_assoc.
  - pose proof (hash_run_firstn l) as Hh. pose proof (hash_run_length l) as Hlen.
    pose proof (@hash_run_stops _ l tail Hl Ht) as Hstop.
    rewrite En in Hh, Hlen, Hstop.
    destruct (@firstn_hash_run_cons l n En) as [h [hs Eh]].
    set (content := skipn (S n) l) in *.
    assert (El : l = (h :: hs) ++ content)
      by (rewrite <- Eh; unfold content; symmetry; apply firstn_skipn).
    assert (Hcontent : lacks newline content)
      by (rewrite El in Hl; apply lacks_app in Hl; tauto).
    rewrite Eh in Hh, Hlen.
    rewrite El at 1. rewrite <- app_assoc. cbn [app scan].
    pose proof (@heading_hit _ seen hs content tail h Hs Hh Hstop Hcontent Ht) as Hit.
    cbn [app] in Hit. rewrite Hit. cbn [length app].
    rewrite stitch_cons. cbn [rev app].
    rewrite app_assoc, scan_skip.
    rewrite (@fix_heading_format_groups _ _ content n Hlen).
    assert (Er : rev l ++ seen = rev (hs ++ content) ++ h :: seen)
      by (rewrite El; cbn [rev app]; now rewrite <- app_assoc).
    rewrite Er. fold content. cbn [app]. reflexivity.
Qed.

Lemma scan_heading_end (seen : str) :
  stitch fix_heading_format (scan heading_pattern seen [] 0 []) = [].
Proof. cbn [scan]. now rewrite heading_miss_start by exact I. Qed.

Lemma scan_heading_newline (seen more : str) :
  stitch fix_heading_format (scan heading_pattern seen [] 0 (newline :: more)) =
  newline :: stitch fix_heading_format (scan heading_pattern (newline :: seen) [] 0 more).
Proof.
  cbn [scan]. rewrite heading_miss_start by reflexivity.
  now rewrite stitch_scan_pend.
Qed.

Lemma scan_heading_lines (l : str) (ls : list str) :
  Forall (lacks newline) (l :: ls) ->
  forall seen, line_start seen ->
    stitch fix_heading_format
           (scan heading_pattern seen [] 0 (join [newline] (l :: ls))) =
    join [newline] (map repair_line (l :: ls)).
Proof.
  revert l. induction ls as [|l2 ls IH]; intros l Hall seen Hs;
    inversion Hall as [|? ? Hl Hls]; subst.
  - cbn [join map]. rewrite <- (app_nil_r l) at 1.
    rewrite scan_heading_line by (auto; exact I).
    rewrite scan_heading_end. apply app_nil_r.
  - change (join [newline] (l :: l2 :: ls))
      with (l ++ newline :: join [newline] (l2 :: ls)).
    change (join [newline] (map repair_line (l :: l2 :: ls)))
      with (repair_line l ++ newline :: join [newline] (map repair_line (l2 :: ls))).
    rewrite scan_heading_line by (auto; reflexivity).
    rewrite scan_heading_newline, IH by (auto; reflexivity).
    reflexivity.
Qed.

(** Heading repair acts line by line. *)
Lemma repair_headings_lines (lines : list str) :
  Forall (lacks newline) lines ->
  repair_headings (join [newline] lines) = join [newline] (map repair_line lines).
Proof.
  intro H. unfold repair_headings. rewrite re_sub_stitch.
  destruct lines as [|l ls].
  - apply scan_heading_end.
  - now apply scan_heading_lines.
Qed.

End HeadingLines.

(** A subject given character by character has none of the wanted kind. *)
Lemma free_forallb (p : char -> bool) (s : str) :
  forallb (fun c => negb (p c)) s = true -> free p s.
Proof.
  intros H c Hc. rewrite forallb_forall in H. apply H in Hc.
  now apply negb_true_iff in Hc.
Qed.

Lemma free_Forall (p : char -> bool) (s : str) :
  Forall (fun c => p c = false) s -> free p s.
Proof. intros H c Hc. rewrite Forall_forall in H. now apply H. Qed.

(** [r] cannot match without going over the character [d]. *)
Definition wants_char (d : char) (r : regex) : bool := wantsb (within (N.eqb d)) r.

Lemma free_lacks (d : char) (s : str) : lacks d s -> free (N.eqb d) s.
Proof.
  intros H c Hc. apply N.eqb_neq. intros ->. now apply H.
Qed.

Section Lacking.
Context {U : PyUnicode}.
Variables (d : char) (r : regex) (s : str).
Hypothesis Hw : wants_char d r = true.
Hypothesis Hl : lacks d s.

Lemma re_sub_lacks (f : rmatch -> str) : re_sub r f s = s.
Proof.
  apply re_sub_free with (ok := within (N.eqb d)) (p := N.eqb d);
    [apply (@within_sound _ (N.eqb d))|exact Hw|apply free_lacks; exact Hl].
Qed.

Lemma findall_lacks : findall r s = [].
Proof.
  apply findall_free with (ok := within (N.eqb d)) (p := N.eqb d);
    [apply (@within_sound _ (N.eqb d))|exact Hw|apply free_lacks; exact Hl].
Qed.



End Lacking.

(** C7: heading repair works line by line: a line that begins with one or
    more marks, ASCII [#] or full-width, comes out with as many ASCII [#]
    and with one space put before its text when the text does not begin
    with a space, and every other line comes out as it is; and the line
    [＃＃Title] becomes [## Title], also through [fix_markdown_format]. *)
Theorem heading_repair (U : PyUnicode) :
  (forall lines : list str,
     Forall (lacks newline) lines ->
     repair_headings (join [newline] lines) = join [newline] (map repair_line lines)) /\
  repair_headings ([fw_hash; fw_hash] ++ py "Title") = py "## Title" /\
  fix_markdown_format ([fw_hash; fw_hash] ++ py "Title") None = py "## Title".
Proof.
  assert (E : repair_headings ([fw_hash; fw_hash] ++ py "Title") = py "## Title").
  { change ([fw_hash; fw_hash] ++ py "Title")
      with (join [newline] [[fw_hash; fw_hash] ++ py "Title"]).
    rewrite repair_headings_lines; [reflexivity|].
    repeat constructor. unfold lacks. cbn. intuition discriminate. }
  split; [exact repair_headings_lines|]. split; [exact E|].
  unfold fix_markdown_format. rewrite E.
  apply re_sub_lacks with (d := ch "["); [reflexivity|].
  unfold lacks. cbn. intuition discriminate.
Qed.

Lemma heading_repair_witness :
  Forall (lacks newline) [py "#a"; py "b"] /\
  @repair_headings ascii_unicode (join [newline] [py "#a"; py "b"]) =
  join [newline] (map repair_line [py "#a"; py "b"]).
Proof.
  assert (H : Forall (lacks newline) [py "#a"; py "b"]).
  { repeat constructor; unfold lacks; cbn; intuition discriminate. }
  split; [exact H|].
  exact (proj1 (heading_repair ascii_unicode) [py "#a"; py "b"] H).
Defined.

(** ** Full-width punctuation (claim C10) *)

(** The ASCII form of a full-width parenthesis. *)
Definition ascii_paren (c : char) : char :=
  if c =? fw_rparen then ch ")" else if c =? fw_lparen then ch "(" else c.

(** The repair in the words of the claim: every full-width parenthesis
    becomes the ASCII one, and a full-width exclamation mark in front of a
    [[] becomes the ASCII one. *)
Fixpoint to_ascii_punctuation (s : str) : str :=
  match s with
  | [] => []
  | c :: s' =>
      (if (c =? fw_excl) && startswith s' (py "[") then ch "!" else ascii_paren c)
      :: to_ascii_punctuation s'
  end.

(** The first of the four replacements alone. *)
Fixpoint excl_to_ascii (s : str) : str :=
  match s with
  | [] => []
  | c :: s' =>
      (if (c =? fw_excl) && startswith s' (py "[") then ch "!" else c)
      :: excl_to_ascii s'
  end.

Lemma replace_excl (n : nat) :
  forall s, (length s <= n)%nat ->
  replace_from [fw_excl; ch "["] (py "![") 0 s = excl_to_ascii s.
Proof.
  induction n as [|n IH]; intros s Hn.
  - destruct s; [reflexivity|cbn in Hn; lia].
  - destruct s as [|c s]; [reflexivity|]. cbn [replace_from excl_to_ascii].
    cbn [startswith]. rewrite (N.eqb_sym fw_excl c).
    destruct (c =? fw_excl) eqn:Ec; cbn [andb].
    + destruct s as [|d s]; [reflexivity|].
      change (py "[") with [ch "["]. cbn [startswith].
      rewrite ?startswith_nil, ?andb_true_r. rewrite (N.eqb_sym (ch "[") d).
      destruct (d =? ch "[") eqn:Ed.
      * apply N.eqb_eq in Ed. subst d.
        cbn [length Nat.sub replace_from app py map list_ascii_of_string].
        rewrite IH by (cbn [length] in *; lia). reflexivity.
      * rewrite IH by (cbn [length] in *; lia). reflexivity.
    + rewrite IH by (cbn [length] in *; lia). reflexivity.
Qed.

Lemma flat_map_single (A B : Type) (f : A -> B) (l : list A) :
  flat_map (fun x => [f x]) l = map f l.
Proof. induction l as [|x l IH]; cbn; [reflexivity|now rewrite IH]. Qed.

Lemma fix_fullwidth_punctuation_spec (t : str) :
  fix_fullwidth_punctuation t = to_ascii_punctuation t.
Proof.
  unfold fix_fullwidth_punctuation.
  rewrite (@replace_same _ (py "](")) by discriminate.
  rewrite !replace_char.
  unfold replace at 1. rewrite (@replace_excl (length t)) by lia.
  induction t as [|c t IH]; [reflexivity|].
  cbn [excl_to_ascii to_ascii_punctuation flat_map app]. rewrite <- IH. clear IH.
  destruct ((c =? fw_excl) && startswith t (py "[")) eqn:E.
  - reflexivity.
  - unfold ascii_paren. destruct (c =? fw_rparen) eqn:E1.
    + reflexivity.
    + cbn [flat_map app]. destruct (c =? fw_lparen); reflexivity.
Qed.


Lemma to_ascii_punctuation_lacks (t : str) :
  lacks fw_lparen (to_ascii_punctuation t) /\ lacks fw_rparen (to_ascii_punctuation t).
Proof.
  induction t as [|c t [IH1 IH2]]; [split; intros []|].
  cbn [to_ascii_punctuation]. split; apply lacks_cons; (split; [|assumption]).
  - destruct (_ && _); [discriminate|]. unfold ascii_paren.
    destruct (c =? fw_rparen); [discriminate|].
    destruct (c =? fw_lparen) eqn:E; [discriminate|]. now apply N.eqb_neq.
  - destruct (_ && _); [discriminate|]. unfold ascii_paren.
    destruct (c =? fw_rparen) eqn:E; [discriminate|].
    destruct (c =? fw_lparen); [discriminate|]. now apply N.eqb_neq.
Qed.

Lemma to_ascii_punctuation_head (t : str) :
  startswith (to_ascii_punctuation t) (py "[") = startswith t (py "[").
Proof.
  destruct t as [|c t]; [reflexivity|]. change (py "[") with [ch "["].
  cbn [to_ascii_punctuation startswith]. rewrite ?startswith_nil. f_equal.
  destruct ((c =? fw_excl) && _) eqn:E.
  - apply andb_true_iff in E as [E _]. apply N.eqb_eq in E. now subst c.
  - unfold ascii_paren. destruct (c =? fw_rparen) eqn:E1.
    + apply N.eqb_eq in E1. now subst c.
    + destruct (c =? fw_lparen) eqn:E2; [|reflexivity].
      apply N.eqb_eq in E2. now subst c.
Qed.

Lemma to_ascii_punctuation_no_excl (t : str) :
  contains (to_ascii_punctuation t) [fw_excl; ch "["] = false.
Proof.
  induction t as [|c t IH]; [reflexivity|].
  cbn [to_ascii_punctuation contains]. rewrite IH, orb_false_r.
  rewrite startswith_cons.
  pose proof (to_ascii_punctuation_head t) as Hh. change (py "[") with [ch "["] in *.
  rewrite Hh.
  destruct ((c =? fw_excl) && startswith t [ch "["]) eqn:E; [reflexivity|].
  destruct (fw_excl =? ascii_paren c) eqn:E1; [|reflexivity]. cbn [andb].
  apply N.eqb_eq in E1. unfold ascii_paren in E1.
  destruct (c =? fw_rparen); [discriminate|].
  destruct (c =? fw_lparen); [discriminate|]. subst c.
  rewrite N.eqb_refl in E. exact E.
Qed.

(** ** Plain text: nothing to protect, nothing to restore *)

Lemma fold_left_fixed (A B : Type) (f : A -> B -> A) (l : list B) (a : A) :
  (forall x, In x l -> f a x = a) -> fold_left f l a = a.
Proof.
  induction l as [|x l IH]; intro H; [reflexivity|].
  cbn [fold_left]. rewrite H by now left. apply IH. intros y Hy. apply H. now right.
Qed.


Lemma placeholder_patterns_want_underscore :
  forallb (wants_char (ch "_")) (math_placeholder_patterns ++ pattern_variations) = true.
Proof. reflexivity. Qed.


Section Plain.
Context {U : PyUnicode}.







End Plain.

Lemma lacks_forallb (d : char) (s : str) :
  forallb (fun c => negb (c =? d)) s = true -> lacks d s.
Proof.
  intros H Hin. rewrite forallb_forall in H. apply H in Hin.
  now rewrite N.eqb_refl in Hin.
Qed.






(** ** The numbers of the placeholders (claim C5) *)

Definition math_kinds : list string := ["BLOCK_MATH"; "ALL_MATH"; "COMPLEX_MATH"]%string.

(** The placeholders of the given kinds numbered from [i] on. *)
Fixpoint numbered_from (i : nat) (kinds : list string) : list str :=
  match kinds with
  | [] => []
  | k :: ks => placeholder k i :: numbered_from (S i) ks
  end.

Lemma py_inj (s1 s2 : string) : py s1 = py s2 -> s1 = s2.
Proof.
  unfold py. intro H.
  rewrite <- (string_of_list_ascii_of_string s1), <- (string_of_list_ascii_of_string s2).
  f_equal. revert H. generalize (list_ascii_of_string s1) (list_ascii_of_string s2).
  induction l as [|a l IH]; intros [|b l'] H; cbn in H; try discriminate; [reflexivity|].
  injection H as H1 H2. f_equal; [|now apply IH].
  rewrite <- (ascii_N_embedding a), <- (ascii_N_embedding b). now rewrite H1.
Qed.

Lemma str_of_nat_inj (n m : nat) : str_of_nat n = str_of_nat m -> n = m.
Proof.
  unfold str_of_nat. intro H. apply py_inj in H.
  assert (E : Some (Nat.to_uint n) = Some (Nat.to_uint m))
    by (rewrite <- !NilEmpty.usu; now rewrite H).
  injection E as E. rewrite <- (Unsigned.of_to n), <- (Unsigned.of_to m). now rewrite E.
Qed.

Lemma placeholder_inj (k1 k2 : string) (n m : nat) :
  In k1 math_kinds -> In k2 math_kinds -> placeholder k1 n = placeholder k2 m -> n = m.
Proof.
  unfold math_kinds, placeholder. intros H1 H2 H.
  destruct H1 as [<-|[<-|[<-|[]]]]; destruct H2 as [<-|[<-|[<-|[]]]];
    try (cbn in H; discriminate);
    do 3 apply app_inv_head in H; apply app_inv_tail in H; now apply str_of_nat_inj.
Qed.

Lemma numbered_from_snoc (kinds : list string) (k : string) :
  forall i, numbered_from i (kinds ++ [k]) =
            numbered_from i kinds ++ [placeholder k (i + length kinds)%nat].
Proof.
  induction kinds as [|k' kinds IH]; intro i; cbn [numbered_from app length].
  - now rewrite Nat.add_0_r.
  - rewrite IH. now rewrite Nat.add_succ_r.
Qed.

Lemma numbered_from_in (kinds : list string) (x : str) :
  forall i, In x (numbered_from i kinds) ->
  exists k j, In k kinds /\ (i <= j < i + length kinds)%nat /\ x = placeholder k j.
Proof.
  induction kinds as [|k kinds IH]; intros i H; [destruct H|].
  cbn [numbered_from] in H. destruct H as [<-|H].
  - exists k, i. cbn. repeat split; auto; lia.
  - apply IH in H as [k' [j [H1 [H2 H3]]]]. exists k', j. cbn.
    repeat split; auto; lia.
Qed.

Lemma dict_set_fresh (V : Type) (d : list (str * V)) (k : str) (v : V) :
  ~ In k (map fst d) -> dict_set d k v = d ++ [(k, v)].
Proof.
  induction d as [|[k' v'] d IH]; intro H; [reflexivity|].
  cbn [dict_set]. cbn in H. rewrite str_eqb_neq by tauto.
  cbn [app]. f_equal. apply IH. tauto.
Qed.

(** Assigning to a key keeps the keys in place; a new key goes last. *)
Lemma dict_set_keys (V : Type) (d : list (str * V)) (k : str) (v : V) :
  exists more, map fst (dict_set d k v) = map fst d ++ more.
Proof.
  induction d as [|[k' v'] d [more IH]].
  - now exists [k].
  - cbn [dict_set]. destruct (str_eqb k' k).
    + exists []. cbn. now rewrite app_nil_r.
    + exists more. cbn. now rewrite IH.
Qed.

Lemma fold_left_inv (A B : Type) (P : A -> Prop) (f : A -> B -> A) (l : list B) :
  (forall a x, P a -> P (f a x)) -> forall a, P a -> P (fold_left f l a).
Proof.
  intro H. induction l as [|x l IH]; intros a Ha; [exact Ha|].
  cbn [fold_left]. apply IH. now apply H.
Qed.

(** What the loops of [protect_formulas] keep: the keys of the registry
    are the math placeholders numbered from 0 up to the counter. *)
Definition numbered (st : str * registry * nat) : Prop :=
  exists kinds,
    Forall (fun k => In k math_kinds) kinds /\
    snd st = length kinds /\
    map fst (entries (snd (fst st))) = numbered_from 0 kinds.

Lemma protect_one_numbered (kind : string) (st : str * registry * nat) (formula : str) :
  In kind math_kinds -> numbered st -> numbered (protect_one kind st formula).
Proof.
  intros Hk [kinds [Hall [Hc Hkeys]]]. destruct st as [[text reg] counter].
  cbn [fst snd] in *. exists (kinds ++ [kind]). cbn [protect_one fst snd].
  split; [apply Forall_app; split; [exact Hall|now constructor]|].
  split; [rewrite length_app; cbn; lia|].
  unfold reg_set. cbn [entries]. rewrite dict_set_fresh.
  - rewrite map_app, Hkeys, numbered_from_snoc. cbn. now rewrite Hc.
  - rewrite Hkeys. intro Hin.
    apply numbered_from_in in Hin as [k [j [H1 [H2 H3]]]].
    rewrite Forall_forall in Hall.
    apply placeholder_inj in H3; [lia|exact Hk|now apply Hall].
Qed.

Lemma protect_complex_numbered (st : str * registry * nat) (formula : str) :
  numbered st -> numbered (protect_complex st formula).
Proof.
  intro H. unfold protect_complex. destruct st as [[text reg] counter].
  destruct (existsb _ _); [exact H|].
  apply protect_one_numbered; [|exact H]. cbn. tauto.
Qed.

Lemma protect_formulas_numbered (U : PyUnicode) (t : str) :
  numbered (protect_formulas t empty_registry 0).
Proof.
  unfold protect_formulas.
  apply fold_left_inv.
  { intros a r Ha. apply fold_left_inv; [|exact Ha].
    intros a' x Ha'. now apply protect_complex_numbered. }
  apply fold_left_inv.
  { intros a x Ha. apply protect_one_numbered; [cbn; tauto|exact Ha]. }
  apply fold_left_inv.
  { intros a x Ha. apply protect_one_numbered; [cbn; tauto|exact Ha]. }
  exists []. repeat split. constructor.
Qed.

(** The later loops of [protect_special_elements] leave the keys they find
    where they are. *)
Definition begins_with (keys : list str) (reg : registry) : Prop :=
  exists others, map fst (entries reg) = keys ++ others.

Lemma reg_set_begins_with (keys : list str) (reg : registry) (k v : str) :
  begins_with keys reg -> begins_with keys (reg_set reg k v).
Proof.
  intros [others H]. unfold reg_set, begins_with. cbn [entries].
  destruct (dict_set_keys (entries reg) k v) as [more E].
  exists (others ++ more). rewrite E, H. now rewrite app_assoc.
Qed.

Lemma numbered_from_NoDup (kinds : list string) :
  Forall (fun k => In k math_kinds) kinds -> forall i, NoDup (numbered_from i kinds).
Proof.
  induction 1 as [|k kinds Hk Hall IH]; intro i; cbn [numbered_from]; constructor.
  - intro Hin. apply numbered_from_in in Hin as [k' [j [H1 [H2 H3]]]].
    rewrite Forall_forall in Hall.
    apply placeholder_inj in H3; [lia|exact Hk|now apply Hall].
  - apply IH.
Qed.

Lemma protect_wrapped_begins_with (keys : list str) (kind : string) (opening closing : str)
    (st : str * registry) (ix : nat * str) :
  begins_with keys (snd st) ->
  begins_with keys (snd (protect_wrapped kind opening closing st ix)).
Proof.
  destruct st as [text reg], ix as [i inner]. cbn [protect_wrapped snd].
  apply reg_set_begins_with.
Qed.

Lemma protect_titled_begins_with (keys : list str)
    (st : str * registry * list image_entry) (ix : nat * (str * str)) :
  begins_with keys (snd (fst st)) ->
  begins_with keys (snd (fst (protect_titled st ix))).
Proof.
  destruct st as [[text reg] paths], ix as [i [title url]]. cbn [protect_titled].
  destruct title; [trivial|]. cbn [fst snd]. apply reg_set_begins_with.
Qed.

Lemma protect_untitled_begins_with (keys : list str)
    (st : str * registry * list image_entry) (ix : nat * str) :
  begins_with keys (snd (fst st)) ->
  begins_with keys (snd (fst (protect_untitled st ix))).
Proof.
  destruct st as [[text reg] paths], ix as [i url]. cbn [protect_untitled fst snd].
  apply reg_set_begins_with.
Qed.

Lemma protect_link_begins_with (keys : list str) (st : str * registry)
    (ix : nat * (str * str)) :
  begins_with keys (snd st) -> begins_with keys (snd (protect_link st ix)).
Proof.
  destruct st as [text reg], ix as [i [title url]]. cbn [protect_link].
  destruct (existsb _ _); [trivial|]. cbn [snd]. apply reg_set_begins_with.
Qed.

Lemma protect_special_elements_begins_with (U : PyUnicode) (t : str) :
  begins_with (map fst (entries (snd (fst (protect_formulas t empty_registry 0)))))
              (snd (protect_special_elements t)).
Proof.
  unfold protect_special_elements.
  destruct (protect_formulas t empty_registry 0) as [[t1 r1] c1]. cbn [fst snd].
  set (keys := map fst (entries r1)).
  match goal with
  | |- context [fold_left protect_untitled ?l ?a] =>
      assert (H : begins_with keys (snd (fst (fold_left protect_untitled l a))))
  end.
  { apply fold_left_inv; [intros; now apply protect_untitled_begins_with|].
    apply fold_left_inv; [intros; now apply protect_titled_begins_with|].
    cbn [fst snd].
    do 3 (apply fold_left_inv; [intros; now apply protect_wrapped_begins_with|]).
    exists []. cbn [snd]. now rewrite app_nil_r. }
  match goal with
  | |- context [fold_left protect_untitled ?l ?a] =>
      destruct (fold_left protect_untitled l a) as [[t2 r2] p2]
  end.
  cbn [fst snd] in H.
  apply fold_left_inv; [intros; now apply protect_link_begins_with|].
  exact H.
Qed.

(** C5, amended: the math placeholders of a unit take their numbers from
    the one counter [protect_formulas] threads through its three passes:
    the keys it registers are [__<KIND>_0__], [__<KIND>_1__], ... up to the
    counter it returns, each kind one of BLOCK_MATH, ALL_MATH, COMPLEX_MATH,
    no two of them equal, and they stay the first keys of the registry of
    [protect_special_elements].  The kinds registered afterwards are
    numbered by their own index from 0, not by this counter. *)
Theorem math_placeholders_numbered (U : PyUnicode) (t : str) :
  exists kinds : list string,
    Forall (fun k => In k math_kinds) kinds /\
    snd (protect_formulas t empty_registry 0) = length kinds /\
    map fst (entries (snd (fst (protect_formulas t empty_registry 0))))
      = numbered_from 0 kinds /\
    NoDup (numbered_from 0 kinds) /\
    begins_with (numbered_from 0 kinds) (snd (protect_special_elements t)).
Proof.
  destruct (protect_formulas_numbered U t) as [kinds [H1 [H2 H3]]].
  exists kinds. repeat split; try assumption.
  - now apply numbered_from_NoDup.
  - rewrite <- H3. apply protect_special_elements_begins_with.
Qed.

(** ** The formula normalizer (claim C4) *)




















Section Normalizer.
Context {U : PyUnicode}.



End Normalizer.



(** ** Math placeholders (claims C9 and C2) *)

Lemma uint_digits (d : Decimal.uint) :
  Forall (fun c => ascii_digit c = true) (py (NilEmpty.string_of_uint d)).
Proof. induction d; cbn; constructor; auto. Qed.

(** [f"{n}"] is a string of one ASCII digit or more. *)
Lemma str_of_nat_digits (n : nat) :
  exists d ds, str_of_nat n = d :: ds /\
               Forall (fun c => ascii_digit c = true) (d :: ds).
Proof.
  pose proof (uint_digits (Nat.to_uint n)) as H. unfold str_of_nat in *.
  destruct (Nat.to_uint n) eqn:E;
    try (cbn in *; eexists; eexists; split; [reflexivity|exact H]).
  exfalso. pose proof (Unsigned.of_to n) as O. rewrite E in O. cbn in O. subst n.
  discriminate.
Qed.

Lemma ascii_digit_bounds (c : char) : ascii_digit c = true -> 48 <= c <= 57.
Proof.
  unfold ascii_digit. intro H. apply andb_true_iff in H as [H1 H2].
  apply N.leb_le in H1. apply N.leb_le in H2. lia.
Qed.

Lemma digits_lack (c : char) (ds : str) :
  ascii_digit c = false -> Forall (fun d => ascii_digit d = true) ds -> lacks c ds.
Proof.
  intros Hc H Hin. rewrite Forall_forall in H. apply H in Hin. congruence.
Qed.

Lemma map_ascii_lower_digits (ds : str) :
  Forall (fun d => ascii_digit d = true) ds -> map ascii_lower ds = ds.
Proof.
  induction 1 as [|d ds Hd _ IH]; [reflexivity|]. cbn [map]. rewrite IH. f_equal.
  apply ascii_digit_bounds in Hd. unfold ascii_lower, ascii_upper.
  replace (65 <=? d) with false by (symmetry; apply N.leb_gt; lia). reflexivity.
Qed.


Lemma consumed_eq (st st' : mstate) (w : str) :
  ms_rest st = w ++ ms_rest st' -> consumed st st' = w.
Proof.
  intro H. unfold consumed. rewrite H, length_app.
  replace (length w + length (ms_rest st') - length (ms_rest st'))%nat
    with (length w) by lia.
  rewrite firstn_app, Nat.sub_diag, firstn_all. cbn. apply app_nil_r.
Qed.

Section Placeholders.
Context {U : PyUnicode}.








End Placeholders.







Lemma fold_left_inv_in (A B : Type) (P : A -> Prop) (f : A -> B -> A) (l : list B) :
  (forall a x, In x l -> P a -> P (f a x)) -> forall a, P a -> P (fold_left f l a).
Proof.
  induction l as [|x l IH]; intros H a Ha; [exact Ha|].
  cbn [fold_left]. apply IH.
  - intros a' y Hy. apply H. now right.
  - apply H; [now left|exact Ha].
Qed.



Section RestoreFormulas.
Context {U : PyUnicode}.









End RestoreFormulas.

Section Uncorrupted.
Context {U : PyUnicode}.




End Uncorrupted.



(** ** Corrupted forms of a math placeholder (claim C2) *)





Section Corrupted.
Context {U : PyUnicode}.




End Corrupted.



(** * Further properties *)

(** ** The anatomy of a match *)

(** A pattern without a capturing group. *)
Fixpoint groupless (r : regex) : bool :=
  match r with
  | Grp _ _ => false
  | Seq r1 r2 | Alt r1 r2 => groupless r1 && groupless r2
  | Star _ r1 | Plus _ r1 => groupless r1
  | _ => true
  end.

(** [st'] is [st] with the cursor moved over [w] and the groups as they were. *)
Definition reads (st st' : mstate) (w : str) : Prop :=
  moved st st' w /\ ms_caps st' = ms_caps st.

Section Anatomy.
Context {U : PyUnicode}.

Lemma reads_refl (st : mstate) : reads st st [].
Proof. split; [apply moved_refl|reflexivity]. Qed.

Lemma reads_trans (a b c : mstate) (w1 w2 : str) :
  reads a b w1 -> reads b c w2 -> reads a c (w1 ++ w2).
Proof.
  intros [M1 C1] [M2 C2]. split; [now apply moved_trans with b|congruence].
Qed.

Lemma rep_loop_reads (body : mstate -> list mstate) (g : bool) (fuel : nat) :
  (forall a b, In b (body a) -> exists w, reads a b w) ->
  forall st st', In st' (rep_loop body g fuel st) -> exists w, reads st st' w.
Proof.
  intro Hb. induction fuel as [|f IH]; intros st st' Hin; cbn [rep_loop] in Hin.
  - destruct Hin as [<-|[]]. exists []. apply reads_refl.
  - assert (Hmore : forall x,
               In x (flat_map (fun st1 =>
                       if (length (ms_rest st1) <? length (ms_rest st))%nat
                       then rep_loop body g f st1 else []) (body st)) ->
               exists w, reads st x w).
    { intros x Hx. apply in_flat_map in Hx as [st1 [H1 H2]].
      destruct (length (ms_rest st1) <? length (ms_rest st))%nat; [|destruct H2].
      destruct (Hb _ _ H1) as [w1 R1]. destruct (IH _ _ H2) as [w2 R2].
      exists (w1 ++ w2). now apply reads_trans with st1. }
    destruct g.
    + apply in_app_iff in Hin as [Hin|[<-|[]]]; [now apply Hmore|].
      exists []. apply reads_refl.
    + destruct Hin as [<-|Hin]; [|now apply Hmore].
      exists []. apply reads_refl.
Qed.

(** A pattern without a group moves the cursor and nothing else. *)
Lemma rx_match_reads (r : regex) :
  groupless r = true ->
  forall st st', In st' (rx_match r st) -> exists w, reads st st' w.
Proof.
  induction r as [|cc|r1 IH1 r2 IH2|r1 IH1 r2 IH2|g r1 IH1|g r1 IH1|n r1 IH1|r1 IH1| |];
    intros Hg st st' Hin; cbn [groupless] in Hg.
  - destruct Hin as [<-|[]]. exists []. apply reads_refl.
  - cbn [rx_match] in Hin. destruct st as [caps seen [|c rest]]; cbn [ms_rest] in Hin;
      [destruct Hin|].
    destruct (cc_match cc c); [|destruct Hin]. destruct Hin as [<-|[]].
    exists [c]. split; [split; reflexivity|reflexivity].
  - apply andb_true_iff in Hg as [G1 G2]. rewrite rx_match_seq in Hin.
    apply in_flat_map in Hin as [st1 [H1 H2]].
    destruct (IH1 G1 _ _ H1) as [w1 R1]. destruct (IH2 G2 _ _ H2) as [w2 R2].
    exists (w1 ++ w2). now apply reads_trans with st1.
  - apply andb_true_iff in Hg as [G1 G2]. cbn [rx_match] in Hin.
    apply in_app_iff in Hin as [Hin|Hin]; [now apply IH1|now apply IH2].
  - rewrite rx_match_star in Hin. revert Hin. apply rep_loop_reads.
    intros a b. now apply IH1.
  - rewrite rx_match_plus in Hin. apply in_flat_map in Hin as [st1 [H1 H2]].
    destruct (IH1 Hg _ _ H1) as [w1 R1].
    apply rep_loop_reads in H2 as [w2 R2]; [|intros a b; now apply IH1].
    exists (w1 ++ w2). now apply reads_trans with st1.
  - discriminate.
  - cbn [rx_match] in Hin. destruct (rx_match r1 st); [|destruct Hin].
    destruct Hin as [<-|[]]. exists []. apply reads_refl.
  - cbn [rx_match] in Hin. destruct (ms_seen st) as [|c ?].
    + destruct Hin as [<-|[]]. exists []. apply reads_refl.
    + destruct (c =? newline); [|destruct Hin].
      destruct Hin as [<-|[]]. exists []. apply reads_refl.
  - cbn [rx_match] in Hin. destruct (ms_rest st) as [|c ?].
    + destruct Hin as [<-|[]]. exists []. apply reads_refl.
    + destruct (c =? newline); [|destruct Hin].
      destruct Hin as [<-|[]]. exists []. apply reads_refl.
Qed.

(** A literal reads itself. *)
Lemma rx_match_lit_reads (w : str) :
  forall st st', In st' (rx_match (lit_str w) st) -> reads st st' w.
Proof.
  induction w as [|c w IH]; intros st st' Hin.
  - destruct Hin as [<-|[]]. apply reads_refl.
  - change (lit_str (c :: w)) with (Seq (Chr (CLit c)) (lit_str w)) in Hin.
    rewrite rx_match_seq in Hin. apply in_flat_map in Hin as [st1 [H1 H2]].
    cbn [rx_match] in H1. destruct st as [caps seen [|d rest]]; cbn [ms_rest] in H1;
      [destruct H1|].
    cbn [cc_match] in H1. destruct (N.eqb_spec c d) as [->|]; [|destruct H1].
    destruct H1 as [<-|[]]. apply IH in H2.
    change (d :: w) with ([d] ++ w).
    apply reads_trans with (MState caps (d :: seen) rest); [|exact H2].
    split; [split; reflexivity|reflexivity].
Qed.

(** A group around a pattern without one records what the pattern read. *)
Lemma rx_match_grp_reads (n : nat) (r : regex) :
  groupless r = true ->
  forall st st', In st' (rx_match (Grp n r) st) ->
  exists w, moved st st' w /\ ms_caps st' = set_cap n w (ms_caps st).
Proof.
  intros Hg st st' Hin. rewrite rx_match_grp in Hin.
  apply in_map_iff in Hin as [st1 [<- H1]].
  destruct (rx_match_reads r Hg _ _ H1) as [w [[M1 M2] C]].
  exists w. cbn [ms_caps]. rewrite (@consumed_eq st st1 w M1), C.
  split; [split; assumption|reflexivity].
Qed.

(** What [first_hit] reports belongs to a way the pattern matches. *)
Lemma first_hit_In (r : regex) (seen rest : str) (adv : bool) (len : nat)
    (caps : list (nat * str)) :
  first_hit r seen rest adv = Some (len, caps) ->
  exists st', In st' (rx_match r (MState [] seen rest)) /\
              len = (length rest - length (ms_rest st'))%nat /\ caps = ms_caps st'.
Proof.
  unfold first_hit.
  destruct (filter _ (rx_match r (MState [] seen rest))) as [|st' l] eqn:E; [discriminate|].
  intro H. injection H as <- <-. exists st'. split; [|split; reflexivity].
  assert (Hin : In st' (st' :: l)) by now left.
  rewrite <- E in Hin. now apply filter_In in Hin.
Qed.

Lemma moved_firstn (st st' : mstate) (w : str) :
  moved st st' w ->
  firstn (length (ms_rest st) - length (ms_rest st')) (ms_rest st) = w.
Proof. intros [M _]. now apply consumed_eq. Qed.

(** A substitution that writes every match back as it stood gives the
    subject back; [Q] is what is known of the subject and of its tails. *)
Lemma stitch_scan_same_on (Q : str -> Prop) (f : rmatch -> str) (r : regex) :
  (forall c rest, Q (c :: rest) -> Q rest) ->
  (forall seen rest adv len caps,
     Q rest -> first_hit r seen rest adv = Some (len, caps) ->
     f (RMatch (firstn len rest) caps) = firstn len rest) ->
  forall rest, Q rest ->
  forall seen pend k,
    stitch f (scan r seen pend k rest) = rev pend ++ skipn k rest.
Proof.
  intros HQ Hf. induction rest as [|c rest IH]; intros Hq seen pend k.
  - destruct k as [|k]; cbn [scan].
    + destruct (first_hit r seen [] false) as [[[|len] caps]|] eqn:E1;
        try destruct (first_hit r seen [] true) as [[[|len'] caps']|] eqn:E2;
        unfold stitch; cbn [fst snd flat_map app skipn];
        rewrite ?app_nil_r; try reflexivity;
        try (apply Hf in E1; [|exact Hq]; rewrite firstn_nil in E1;
             rewrite ?firstn_nil, E1; now rewrite ?app_nil_r).
    + unfold stitch. cbn. now rewrite app_nil_r.
  - specialize (IH (HQ _ _ Hq)). destruct k as [|k]; cbn [scan].
    + destruct (first_hit r seen (c :: rest) false) as [[[|len] caps]|] eqn:E1.
      * apply Hf in E1; [|exact Hq].
        destruct (first_hit r seen (c :: rest) true) as [[[|len'] caps']|] eqn:E2.
        -- rewrite stitch_cons, E1, IH. reflexivity.
        -- apply Hf in E2; [|exact Hq].
           rewrite stitch_cons2, E1, E2, IH. cbn [rev app firstn skipn].
           now rewrite firstn_skipn.
        -- rewrite stitch_cons, E1, IH. reflexivity.
      * apply Hf in E1; [|exact Hq]. rewrite stitch_cons, E1, IH.
        cbn [rev app firstn skipn]. now rewrite firstn_skipn.
      * rewrite IH. cbn [rev skipn]. now rewrite <- app_assoc.
    + rewrite IH. reflexivity.
Qed.

Lemma re_sub_same_on (Q : str -> Prop) (f : rmatch -> str) (r : regex) (s : str) :
  (forall c rest, Q (c :: rest) -> Q rest) ->
  (forall seen rest adv len caps,
     Q rest -> first_hit r seen rest adv = Some (len, caps) ->
     f (RMatch (firstn len rest) caps) = firstn len rest) ->
  Q s -> re_sub r f s = s.
Proof.
  intros HQ Hf Hs. rewrite re_sub_stitch.
  now rewrite (@stitch_scan_same_on Q f r HQ Hf s Hs).
Qed.

Lemma re_sub_same (f : rmatch -> str) (r : regex) (s : str) :
  (forall seen rest adv len caps,
     first_hit r seen rest adv = Some (len, caps) ->
     f (RMatch (firstn len rest) caps) = firstn len rest) ->
  re_sub r f s = s.
Proof.
  intro Hf. apply re_sub_same_on with (Q := fun _ => True); [trivial| |exact I].
  intros seen rest adv len caps _. apply Hf.
Qed.

(** The parts of a match of [!\[(.*?)\]\((.*?)\)]. *)
Lemma image_pattern_hit (seen rest : str) (adv : bool) (len : nat)
    (caps : list (nat * str)) :
  first_hit image_pattern seen rest adv = Some (len, caps) ->
  exists alt_text url,
    firstn len rest = image_text alt_text url /\
    caps = [(2%nat, url); (1%nat, alt_text)].
Proof.
  intro H. apply first_hit_In in H as [st' [Hin [-> ->]]].
  unfold image_pattern in Hin. cbn [seqs] in Hin.
  rewrite rx_match_seq in Hin. apply in_flat_map in Hin as [s1 [H1 Hin]].
  rewrite rx_match_seq in Hin. apply in_flat_map in Hin as [s2 [H2 Hin]].
  rewrite rx_match_seq in Hin. apply in_flat_map in Hin as [s3 [H3 Hin]].
  rewrite rx_match_seq in Hin. apply in_flat_map in Hin as [s4 [H4 H5]].
  apply (rx_match_lit_reads (py "![")) in H1 as [M1 C1].
  apply rx_match_grp_reads in H2 as [g1 [M2 C2]]; [|reflexivity].
  apply (rx_match_lit_reads (py "](")) in H3 as [M3 C3].
  apply rx_match_grp_reads in H4 as [g2 [M4 C4]]; [|reflexivity].
  apply (rx_match_lit_reads (py ")")) in H5 as [M5 C5].
  exists g1, g2. split.
  - pose proof (moved_trans M1 (moved_trans M2 (moved_trans M3 (moved_trans M4 M5)))) as M.
    apply moved_firstn in M. cbn [ms_rest] in M. rewrite M. unfold image_text.
    reflexivity.
  - rewrite C5, C4, C3, C2, C1. reflexivity.
Qed.

End Anatomy.

(** ** Lines *)

Lemma split_on_nonempty (c : char) (s : str) : split_on c s <> [].
Proof.
  destruct s as [|d s]; cbn [split_on]; [discriminate|].
  destruct (d =? c); [discriminate|]. now destruct (split_on c s).
Qed.

Lemma join_cons_cons (sep p : str) (q : str) (ps : list str) :
  join sep (p :: q :: ps) = p ++ sep ++ join sep (q :: ps).
Proof. reflexivity. Qed.

(** [c.join(s.split(c)) == s] *)
Lemma join_split_on (c : char) (s : str) : join [c] (split_on c s) = s.
Proof.
  induction s as [|d s IH]; [reflexivity|]. cbn [split_on].
  destruct (N.eqb_spec d c) as [->|Hd].
  - pose proof (split_on_nonempty c s) as Hne.
    destruct (split_on c s) as [|w ws]; [contradiction|].
    rewrite join_cons_cons, IH. reflexivity.
  - destruct (split_on c s) as [|w ws] eqn:E; [now destruct (split_on_nonempty c s)|].
    rewrite <- IH. destruct ws; reflexivity.
Qed.

Lemma split_on_lacks (c : char) (s : str) : Forall (lacks c) (split_on c s).
Proof.
  induction s as [|d s IH]; cbn [split_on].
  - constructor; [intros []|constructor].
  - destruct (N.eqb_spec d c) as [->|Hd].
    + constructor; [intros []|exact IH].
    + destruct (split_on c s) as [|w ws]; [constructor; [|constructor]|].
      * intros [H|[]]. congruence.
      * inversion IH as [|? ? Hw Hws]; subst. constructor; [|exact Hws].
        apply lacks_cons. now split.
Qed.

Lemma hash_run_repeat (k : nat) (x : str) :
  hash_run (repeat (ch "#") k ++ ch " " :: x) = k.
Proof.
  induction k as [|k IH]; [reflexivity|]. cbn [repeat app hash_run].
  change (is_hash (ch "#")) with true. cbn iota. now rewrite IH.
Qed.

Lemma skipn_repeat_app (c : char) (k : nat) (x : str) : skipn k (repeat c k ++ x) = x.
Proof. induction k as [|k IH]; [reflexivity|exact IH]. Qed.

(** A repaired heading line begins with its marks and a space. *)
Lemma repair_line_shape (l : str) (n : nat) :
  hash_run l = S n -> exists x, repair_line l = repeat (ch "#") (S n) ++ ch " " :: x.
Proof.
  intro H. unfold repair_line. rewrite H.
  destruct (startswith (skipn (S n) l) (py " ")) eqn:E.
  - apply startswith_split in E. rewrite E. now exists (skipn (length (py " ")) (skipn (S n) l)).
  - now exists (skipn (S n) l).
Qed.

Lemma repair_line_idempotent (l : str) : repair_line (repair_line l) = repair_line l.
Proof.
  destruct (hash_run l) as [|n] eqn:H.
  - unfold repair_line at 2. rewrite H. unfold repair_line. now rewrite H.
  - destruct (repair_line_shape l H) as [x ->].
    unfold repair_line. rewrite hash_run_repeat, skipn_repeat_app. reflexivity.
Qed.

Lemma repair_line_lacks (l : str) :
  lacks newline l -> lacks newline (repair_line l).
Proof.
  intro Hl. unfold repair_line. destruct (hash_run l) as [|n]; [exact Hl|].
  assert (Hs : lacks newline (skipn (S n) l)).
  { rewrite <- (firstn_skipn (S n) l) in Hl. apply lacks_app in Hl. tauto. }
  apply lacks_app. split.
  - intro Hin. apply repeat_spec in Hin. discriminate.
  - destruct (startswith (skipn (S n) l) (py " ")); [exact Hs|].
    apply lacks_app. split; [|exact Hs]. intros [H|[]]. discriminate.
Qed.

Section FormatRepair.
Context {U : PyUnicode}.

(** [fix_image_link] writes the image it was given. *)
Lemma fix_image_link_same (t : str) : re_sub image_pattern fix_image_link t = t.
Proof.
  apply re_sub_same. intros seen rest adv len caps H.
  apply image_pattern_hit in H as [alt_text [url [-> ->]]].
  unfold fix_image_link, group. cbn [m_caps find fst snd Nat.eqb].
  now destruct alt_text, url.
Qed.

Lemma repair_headings_split (t : str) :
  repair_headings t = join [newline] (map repair_line (split_on newline t)).
Proof.
  rewrite <- (join_split_on newline t) at 1.
  apply repair_headings_lines, split_on_lacks.
Qed.

Lemma repair_headings_idempotent (t : str) :
  repair_headings (repair_headings t) = repair_headings t.
Proof.
  rewrite (repair_headings_split t).
  rewrite repair_headings_lines.
  - rewrite map_map. f_equal. apply map_ext. intro l. apply repair_line_idempotent.
  - apply Forall_map. eapply Forall_impl; [|apply split_on_lacks].
    intros l. apply repair_line_lacks.
Qed.


Lemma fix_markdown_format_no_registry (t : str) :
  fix_markdown_format t None = repair_headings t.
Proof. unfold fix_markdown_format. apply fix_image_link_same. Qed.

Lemma fix_markdown_format_no_list (t : str) (e : list (str * str)) :
  fix_markdown_format t (Some (Registry e None)) = repair_headings t.
Proof. unfold fix_markdown_format. apply fix_image_link_same. Qed.


End FormatRepair.


(** X2 (the heading repair of [restore_special_elements], lines 588 to 603,
    and of [fix_markdown_format], lines 619 to 635): repairing the headings
    of a text twice gives what repairing them once gives, for every text;
    so does [fix_markdown_format] without an image list. *)
Theorem heading_repair_idempotent (U : PyUnicode) (t : str) :
  repair_headings (repair_headings t) = repair_headings t /\
  fix_markdown_format (fix_markdown_format t None) None = fix_markdown_format t None.
Proof.
  rewrite !fix_markdown_format_no_registry.
  split; apply repair_headings_idempotent.
Qed.

(** ** The cache as a map *)

Lemma dict_get_set_other (V : Type) (d : list (str * V)) (k k' : str) (v : V) :
  k <> k' -> dict_get (dict_set d k v) k' = dict_get d k'.
Proof.
  intro Hk. induction d as [|[k0 v0] d IH]; cbn [dict_set dict_get].
  - now rewrite str_eqb_neq.
  - destruct (str_eqb k0 k) eqn:E; cbn [dict_get].
    + apply str_eqb_eq in E. subst k0. now rewrite !str_eqb_neq by assumption.
    + destruct (str_eqb k0 k'); [reflexivity|exact IH].
Qed.

Lemma dict_set_set (V : Type) (d : list (str * V)) (k : str) (v1 v2 : V) :
  dict_set (dict_set d k v1) k v2 = dict_set d k v2.
Proof.
  induction d as [|[k0 v0] d IH]; cbn [dict_set].
  - now rewrite str_eqb_refl.
  - destruct (str_eqb k0 k) eqn:E; cbn [dict_set]; rewrite E; [reflexivity|].
    now rewrite IH.
Qed.

(** X3 ([TranslationCache.get], [set] and [clear], lines 281 to 306):
    storing under one key leaves what [get] answers for every other key as
    it was; storing twice under a key is storing the second value once, so
    no key is held twice; and after [clear] every key gives the default. *)
Theorem cache_set_keeps_other_keys (c : TranslationCache) (k k' v : str)
    (default : option str) :
  k <> k' ->
  TranslationCacheOps.get (TranslationCacheOps.set c k v) k' default
    = TranslationCacheOps.get c k' default /\
  (forall v', TranslationCacheOps.set (TranslationCacheOps.set c k v) k v'
              = TranslationCacheOps.set c k v') /\
  TranslationCacheOps.get (TranslationCacheOps.clear (TranslationCacheOps.set c k v))
                          k default = default.
Proof.
  intro Hk. unfold TranslationCacheOps.get, TranslationCacheOps.set,
    TranslationCacheOps.clear. cbn [cache cache_file dict_get].
  rewrite dict_get_set_other by assumption.
  split; [reflexivity|]. split; [|reflexivity].
  intro v'. now rewrite dict_set_set.
Qed.

Lemma cache_set_keeps_other_keys_witness :
  TranslationCacheOps.get
    (TranslationCacheOps.set (Cache [(py "b", py "old")] None) (py "a") (py "new"))
    (py "b") None
  = Some (py "old").
Proof.
  destruct (@cache_set_keeps_other_keys (Cache [(py "b", py "old")] None)
              (py "a") (py "b") (py "new") None) as [H _]; [discriminate|].
  rewrite H. reflexivity.
Defined.

(** ** The registry that protection builds *)

Definition placeholder_kinds : list string :=
  math_kinds ++ ["CODE_BLOCK"; "INLINE_CODE"; "HTML_TAG";
                 "IMAGE_LINK_TITLED"; "IMAGE_LINK"; "LINK"]%string.

Definition is_placeholder (k : str) : Prop :=
  exists kind i, In kind placeholder_kinds /\ k = placeholder kind i.

Definition well_keyed (reg : registry) : Prop :=
  Forall (fun kv => is_placeholder (fst kv)) (entries reg).

(** An entry of the image list is well formed when a titled image has a
    title and a placeholder of the titled kind, and an untitled one has
    neither; [bt] and [bu] bound the numbers of the two kinds. *)
Definition placed (bt bu : nat -> Prop) (e : image_entry) : Prop :=
  let '(has_title, title, _, ph) := e in
  if has_title
  then title <> [] /\ exists i, bt i /\ ph = placeholder "IMAGE_LINK_TITLED" i
  else title = [] /\ exists i, bu i /\ ph = placeholder "IMAGE_LINK" i.

(** The image list agrees with the registry: the placeholder of each entry
    is a key, and stands for the image the entry describes. *)
Definition image_inv (bt bu : nat -> Prop) (reg : registry) (l : list image_entry) : Prop :=
  Forall (fun e => placed bt bu e /\
                   dict_get (entries reg) (snd e) = Some (entry_image e)) l.

Lemma dict_set_Forall_key (V : Type) (P : str * V -> Prop) (d : list (str * V))
    (k : str) (v : V) :
  Forall P d -> P (k, v) -> Forall P (dict_set d k v).
Proof.
  intros Hd Hp. induction Hd as [|[k0 v0] d H0 Hd IH]; cbn [dict_set].
  - now constructor.
  - destruct (str_eqb k0 k) eqn:E.
    + apply str_eqb_eq in E. subst k0. now constructor.
    + now constructor.
Qed.

Lemma reg_set_well_keyed (reg : registry) (k v : str) :
  well_keyed reg -> is_placeholder k -> well_keyed (reg_set reg k v).
Proof. intros H Hk. unfold well_keyed, reg_set. cbn [entries]. now apply dict_set_Forall_key. Qed.

Lemma is_placeholder_kind (kind : string) (i : nat) :
  In kind placeholder_kinds -> is_placeholder (placeholder kind i).
Proof. intro H. now exists kind, i. Qed.

Lemma placeholder_same_kind_inj (kind : string) (n m : nat) :
  placeholder kind n = placeholder kind m -> n = m.
Proof.
  unfold placeholder. intro H. do 3 apply app_inv_head in H.
  apply app_inv_tail in H. now apply str_of_nat_inj.
Qed.

Lemma titled_untitled_differ (i j : nat) :
  placeholder "IMAGE_LINK_TITLED" i <> placeholder "IMAGE_LINK" j.
Proof.
  change (placeholder "IMAGE_LINK_TITLED" i)
    with (py "__IMAGE_LINK_" ++ py "TITLED_" ++ str_of_nat i ++ py "__").
  change (placeholder "IMAGE_LINK" j) with (py "__IMAGE_LINK_" ++ str_of_nat j ++ py "__").
  intro H. apply app_inv_head in H.
  destruct (str_of_nat_digits j) as [d [ds [E Hd]]]. rewrite E in H.
  cbn in H. injection H as H _. subst d.
  inversion Hd as [|? ? H1 _]; subst. discriminate.
Qed.

Lemma link_image_differ (e : image_entry) (bt bu : nat -> Prop) (i : nat) :
  placed bt bu e -> placeholder "LINK" i <> snd e.
Proof.
  destruct e as [[[h title] url] ph]. cbn [placed snd].
  destruct h; intros [_ [j [_ ->]]]; intro H; cbn in H; discriminate.
Qed.

Lemma placed_weaken (bt bu bt' bu' : nat -> Prop) (e : image_entry) :
  (forall i, bt i -> bt' i) -> (forall i, bu i -> bu' i) ->
  placed bt bu e -> placed bt' bu' e.
Proof.
  intros Ht Hu. destruct e as [[[h title] url] ph]. cbn [placed].
  destruct h; intros [H1 [i [H2 H3]]]; (split; [exact H1|]); exists i; auto.
Qed.

Lemma image_inv_weaken (bt bu bt' bu' : nat -> Prop) (reg : registry)
    (l : list image_entry) :
  (forall i, bt i -> bt' i) -> (forall i, bu i -> bu' i) ->
  image_inv bt bu reg l -> image_inv bt' bu' reg l.
Proof.
  intros Ht Hu H. unfold image_inv in *. eapply Forall_impl; [|exact H].
  intros e [H1 H2]. split; [|exact H2]. now apply placed_weaken with bt bu.
Qed.

Lemma image_inv_entries (bt bu : nat -> Prop) (reg reg' : registry)
    (l : list image_entry) :
  entries reg = entries reg' -> image_inv bt bu reg l -> image_inv bt bu reg' l.
Proof. unfold image_inv. now intros ->. Qed.

(** A new key that is the placeholder of no entry leaves the list in
    agreement. *)
Lemma image_inv_set (bt bu : nat -> Prop) (reg : registry) (l : list image_entry)
    (k v : str) :
  (forall e, In e l -> placed bt bu e -> k <> snd e) ->
  image_inv bt bu reg l -> image_inv bt bu (reg_set reg k v) l.
Proof.
  intros Hk H. unfold image_inv in *. rewrite Forall_forall in *.
  intros e He. destruct (H e He) as [H1 H2]. split; [exact H1|].
  unfold reg_set. cbn [entries]. rewrite dict_get_set_other; [exact H2|].
  now apply Hk.
Qed.

Lemma fold_enumerate_inv (A St : Type) (P : nat -> St -> Prop) (f : St -> nat * A -> St)
    (l : list A) :
  (forall i x s, P i s -> P (S i) (f s (i, x))) ->
  forall s, P O s -> P (length l) (fold_left f (enumerate l) s).
Proof.
  intro Hstep. unfold enumerate.
  assert (G : forall a s, P a s ->
                P (a + length l)%nat (fold_left f (combine (seq a (length l)) l) s)).
  { induction l as [|x l IH]; intros a s Hs; cbn [length seq combine fold_left].
    - now rewrite Nat.add_0_r.
    - rewrite <- Nat.add_succ_comm. apply IH. now apply Hstep. }
  intros s Hs. apply (G O s Hs).
Qed.

Lemma protect_wrapped_well_keyed (kind : string) (opening closing : str)
    (st : str * registry) (ix : nat * str) :
  In kind placeholder_kinds -> well_keyed (snd st) ->
  well_keyed (snd (protect_wrapped kind opening closing st ix)).
Proof.
  intros Hk H. destruct st as [text reg], ix as [i inner]. cbn [protect_wrapped snd].
  apply reg_set_well_keyed; [exact H|now apply is_placeholder_kind].
Qed.

Lemma protect_titled_inv (st : str * registry * list image_entry) (i : nat)
    (x : str * str) :
  well_keyed (snd (fst st)) /\
  image_inv (fun j => (j < i)%nat) (fun _ => False) (snd (fst st)) (snd st) ->
  well_keyed (snd (fst (protect_titled st (i, x)))) /\
  image_inv (fun j => (j < S i)%nat) (fun _ => False)
            (snd (fst (protect_titled st (i, x)))) (snd (protect_titled st (i, x))).
Proof.
  destruct st as [[text reg] l], x as [title url]. cbn [fst snd protect_titled].
  intros [Hw Hi].
  assert (Hi' : image_inv (fun j => (j < S i)%nat) (fun _ => False) reg l)
    by (apply image_inv_weaken with (fun j => (j < i)%nat) (fun _ : nat => False);
        [intros; lia|trivial|exact Hi]).
  destruct title as [|c title]; [now split|]. cbn [fst snd]. split.
  - apply reg_set_well_keyed; [exact Hw|]. apply is_placeholder_kind. cbn. tauto.
  - apply Forall_app. split.
    + apply image_inv_set; [|exact Hi']. intros e He _.
      unfold image_inv in Hi. rewrite Forall_forall in Hi.
      destruct (Hi e He) as [Hp _]. destruct e as [[[h t] u] ph]. cbn [placed snd] in *.
      destruct h; destruct Hp as [_ [j [Hj ->]]]; [|contradiction].
      intro H. apply placeholder_same_kind_inj in H. lia.
    + constructor; [|constructor]. split.
      * cbn [placed]. split; [discriminate|]. exists i. split; [lia|reflexivity].
      * unfold reg_set. cbn [entries snd entry_image]. apply dict_get_set_same.
Qed.

Lemma protect_untitled_inv (st : str * registry * list image_entry) (i : nat) (url : str) :
  well_keyed (snd (fst st)) /\
  image_inv (fun _ => True) (fun j => (j < i)%nat) (snd (fst st)) (snd st) ->
  well_keyed (snd (fst (protect_untitled st (i, url)))) /\
  image_inv (fun _ => True) (fun j => (j < S i)%nat)
            (snd (fst (protect_untitled st (i, url)))) (snd (protect_untitled st (i, url))).
Proof.
  destruct st as [[text reg] l]. cbn [fst snd protect_untitled].
  intros [Hw Hi]. split.
  - apply reg_set_well_keyed; [exact Hw|]. apply is_placeholder_kind. cbn. tauto.
  - apply Forall_app. split.
    + apply image_inv_set.
      * intros e He _. unfold image_inv in Hi. rewrite Forall_forall in Hi.
        destruct (Hi e He) as [Hp _]. destruct e as [[[h t] u] ph]. cbn [placed snd] in *.
        destruct h; destruct Hp as [_ [j [Hj ->]]].
        -- intro H. symmetry in H. now apply titled_untitled_differ in H.
        -- intro H. apply placeholder_same_kind_inj in H. lia.
      * apply image_inv_weaken with (fun _ : nat => True) (fun j => (j < i)%nat);
          [trivial|intros; lia|exact Hi].
    + constructor; [|constructor]. split.
      * cbn [placed]. split; [reflexivity|]. exists i. split; [lia|reflexivity].
      * unfold reg_set. cbn [entries snd entry_image]. apply dict_get_set_same.
Qed.

Lemma protect_link_inv (l : list image_entry) (st : str * registry)
    (ix : nat * (str * str)) :
  well_keyed (snd st) /\ image_paths (snd st) = Some l /\
  image_inv (fun _ => True) (fun _ => True) (snd st) l ->
  well_keyed (snd (protect_link st ix)) /\ image_paths (snd (protect_link st ix)) = Some l /\
  image_inv (fun _ => True) (fun _ => True) (snd (protect_link st ix)) l.
Proof.
  destruct st as [text reg], ix as [i [title url]]. cbn [protect_link snd].
  intros [Hw [Hp Hi]]. destruct (existsb _ _); [now repeat split|]. cbn [snd].
  split; [|split].
  - apply reg_set_well_keyed; [exact Hw|]. apply is_placeholder_kind. cbn. tauto.
  - exact Hp.
  - apply image_inv_set; [|exact Hi]. intros e _ He. eapply link_image_differ. exact He.
Qed.

Section Protection.
Context {U : PyUnicode}.

Lemma protect_formulas_well_keyed (t : str) :
  well_keyed (snd (fst (protect_formulas t empty_registry 0))).
Proof.
  destruct (protect_formulas_numbered U t) as [kinds [Hall [_ Hkeys]]].
  unfold well_keyed. apply Forall_map with (f := fst) (P := is_placeholder).
  rewrite Hkeys. apply Forall_forall. intros k Hk.
  apply numbered_from_in in Hk as [kind [j [H1 [_ ->]]]].
  rewrite Forall_forall in Hall. apply is_placeholder_kind.
  unfold placeholder_kinds. apply in_or_app. left. now apply Hall.
Qed.

(** What [protect_special_elements] returns: a registry of placeholders and
    an image list that agrees with it. *)
Lemma protect_special_elements_inv (t : str) :
  well_keyed (snd (protect_special_elements t)) /\
  exists l, image_paths (snd (protect_special_elements t)) = Some l /\
            image_inv (fun _ => True) (fun _ => True) (snd (protect_special_elements t)) l.
Proof.
  pose proof (protect_formulas_well_keyed t) as H0.
  unfold protect_special_elements.
  destruct (protect_formulas t empty_registry 0) as [[t1 r1] c1]. cbn [fst snd] in *.
  set (s1 := fold_left (protect_wrapped "CODE_BLOCK" _ _) _ (t1, r1)).
  set (s2 := fold_left (protect_wrapped "INLINE_CODE" _ _) _ s1).
  set (s3 := fold_left (protect_wrapped "HTML_TAG" _ _) _ s2).
  assert (H3 : well_keyed (snd s3)).
  { unfold s3, s2, s1.
    do 3 (apply fold_left_inv;
          [intros; apply protect_wrapped_well_keyed; [cbn; tauto|assumption]|]).
    exact H0. }
  set (ti := findall2 titled_image_pattern (fst s3)).
  set (un := findall1 untitled_image_pattern (fst s3)).
  set (s4 := fold_left protect_titled (enumerate ti) (s3, [])).
  assert (H4 : well_keyed (snd (fst s4)) /\
               image_inv (fun j => (j < length ti)%nat) (fun _ => False)
                         (snd (fst s4)) (snd s4)).
  { unfold s4.
    apply (@fold_enumerate_inv _ _
             (fun i st => well_keyed (snd (fst st)) /\
                          image_inv (fun j => (j < i)%nat) (fun _ => False)
                                    (snd (fst st)) (snd st))).
    - intros i x s Hs. now apply protect_titled_inv.
    - cbn [fst snd]. split; [exact H3|constructor]. }
  set (s5 := fold_left protect_untitled (enumerate un) s4).
  assert (H5 : well_keyed (snd (fst s5)) /\
               image_inv (fun _ => True) (fun j => (j < length un)%nat)
                         (snd (fst s5)) (snd s5)).
  { unfold s5.
    apply (@fold_enumerate_inv _ _
             (fun i st => well_keyed (snd (fst st)) /\
                          image_inv (fun _ => True) (fun j => (j < i)%nat)
                                    (snd (fst st)) (snd st))).
    - intros i x s Hs. now apply protect_untitled_inv.
    - destruct H4 as [H4 H4']. split; [exact H4|]. revert H4'.
      apply image_inv_weaken; [trivial|contradiction]. }
  clearbody s5. destruct s5 as [[t2 r2] l]. cbn [fst snd] in H5. destruct H5 as [Hw Hi].
  assert (G : forall st : str * registry,
            (well_keyed (snd st) /\ image_paths (snd st) = Some l /\
             image_inv (fun _ => True) (fun _ => True) (snd st) l) ->
            well_keyed (snd st) /\
            exists l', image_paths (snd st) = Some l' /\
                       image_inv (fun _ => True) (fun _ => True) (snd st) l').
  { intros st [G1 [G2 G3]]. split; [exact G1|]. exists l. split; assumption. }
  apply G. apply fold_left_inv.
  - intros a x Ha. now apply protect_link_inv.
  - cbn [snd image_paths]. split; [exact Hw|]. split; [reflexivity|].
    apply image_inv_entries with r2; [reflexivity|]. revert Hi.
    apply image_inv_weaken; trivial.
Qed.

End Protection.

(** X4 ([protect_special_elements], lines 309 to 394): every key of the
    registry is a placeholder [__KIND_n__] of one of the nine kinds; the
    image list is always there, each of its entries is a titled image with
    a title and a placeholder of the titled kind or an untitled one with
    neither, and the list agrees with the registry: the placeholder of an
    entry is a key, and what it stands for is the image the entry gives. *)
Theorem protect_registry_and_image_list_agree (U : PyUnicode) (t : str) :
  Forall (fun kv => exists kind i, In kind placeholder_kinds /\
                                   fst kv = placeholder kind i)
         (entries (snd (protect_special_elements t))) /\
  exists l, image_paths (snd (protect_special_elements t)) = Some l /\
            Forall (fun e => placed (fun _ => True) (fun _ => True) e /\
                             dict_get (entries (snd (protect_special_elements t))) (snd e)
                             = Some (entry_image e)) l.
Proof. exact (protect_special_elements_inv t). Qed.

(** ** Recovery never fails on what protection built *)

Lemma split_on_closed (c : char) (s : str) :
  exists x init, split_on c (s ++ [c; c]) = (x :: init) ++ [[]; []].
Proof.
  induction s as [|d s [x [init IH]]].
  - exists [], []. cbn [app split_on]. now rewrite !N.eqb_refl.
  - cbn [app split_on]. rewrite IH. destruct (d =? c).
    + now exists [], (x :: init).
    + now exists (d :: x), init.
Qed.

(** [placeholder.split('_')[-2]] of a text that ends in two underscores is
    the empty string. *)
Lemma second_last_closed (s : str) :
  second_last (split_on (ch "_") (s ++ py "__")) = Some [].
Proof.
  destruct (split_on_closed (ch "_") s) as [x [init E]].
  change (py "__") with [ch "_"; ch "_"]. rewrite E.
  unfold second_last. now rewrite rev_app_distr.
Qed.

Lemma placeholder_closed (kind : string) (i : nat) :
  exists s, placeholder kind i = s ++ py "__".
Proof.
  exists (py "__" ++ py kind ++ py "_" ++ str_of_nat i).
  unfold placeholder. now rewrite <- !app_assoc.
Qed.



Section NeverFails.
Context {U : PyUnicode}.






End NeverFails.


(** ** The keys of an image *)

Definition solid (c : char) : bool := (c <? 128) && negb (ascii_space c).

Definition solid_head (s : str) : bool :=
  match s with c :: _ => solid c | [] => true end.

Section ImageKeys.
Context {U : PyUnicode}.

Lemma lstrip_solid (s : str) : solid_head s = true -> lstrip s = s.
Proof.
  destruct s as [|c s]; [reflexivity|]. cbn [solid_head lstrip]. unfold solid.
  intro H. apply andb_true_iff in H as [H1 H2]. apply N.ltb_lt in H1.
  rewrite is_space_ascii by assumption. now destruct (ascii_space c).
Qed.

Lemma strip_solid (s : str) :
  solid_head s = true -> solid_head (rev s) = true -> strip s = s.
Proof.
  intros H1 H2. unfold strip. rewrite (lstrip_solid s H1), (lstrip_solid (rev s) H2).
  apply rev_involutive.
Qed.

Lemma strip_trailing_space (s : str) :
  s <> [] -> solid_head s = true -> solid_head (rev s) = true ->
  strip (s ++ py " ") = s.
Proof.
  intros Hne H1 H2. unfold strip.
  rewrite (lstrip_solid (s ++ py " ")) by (destruct s; [contradiction|exact H1]).
  rewrite rev_app_distr. change (rev (py " ")) with [32]. cbn [app lstrip].
  rewrite is_space_ascii by reflexivity.
  change (ascii_space 32) with true. cbn iota.
  rewrite (lstrip_solid (rev s) H2). apply rev_involutive.
Qed.

Lemma image_keys_closed (has_title : bool) (s : str) :
  image_keys has_title (s ++ py "__") =
  Some (if has_title
        then [ s ++ py "__"; str_lower (s ++ py "__");
               replace (s ++ py "__") (py "__") (py "_");
               replace (s ++ py "__") (py "__") (py "_ ");
               py "image_link_titled_"; py "IMAGE_LINK_TITLED_";
               py "image_link_titled_"; py "image link titled"; py "imagelinktitled" ]
        else [ s ++ py "__"; str_lower (s ++ py "__");
               replace (s ++ py "__") (py "__") (py "_");
               replace (s ++ py "__") (py "__") (py "_ ");
               py "image_link_"; py "IMAGE_LINK_";
               py "image_link_"; py "image link"; py "imagelink" ]).
Proof.
  unfold image_keys. rewrite second_last_closed. rewrite !app_nil_r.
  change (py "image link titled ") with (py "image link titled" ++ py " ").
  change (py "image link ") with (py "image link" ++ py " ").
  rewrite !strip_trailing_space by (reflexivity || discriminate).
  rewrite !strip_solid by reflexivity.
  reflexivity.
Qed.

End ImageKeys.

(** X6 ([restore_special_elements], lines 514 to 539): for an image
    placeholder that ends in two underscores, as every placeholder of
    [protect_special_elements] does, the number that the last five keys of
    [image_placeholder_map] are meant to carry is the empty string: those
    keys are [image_link_], [IMAGE_LINK_], [image_link_], [image link] and
    [imagelink] (with [titled] for a titled image), the same for every
    image of the unit. *)
Theorem image_keys_carry_no_number (U : PyUnicode) (has_title : bool) (kind : string)
    (i : nat) :
  second_last (split_on (ch "_") (placeholder kind i)) = Some [] /\
  exists first_four,
    length first_four = 4%nat /\
    image_keys has_title (placeholder kind i) =
    Some (first_four ++
          if has_title
          then [ py "image_link_titled_"; py "IMAGE_LINK_TITLED_";
                 py "image_link_titled_"; py "image link titled"; py "imagelinktitled" ]
          else [ py "image_link_"; py "IMAGE_LINK_";
                 py "image_link_"; py "image link"; py "imagelink" ]).
Proof.
  destruct (placeholder_closed kind i) as [s ->].
  split; [apply second_last_closed|].
  rewrite image_keys_closed.
  exists [ s ++ py "__"; str_lower (s ++ py "__");
           replace (s ++ py "__") (py "__") (py "_");
           replace (s ++ py "__") (py "__") (py "_ ") ].
  split; [reflexivity|]. now destruct has_title.
Qed.

(** ** Text without an underscore *)

Lemma set_all_Forall_key (V : Type) (P : str * V -> Prop) (ks : list str) (v : V) :
  Forall (fun k => P (k, v)) ks -> forall d, Forall P d -> Forall P (set_all d ks v).
Proof.
  unfold set_all. induction 1 as [|k ks Hk Hks IH]; intros d Hd; cbn [fold_left];
    [exact Hd|].
  apply IH. now apply dict_set_Forall_key.
Qed.

Lemma placeholder_kinds_ascii (kind : string) (i : nat) :
  In kind placeholder_kinds -> Forall (fun c => c < 128) (placeholder kind i).
Proof.
  intro Hk.
  assert (Ha : Forall (fun c => c < 128) (py kind)).
  { cbn in Hk. repeat (destruct Hk as [<-|Hk]; [repeat constructor|]). contradiction. }
  destruct (str_of_nat_digits i) as [d [ds [Ed Hd]]].
  unfold placeholder. rewrite Ed. repeat (apply Forall_app; split);
    try assumption; try (repeat constructor; reflexivity).
  eapply Forall_impl; [|exact Hd]. intros a H. apply ascii_digit_bounds in H. lia.
Qed.

Section Spared.
Context {U : PyUnicode}.

Lemma variants_hold_underscore (ph t n : str) :
  Forall (fun c => c < 128) ph -> In (ch "_") ph ->
  Forall (fun k => In (ch "_") k) (variants ph t n).
Proof.
  intros Ha Hin. unfold variants.
  assert (Hlow : In (ch "_") (str_lower ph)).
  { rewrite str_lower_ascii by assumption. apply in_map_iff. exists (ch "_"). now split. }
  repeat apply Forall_cons; try apply Forall_nil; try assumption; try (now left);
    apply in_or_app; right; apply in_or_app; right; apply in_or_app; left; now left.
Qed.

(** Every key of the table of [restore_formulas] holds an underscore. *)
Lemma math_variations_hold_underscore (reg : registry) :
  Forall (fun kv => Forall (fun c => c < 128) (fst kv)) (entries reg) ->
  Forall (fun kv => In (ch "_") (fst kv)) (math_variations reg).
Proof.
  intro Ha. unfold math_variations. rewrite Forall_forall in Ha.
  apply fold_left_inv_in
    with (P := fun map : list (str * str) => Forall (fun kv => In (ch "_") (fst kv)) map);
    [|constructor].
  intros map [ph original] Hin Hmap. specialize (Ha _ Hin). cbn [fst] in Ha.
  destruct (delimited ph) eqn:Ed; cbn [negb]; [|exact Hmap].
  destruct (re_match _ ph) as [m|]; [|exact Hmap].
  destruct (negb (endswith _ _)); [exact Hmap|].
  apply set_all_Forall_key; [|exact Hmap]. cbn [fst].
  apply variants_hold_underscore; [exact Ha|].
  unfold delimited in Ed. apply andb_true_iff in Ed as [Ed _].
  apply startswith_in with (py "__"); [exact Ed|now left].
Qed.

Lemma restore_formulas_spares (text : str) (reg : registry) :
  Forall (fun kv => Forall (fun c => c < 128) (fst kv)) (entries reg) ->
  lacks (ch "_") text -> restore_formulas text reg = text.
Proof.
  intros Ha Hl. unfold restore_formulas.
  rewrite (@fold_left_fixed _ _ _ (math_variations reg)).
  2:{ intros kv Hkv. pose proof (@math_variations_hold_underscore reg Ha) as Hm.
      rewrite Forall_forall in Hm.
      apply replace_lacks with (ch "_"); [now apply Hm|exact Hl]. }
  rewrite (@fold_left_fixed _ _ _ math_placeholder_patterns).
  2:{ intros r Hr. pose proof placeholder_patterns_want_underscore as W.
      rewrite forallb_app in W. apply andb_true_iff in W as [W _].
      rewrite forallb_forall in W.
      now rewrite (@findall_lacks _ (ch "_") r _ (W r Hr) Hl). }
  apply fold_left_fixed. intros [ph original] Hin.
  destruct (delimited ph) eqn:Ed; cbn [negb]; [|reflexivity].
  destruct (negb (mentions_math ph)); [reflexivity|].
  rewrite (@contains_lacks _ ph (ch "_")); [reflexivity| |exact Hl].
  unfold delimited in Ed. apply andb_true_iff in Ed as [Ed _].
  apply startswith_in with (py "__"); [exact Ed|now left].
Qed.

Lemma protect_keys_ascii (t : str) :
  Forall (fun kv => Forall (fun c => c < 128) (fst kv))
         (entries (snd (protect_special_elements t))).
Proof.
  destruct (protect_special_elements_inv t) as [Hw _].
  eapply Forall_impl; [|exact Hw].
  intros [k v] [kind [i [Hk E]]]. cbn [fst] in *. subst k.
  now apply placeholder_kinds_ascii.
Qed.

End Spared.

(** X7 ([LatexFormulaHandler.restore_formulas], lines 161 to 239, on the
    registry of [protect_special_elements]): a text without an underscore
    holds no placeholder in any of the forms [restore_formulas] knows, and
    comes back as it is, whatever the unit was that the registry was built
    from. *)
Theorem restore_formulas_spares_text_without_underscore (U : PyUnicode) (t text : str) :
  lacks (ch "_") text ->
  restore_formulas text (snd (protect_special_elements t)) = text.
Proof. intro H. apply restore_formulas_spares; [apply protect_keys_ascii|exact H]. Qed.

Lemma restore_formulas_spares_witness :
  @restore_formulas ascii_unicode (py "no formula here: {x}")
     (snd (@protect_special_elements ascii_unicode scenario))
  = py "no formula here: {x}".
Proof.
  apply (@restore_formulas_spares_text_without_underscore ascii_unicode).
  apply lacks_forallb. reflexivity.
Defined.

(** ** The loop over the paragraphs *)

(** [f"{paragraph}_{lang_in}_{lang_out}_{service}"] *)
Definition cache_key (rq : request) (paragraph : str) : str :=
  paragraph ++ py "_" ++ lang_in rq ++ py "_" ++ lang_out rq ++ py "_" ++ service rq.

(** What the loop appends for a paragraph it does not send out: the
    paragraph itself when it is blank, the cached text otherwise. *)
Definition from_cache {U : PyUnicode} (rq : request) (c : TranslationCache)
    (paragraph : str) : str :=
  match strip paragraph with
  | [] => paragraph
  | _ :: _ =>
      match TranslationCacheOps.get c (cache_key rq paragraph) None with
      | Some cached => cached
      | None => []
      end
  end.

(** A paragraph the loop does not send out: a blank one, or one whose key
    is in the cache, with a text that is not empty, when the cache is read. *)
Definition served {U : PyUnicode} (rq : request) (c : TranslationCache) (paragraph : str)
  : Prop :=
  strip paragraph = [] \/
  (ignore_cache rq = false /\
   exists x cached,
     TranslationCacheOps.get c (cache_key rq paragraph) None = Some (x :: cached)).

(** Two states of the loop that differ in the cache alone. *)
Definition same_output (a b : option progress) : Prop :=
  match a, b with
  | None, None => True
  | Some p, Some q =>
      translated_paragraphs p = translated_paragraphs q /\
      all_special_elements p = all_special_elements q
  | _, _ => False
  end.




Section Translation.
Context {U : PyUnicode}.

Lemma paragraph_break_miss (seen rest : str) (adv : bool) :
  startswith rest [newline; newline] = false ->
  first_hit paragraph_break seen rest adv = None.
Proof.
  intro H. unfold first_hit, paragraph_break. rewrite rx_match_seq.
  assert (E : flat_map (rx_match (Plus true (Chr (CLit newline))))
                (rx_match (Chr (CLit newline)) (MState [] seen rest)) = []).
  { destruct rest as [|c rest]; [now rewrite rx_match_chr_stops by exact I|].
    rewrite startswith_cons in H.
    destruct (newline =? c) eqn:Ec.
    - rewrite rx_match_chr_cons by exact Ec. cbn [flat_map]. rewrite app_nil_r.
      rewrite rx_match_plus. rewrite rx_match_chr_stops; [reflexivity|].
      destruct rest as [|d rest]; [exact I|]. cbn [stops cc_match].
      rewrite startswith_cons, startswith_nil, andb_true_r in H. exact H.
    - now rewrite rx_match_chr_stops by exact Ec. }
  rewrite E. reflexivity.
Qed.

Lemma scan_no_break (rest : str) :
  contains rest [newline; newline] = false ->
  forall seen pend, scan paragraph_break seen pend 0 rest = ([], rev pend ++ rest).
Proof.
  induction rest as [|c rest IH]; intros H seen pend.
  - cbn [scan]. rewrite paragraph_break_miss by reflexivity. now rewrite app_nil_r.
  - cbn [contains] in H. apply orb_false_iff in H as [H1 H2].
    cbn [scan]. rewrite paragraph_break_miss by exact H1.
    rewrite IH by exact H2. cbn [rev]. now rewrite <- app_assoc.
Qed.

(** A text without two newlines in a row is one paragraph. *)
Lemma re_split_single (t : str) :
  contains t [newline; newline] = false -> re_split paragraph_break t = [t].
Proof. intro H. unfold re_split. now rewrite scan_no_break. Qed.

Lemma translate_paragraph_served (rq : request) (done : list str) (c : TranslationCache)
    (all : registry) (paragraph : str) :
  served rq c paragraph ->
  translate_paragraph rq (Some (Progress done c all)) paragraph =
  Some (Progress (done ++ [from_cache rq c paragraph]) c all).
Proof.
  unfold translate_paragraph, from_cache. intros [Hb|[Hi [x [cached Hc]]]].
  - now rewrite Hb.
  - destruct (strip paragraph); [reflexivity|]. rewrite Hi.
    change (paragraph ++ py "_" ++ lang_in rq ++ py "_" ++ lang_out rq ++ py "_" ++ service rq)
      with (cache_key rq paragraph).
    now rewrite Hc.
Qed.

Lemma fold_served (rq : request) (c : TranslationCache) (all : registry)
    (paragraphs : list str) :
  Forall (served rq c) paragraphs ->
  forall done,
    fold_left (translate_paragraph rq) paragraphs (Some (Progress done c all)) =
    Some (Progress (done ++ map (from_cache rq c) paragraphs) c all).
Proof.
  induction 1 as [|p ps Hp Hps IH]; intro done; cbn [fold_left map].
  - now rewrite app_nil_r.
  - rewrite translate_paragraph_served by exact Hp. rewrite IH.
    now rewrite <- app_assoc.
Qed.

Lemma translate_paragraph_same_output (rq : request) (a b : option progress)
    (paragraph : str) :
  ignore_cache rq = true -> same_output a b ->
  same_output (translate_paragraph rq a paragraph) (translate_paragraph rq b paragraph).
Proof.
  intros Hi H. destruct a as [[d1 c1 a1]|], b as [[d2 c2 a2]|]; cbn in H; try contradiction;
    [|exact I].
  destruct H as [<- <-]. unfold translate_paragraph. rewrite Hi.
  destruct (strip paragraph); [now split|].
  destruct (protect_special_elements paragraph) as [protected_text special_elements].
  destruct (str_eqb (lang_in rq) (lang_out rq)); [now split|].
  destruct (provider rq protected_text); [| |now split];
    (destruct (restore_special_elements _ special_elements); [now split|exact I]).
Qed.

Lemma fold_same_output (rq : request) (paragraphs : list str) :
  ignore_cache rq = true ->
  forall a b, same_output a b ->
    same_output (fold_left (translate_paragraph rq) paragraphs a)
                (fold_left (translate_paragraph rq) paragraphs b).
Proof.
  intro Hi. induction paragraphs as [|p ps IH]; intros a b H; [exact H|].
  cbn [fold_left]. apply IH. now apply translate_paragraph_same_output.
Qed.

End Translation.

(** X8 ([translate_markdown], lines 741 to 755 and 972 to 1013): when every
    paragraph of the document is blank or has its key in the cache with a
    text that is not empty, and the cache is read, the document is put
    together from the cache: each such paragraph is replaced by its cached
    text, the paragraphs are joined by blank lines and the headings are
    repaired; the provider is not asked, nothing is protected and the cache
    stays as it was. *)
Theorem cached_document_is_served_from_cache (U : PyUnicode) (markdown_text : str)
    (rq : request) (loaded : TranslationCache) :
  Forall (served rq loaded) (re_split paragraph_break markdown_text) ->
  translate_markdown markdown_text rq loaded =
  Some (repair_headings
          (join [newline; newline]
                (map (from_cache rq loaded) (re_split paragraph_break markdown_text))),
        loaded).
Proof.
  intro H. unfold translate_markdown. rewrite (fold_served empty_registry H).
  cbn [app]. unfold empty_registry. rewrite fix_markdown_format_no_list.
  reflexivity.
Qed.

Lemma cached_document_witness :
  @translate_markdown ascii_unicode (py "#Hello" ++ [newline; newline] ++ py "World")
     (Request (py "en") (py "fr") (py "google") false (fun _ => Failed))
     (Cache [(py "#Hello_en_fr_google", py "#Bonjour");
             (py "World_en_fr_google", py "Monde")] None)
  = Some (py "# Bonjour" ++ [newline; newline] ++ py "Monde",
          Cache [(py "#Hello_en_fr_google", py "#Bonjour");
                 (py "World_en_fr_google", py "Monde")] None).
Proof.
  rewrite (@cached_document_is_served_from_cache ascii_unicode).
  - vm_compute. reflexivity.
  - assert (E : @re_split ascii_unicode paragraph_break
                  (py "#Hello" ++ [newline; newline] ++ py "World")
                = [py "#Hello"; py "World"]) by (vm_compute; reflexivity).
    rewrite E.
    constructor; [|constructor; [|constructor]]; right; (split; [reflexivity|]).
    + exists (ch "#"), (py "Bonjour"). reflexivity.
    + exists (ch "M"), (py "onde"). reflexivity.
Defined.

(** X9 ([translate_markdown], lines 748 to 755): with [ignore_cache] set the
    cache that was loaded is never read: two runs on the same document and
    request that start from different caches return the same text (or fail
    together). *)
Theorem ignore_cache_reads_nothing (U : PyUnicode) (markdown_text : str) (rq : request)
    (c1 c2 : TranslationCache) :
  ignore_cache rq = true ->
  option_map fst (translate_markdown markdown_text rq c1) =
  option_map fst (translate_markdown markdown_text rq c2).
Proof.
  intro Hi. unfold translate_markdown.
  pose proof (@fold_same_output U rq (re_split paragraph_break markdown_text) Hi
                (Some (Progress [] c1 empty_registry))
                (Some (Progress [] c2 empty_registry))) as H.
  destruct (fold_left _ _ (Some (Progress [] c1 empty_registry))) as [[d1 k1 a1]|];
    destruct (fold_left _ _ (Some (Progress [] c2 empty_registry))) as [[d2 k2 a2]|];
    cbn [same_output translated_paragraphs all_special_elements] in H.
  - destruct H as [<- <-]; [now split|]. reflexivity.
  - now destruct H.
  - now destruct H.
  - reflexivity.
Qed.

Lemma ignore_cache_reads_nothing_witness :
  option_map fst
    (@translate_markdown ascii_unicode (py "Hello")
       (Request (py "en") (py "fr") (py "google") true (fun _ => Translated (py "Bonjour")))
       (Cache [] None)) =
  option_map fst
    (@translate_markdown ascii_unicode (py "Hello")
       (Request (py "en") (py "fr") (py "google") true (fun _ => Translated (py "Bonjour")))
       (Cache [(py "Hello_en_fr_google", py "Salut")] None)).
Proof.
  apply (@ignore_cache_reads_nothing ascii_unicode). reflexivity.
Defined.

(** X10 ([translate_markdown], lines 765 to 777): when the source and the
    target language are the same the provider is never asked: the text
    returned and the cache left do not depend on it. *)
Theorem same_language_never_asks_the_provider (U : PyUnicode) (markdown_text : str)
    (lang svc : str) (ignore : bool) (provider1 provider2 : str -> outcome)
    (loaded : TranslationCache) :
  translate_markdown markdown_text (Request lang lang svc ignore provider1) loaded =
  translate_markdown markdown_text (Request lang lang svc ignore provider2) loaded.
Proof.
  unfold translate_markdown.
  replace (fold_left (translate_paragraph (Request lang lang svc ignore provider1))
                     (re_split paragraph_break markdown_text)
                     (Some (Progress [] loaded empty_registry)))
    with (fold_left (translate_paragraph (Request lang lang svc ignore provider2))
                    (re_split paragraph_break markdown_text)
                    (Some (Progress [] loaded empty_registry))); [reflexivity|].
  generalize (Some (Progress [] loaded empty_registry)).
  induction (re_split paragraph_break markdown_text) as [|p ps IH]; intro st; [reflexivity|].
  cbn [fold_left]. rewrite IH. f_equal.
  unfold translate_paragraph. cbn [lang_in lang_out service ignore_cache provider].
  rewrite str_eqb_refl. reflexivity.
Qed.

(** ** One plain paragraph *)

Section PlainParagraph.
Context {U : PyUnicode}.


Lemma strip_nonempty (t : str) : strip t <> [] -> t <> [].
Proof. intros H ->. now apply H. Qed.

Lemma fix_markdown_format_empty (reg : option registry) : fix_markdown_format [] reg = [].
Proof. destruct reg as [[e [l|]]|]; reflexivity. Qed.

Lemma findall_bare_empty : findall bare_image_pattern [] = [].
Proof. reflexivity. Qed.

End PlainParagraph.





(** X13 ([translate_markdown], lines 905 to 918): when the provider leaves a
    unit out, as the [deepseek] branch does without a key or an address, the
    paragraph is not in the text returned: a document of one such paragraph
    comes back empty, and nothing is stored in the cache. *)
Theorem dropped_paragraph_is_lost (U : PyUnicode) (t : str) (rq : request)
    (loaded : TranslationCache) :
  contains t [newline; newline] = false -> strip t <> [] ->
  (ignore_cache rq = true \/
   TranslationCacheOps.get loaded (cache_key rq t) None = None) ->
  lang_in rq <> lang_out rq ->
  provider rq (fst (protect_special_elements t)) = Dropped ->
  translate_markdown t rq loaded = Some ([], loaded).
Proof.
  intros Hn Hs Hc Hl Hp. unfold translate_markdown.
  rewrite re_split_single by exact Hn. cbn [fold_left].
  unfold translate_paragraph. destruct (strip t) as [|x s]; [contradiction|].
  change (t ++ py "_" ++ lang_in rq ++ py "_" ++ lang_out rq ++ py "_" ++ service rq)
    with (cache_key rq t).
  assert (Ec : (if ignore_cache rq then None
                else TranslationCacheOps.get loaded (cache_key rq t) None) = None)
    by (destruct Hc as [->| ->]; [reflexivity|now destruct (ignore_cache rq)]).
  rewrite Ec. destruct (protect_special_elements t) as [protected_text special_elements].
  cbn [fst] in Hp. rewrite str_eqb_neq by assumption. rewrite Hp.
  cbn [join]. rewrite fix_markdown_format_empty.
  destruct (image_paths _); [|reflexivity].
  rewrite findall_bare_empty. reflexivity.
Qed.

Lemma dropped_paragraph_witness :
  @translate_markdown ascii_unicode (py "Hello $x$ world")
     (Request (py "en") (py "fr") (py "deepseek") false (fun _ => Dropped))
     (Cache [] None)
  = Some ([], Cache [] None).
Proof.
  apply (@dropped_paragraph_is_lost ascii_unicode).
  - reflexivity.
  - discriminate.
  - now right.
  - discriminate.
  - reflexivity.
Defined.

(** ** A blank document *)

Definition blank (s : str) : Prop := Forall (fun c => ascii_space c = true) s.



Section Blank.
Context {U : PyUnicode}.



Lemma ascii_space_bound (c : char) : ascii_space c = true -> c < 128.
Proof.
  unfold ascii_space. intro H. apply orb_true_iff in H as [H|H];
    apply andb_true_iff in H as [_ H]; apply N.leb_le in H; lia.
Qed.

Lemma lstrip_blank (s : str) : blank s -> lstrip s = [].
Proof.
  induction 1 as [|c s Hc Hs IH]; [reflexivity|]. cbn [lstrip].
  rewrite is_space_ascii by now apply ascii_space_bound. now rewrite Hc.
Qed.

Lemma strip_blank (s : str) : blank s -> strip s = [].
Proof. intro H. unfold strip. now rewrite (@lstrip_blank s H). Qed.


End Blank.



(** ** Recovery of a text without an underscore *)


(** The punctuation repair leaves what it has repaired as it is. *)
Lemma to_ascii_punctuation_settled (s : str) :
  lacks fw_lparen s -> lacks fw_rparen s -> contains s [fw_excl; ch "["] = false ->
  to_ascii_punctuation s = s.
Proof.
  induction s as [|c s IH]; intros H1 H2 H3; [reflexivity|].
  apply lacks_cons in H1 as [C1 H1]. apply lacks_cons in H2 as [C2 H2].
  cbn [contains] in H3. apply orb_false_iff in H3 as [S3 H3].
  cbn [to_ascii_punctuation]. rewrite IH by assumption. f_equal.
  rewrite startswith_cons in S3.
  change (startswith s [ch "["]) with (startswith s (py "[")) in S3.
  rewrite (N.eqb_sym c fw_excl), S3.
  unfold ascii_paren.
  destruct (N.eqb_spec c fw_rparen); [congruence|].
  destruct (N.eqb_spec c fw_lparen); [congruence|reflexivity].
Qed.

Section WithoutUnderscore.
Context {U : PyUnicode}.




End WithoutUnderscore.

(** ** The characters protection writes *)

(** A character that no placeholder holds: placeholders are made of
    underscores, capital letters and digits. *)
Definition outside_placeholders (d : char) : Prop :=
  d <> ch "_" /\ ascii_upper d = false /\ ascii_digit d = false.

Lemma replace1_keeps_lacks (d : char) (s old new : str) :
  lacks d s -> lacks d new -> lacks d (replace1 s old new).
Proof.
  intros Hs Hn. induction s as [|c s IH]; cbn [replace1].
  - destruct (startswith [] old); [|exact Hs].
    apply lacks_app. split; [exact Hn|]. now destruct (length old).
  - destruct (startswith (c :: s) old).
    + apply lacks_app. split; [exact Hn|].
      rewrite <- (firstn_skipn (length old) (c :: s)) in Hs.
      apply lacks_app in Hs. tauto.
    + apply lacks_cons in Hs as [Hc Hs]. apply lacks_cons. split; [exact Hc|now apply IH].
Qed.

Lemma capitals_lack (d : char) (s : str) :
  outside_placeholders d ->
  forallb (fun c => ascii_upper c || (c =? ch "_")) s = true -> lacks d s.
Proof.
  intros [H1 [H2 _]] Hs Hin. rewrite forallb_forall in Hs. apply Hs in Hin.
  apply orb_true_iff in Hin as [Hin|Hin]; [congruence|].
  apply N.eqb_eq in Hin. congruence.
Qed.

Lemma placeholder_lacks (d : char) (kind : string) (i : nat) :
  outside_placeholders d -> In kind placeholder_kinds -> lacks d (placeholder kind i).
Proof.
  intros Hd Hk.
  assert (Ha : lacks d (py kind)).
  { cbn in Hk. repeat (destruct Hk as [<-|Hk]; [now apply capitals_lack|]).
    contradiction. }
  destruct (str_of_nat_digits i) as [x [ds [Ed Hds]]].
  unfold placeholder. rewrite Ed.
  repeat (apply lacks_app; split); try exact Ha; try (now apply capitals_lack).
  apply digits_lack; [apply Hd|exact Hds].
Qed.

Lemma protect_one_keeps_lacks (d : char) (kind : string) (st : str * registry * nat)
    (formula : str) :
  outside_placeholders d -> In kind placeholder_kinds -> lacks d (fst (fst st)) ->
  lacks d (fst (fst (protect_one kind st formula))).
Proof.
  intros Hd Hk H. destruct st as [[text reg] counter]. cbn [protect_one fst] in *.
  apply replace1_keeps_lacks; [exact H|now apply placeholder_lacks].
Qed.

Lemma protect_complex_keeps_lacks (d : char) (st : str * registry * nat) (formula : str) :
  outside_placeholders d -> lacks d (fst (fst st)) ->
  lacks d (fst (fst (protect_complex st formula))).
Proof.
  intros Hd H. unfold protect_complex. destruct st as [[text reg] counter].
  destruct (existsb _ _); [exact H|].
  apply protect_one_keeps_lacks; [exact Hd|cbn; tauto|exact H].
Qed.

Lemma protect_wrapped_keeps_lacks (d : char) (kind : string) (opening closing : str)
    (st : str * registry) (ix : nat * str) :
  outside_placeholders d -> In kind placeholder_kinds -> lacks d (fst st) ->
  lacks d (fst (protect_wrapped kind opening closing st ix)).
Proof.
  intros Hd Hk H. destruct st as [text reg], ix as [i inner]. cbn [protect_wrapped fst] in *.
  apply replace1_keeps_lacks; [exact H|now apply placeholder_lacks].
Qed.

Lemma protect_titled_keeps_lacks (d : char) (st : str * registry * list image_entry)
    (ix : nat * (str * str)) :
  outside_placeholders d -> lacks d (fst (fst st)) ->
  lacks d (fst (fst (protect_titled st ix))).
Proof.
  intros Hd H. destruct st as [[text reg] l], ix as [i [title url]].
  cbn [protect_titled]. destruct title; [exact H|]. cbn [fst] in *.
  apply replace1_keeps_lacks; [exact H|]. apply placeholder_lacks; [exact Hd|cbn; tauto].
Qed.

Lemma protect_untitled_keeps_lacks (d : char) (st : str * registry * list image_entry)
    (ix : nat * str) :
  outside_placeholders d -> lacks d (fst (fst st)) ->
  lacks d (fst (fst (protect_untitled st ix))).
Proof.
  intros Hd H. destruct st as [[text reg] l], ix as [i url].
  cbn [protect_untitled fst] in *.
  apply replace1_keeps_lacks; [exact H|]. apply placeholder_lacks; [exact Hd|cbn; tauto].
Qed.

Lemma protect_link_keeps_lacks (d : char) (st : str * registry) (ix : nat * (str * str)) :
  outside_placeholders d -> lacks d (fst st) -> lacks d (fst (protect_link st ix)).
Proof.
  intros Hd H. destruct st as [text reg], ix as [i [title url]]. cbn [protect_link].
  destruct (existsb _ _); [exact H|]. cbn [fst] in *.
  apply replace1_keeps_lacks; [exact H|]. apply placeholder_lacks; [exact Hd|cbn; tauto].
Qed.

(* The statements below hold the whole of [protect_special_elements]; the
   search for implicit arguments would unfold it. *)
Unset Implicit Arguments.

Section Written.
Context {U : PyUnicode}.

Lemma protect_formulas_keeps_lacks (d : char) (t : str) (reg : registry) (counter : nat) :
  outside_placeholders d -> lacks d t ->
  lacks d (fst (fst (protect_formulas t reg counter))).
Proof.
  intros Hd H. unfold protect_formulas.
  apply fold_left_inv.
  { intros a r Ha. apply fold_left_inv; [|exact Ha].
    intros a' x Ha'. now apply protect_complex_keeps_lacks. }
  apply fold_left_inv.
  { intros a x Ha. apply protect_one_keeps_lacks; [exact Hd|cbn; tauto|exact Ha]. }
  apply fold_left_inv.
  { intros a x Ha. apply protect_one_keeps_lacks; [exact Hd|cbn; tauto|exact Ha]. }
  exact H.
Qed.

Lemma protect_keeps_lacks (d : char) (t : str) :
  outside_placeholders d -> lacks d t -> lacks d (fst (protect_special_elements t)).
Proof.
  intros Hd H. pose proof (protect_formulas_keeps_lacks d t empty_registry 0 Hd H) as H0.
  unfold protect_special_elements.
  destruct (protect_formulas t empty_registry 0) as [[t1 r1] c1]. cbn [fst snd] in *.
  set (s1 := fold_left (protect_wrapped "CODE_BLOCK" _ _) _ (t1, r1)).
  set (s2 := fold_left (protect_wrapped "INLINE_CODE" _ _) _ s1).
  set (s3 := fold_left (protect_wrapped "HTML_TAG" _ _) _ s2).
  assert (H3 : lacks d (fst s3)).
  { unfold s3, s2, s1.
    do 3 (apply fold_left_inv;
          [intros; apply protect_wrapped_keeps_lacks; [exact Hd|cbn; tauto|assumption]|]).
    exact H0. }
  set (s4 := fold_left protect_titled _ (s3, [])).
  assert (H4 : lacks d (fst (fst s4))).
  { unfold s4. apply fold_left_inv; [|exact H3].
    intros a x Ha. now apply protect_titled_keeps_lacks. }
  set (s5 := fold_left protect_untitled _ s4).
  assert (H5 : lacks d (fst (fst s5))).
  { unfold s5. apply fold_left_inv; [|exact H4].
    intros a x Ha. now apply protect_untitled_keeps_lacks. }
  clearbody s5. destruct s5 as [[t5 r5] l5]. cbn [fst] in H5.
  apply fold_left_inv; [|exact H5].
  intros a x Ha. now apply protect_link_keeps_lacks.
Qed.


End Written.

(** X15 ([protect_special_elements], lines 309 to 394): protection writes
    placeholders and nothing else: a character that is no underscore, no
    ASCII capital and no ASCII digit, and is not in the unit, is not in the
    protected text that goes to the provider. *)
Theorem protection_writes_only_placeholders (U : PyUnicode) (d : char) (t : str) :
  outside_placeholders d -> lacks d t -> lacks d (fst (protect_special_elements t)).
Proof. apply protect_keeps_lacks. Qed.

Lemma protection_writes_only_placeholders_witness :
  lacks (ch "x") (fst (@protect_special_elements ascii_unicode (py "a `b` and $c$ ![](d)"))).
Proof.
  apply (@protection_writes_only_placeholders ascii_unicode).
  - repeat split; discriminate.
  - apply lacks_forallb. reflexivity.
Defined.

Set Implicit Arguments.



(** X17 (the punctuation repair of [restore_special_elements], lines 476
    to 481): repairing the full-width punctuation of a text twice gives
    what repairing it once gives. *)
Theorem fullwidth_repair_idempotent (t : str) :
  fix_fullwidth_punctuation (fix_fullwidth_punctuation t) = fix_fullwidth_punctuation t.
Proof.
  rewrite !fix_fullwidth_punctuation_spec.
  destruct (to_ascii_punctuation_lacks t) as [H1 H2].
  apply to_ascii_punctuation_settled; [exact H1|exact H2|].
  apply to_ascii_punctuation_no_excl.
Qed.

(** ** The normalizer only shortens *)

Lemma startswith_length (s p : str) :
  startswith s p = true -> (length p <= length s)%nat.
Proof.
  intro H. apply startswith_split in H. apply (f_equal (@length char)) in H.
  rewrite length_app in H. lia.
Qed.

Lemma replace_from_shorter (old new : str) :
  (length new <= length old)%nat ->
  forall s k, (length (replace_from old new k s) <= length s - k)%nat.
Proof.
  intro Hn. induction s as [|c s IH]; intro k; [cbn; lia|].
  cbn [replace_from]. destruct k as [|k].
  - destruct (startswith (c :: s) old) eqn:E.
    + apply startswith_length in E. cbn [length] in *. rewrite length_app.
      specialize (IH (length old - 1)%nat). lia.
    + cbn [length]. specialize (IH O). lia.
  - cbn [length]. specialize (IH k). lia.
Qed.

(** [s.replace(old, new)] with [new] no longer than [old] *)
Lemma replace_shorter (s old new : str) :
  old <> [] -> (length new <= length old)%nat ->
  (length (replace s old new) <= length s)%nat.
Proof.
  intros Ho Hn. destruct old as [|o old]; [contradiction|].
  unfold replace. pose proof (@replace_from_shorter (o :: old) new Hn s O). lia.
Qed.

Section Shorter.
Context {U : PyUnicode}.

Lemma stitch_scan_shorter (f : rmatch -> str) (r : regex) :
  (forall seen rest adv len caps,
     first_hit r seen rest adv = Some (len, caps) ->
     (length (f (RMatch (firstn len rest) caps)) <= length (firstn len rest))%nat) ->
  forall rest seen pend k,
    (length (stitch f (scan r seen pend k rest)) <= length pend + (length rest - k))%nat.
Proof.
  intro Hf. induction rest as [|c rest IH]; intros seen pend k.
  - destruct k as [|k]; cbn [scan].
    + destruct (first_hit r seen [] false) as [[[|len] caps]|] eqn:E1;
        try destruct (first_hit r seen [] true) as [[[|len'] caps']|] eqn:E2;
        unfold stitch; cbn [fst snd flat_map app];
        rewrite ?app_nil_r, ?length_app, ?length_rev;
        try (apply Hf in E1; rewrite firstn_nil in E1; rewrite ?firstn_nil;
             cbn [length] in *); lia.
    + unfold stitch. cbn [fst snd flat_map app]. rewrite length_rev. lia.
  - destruct k as [|k]; cbn [scan].
    + destruct (first_hit r seen (c :: rest) false) as [[[|len] caps]|] eqn:E1.
      * apply Hf in E1. rewrite length_firstn in E1.
        destruct (first_hit r seen (c :: rest) true) as [[[|len'] caps']|] eqn:E2.
        -- rewrite stitch_cons, !length_app, length_rev.
           specialize (IH (c :: seen) [c] O). cbn [length] in *. lia.
        -- apply Hf in E2. rewrite length_firstn in E2.
           rewrite stitch_cons2, !length_app, length_rev.
           specialize (IH (c :: seen) [] len'). cbn [length] in *. lia.
        -- rewrite stitch_cons, !length_app, length_rev.
           specialize (IH (c :: seen) [c] O). cbn [length] in *. lia.
      * apply Hf in E1. rewrite length_firstn in E1.
        rewrite stitch_cons, !length_app, length_rev.
        specialize (IH (c :: seen) [] len). cbn [length] in *. lia.
      * specialize (IH (c :: seen) (c :: pend) O). cbn [length] in *. lia.
    + specialize (IH (c :: seen) pend k). cbn [length] in *. lia.
Qed.

(** [re.sub] with a replacement no longer than the match *)
Lemma re_sub_shorter (f : rmatch -> str) (r : regex) (s : str) :
  (forall seen rest adv len caps,
     first_hit r seen rest adv = Some (len, caps) ->
     (length (f (RMatch (firstn len rest) caps)) <= length (firstn len rest))%nat) ->
  (length (re_sub r f s) <= length s)%nat.
Proof.
  intro Hf. rewrite re_sub_stitch.
  pose proof (@stitch_scan_shorter f r Hf s [] [] O). cbn [length] in *. lia.
Qed.

(** The parts of a match of [prefix([^$]+)\$]. *)
Lemma dollar_group_hit (prefix : string) (seen rest : str) (adv : bool) (len : nat)
    (caps : list (nat * str)) :
  first_hit (seqs [lit prefix; Grp 1 (Plus true (Chr (CNot [ch "$"]))); lit "$"])
            seen rest adv = Some (len, caps) ->
  exists g, firstn len rest = py prefix ++ g ++ py "$" /\ caps = [(1%nat, g)].
Proof.
  intro H. apply first_hit_In in H as [st' [Hin [-> ->]]]. cbn [seqs] in Hin.
  rewrite rx_match_seq in Hin. apply in_flat_map in Hin as [s1 [H1 Hin]].
  rewrite rx_match_seq in Hin. apply in_flat_map in Hin as [s2 [H2 H3]].
  apply (rx_match_lit_reads (py prefix)) in H1 as [M1 C1].
  apply rx_match_grp_reads in H2 as [g [M2 C2]]; [|reflexivity].
  apply (rx_match_lit_reads (py "$")) in H3 as [M3 C3].
  exists g. split.
  - pose proof (moved_trans M1 (moved_trans M2 M3)) as M.
    apply moved_firstn in M. cbn [ms_rest] in M. exact M.
  - rewrite C3, C2, C1. reflexivity.
Qed.

(** The parts of a match of [spaced_group macro]: the macro, the brace,
    white space, the group, white space and the closing brace. *)
Lemma spaced_group_hit (macro : string) (seen rest : str) (adv : bool) (len : nat)
    (caps : list (nat * str)) :
  first_hit (spaced_group macro) seen rest adv = Some (len, caps) ->
  exists w1 g w2,
    firstn len rest = py macro ++ py "{" ++ w1 ++ g ++ w2 ++ py "}" /\
    caps = [(1%nat, g)].
Proof.
  intro H. apply first_hit_In in H as [st' [Hin [-> ->]]].
  unfold spaced_group in Hin. cbn [seqs] in Hin.
  rewrite rx_match_seq in Hin. apply in_flat_map in Hin as [s1 [H1 Hin]].
  rewrite rx_match_seq in Hin. apply in_flat_map in Hin as [s2 [H2 Hin]].
  rewrite rx_match_seq in Hin. apply in_flat_map in Hin as [s3 [H3 Hin]].
  rewrite rx_match_seq in Hin. apply in_flat_map in Hin as [s4 [H4 Hin]].
  rewrite rx_match_seq in Hin. apply in_flat_map in Hin as [s5 [H5 H6]].
  apply (rx_match_lit_reads (py macro)) in H1 as [M1 C1].
  apply (rx_match_lit_reads (py "{")) in H2 as [M2 C2].
  apply rx_match_reads in H3 as [w1 [M3 C3]]; [|reflexivity].
  apply rx_match_grp_reads in H4 as [g [M4 C4]]; [|reflexivity].
  apply rx_match_reads in H5 as [w2 [M5 C5]]; [|reflexivity].
  apply (rx_match_lit_reads (py "}")) in H6 as [M6 C6].
  exists w1, g, w2. split.
  - pose proof (moved_trans M1 (moved_trans M2 (moved_trans M3
                  (moved_trans M4 (moved_trans M5 M6))))) as M.
    apply moved_firstn in M. cbn [ms_rest] in M. exact M.
  - rewrite C6, C5, C4, C3, C2, C1. reflexivity.
Qed.

(** The parts of a match of [\\mathbf\{([^}]+)\}\\mathbf\{([^}]+)\}]. *)
Lemma mathbf_pair_hit (seen rest : str) (adv : bool) (len : nat)
    (caps : list (nat * str)) :
  first_hit (seqs [lit "\mathbf{"; Grp 1 (Plus true (Chr (CNot [ch "}"]))); lit "}";
                   lit "\mathbf{"; Grp 2 (Plus true (Chr (CNot [ch "}"]))); lit "}"])
            seen rest adv = Some (len, caps) ->
  exists g1 g2,
    firstn len rest = py "\mathbf{" ++ g1 ++ py "}" ++ py "\mathbf{" ++ g2 ++ py "}" /\
    caps = [(2%nat, g2); (1%nat, g1)].
Proof.
  intro H. apply first_hit_In in H as [st' [Hin [-> ->]]]. cbn [seqs] in Hin.
  rewrite rx_match_seq in Hin. apply in_flat_map in Hin as [s1 [H1 Hin]].
  rewrite rx_match_seq in Hin. apply in_flat_map in Hin as [s2 [H2 Hin]].
  rewrite rx_match_seq in Hin. apply in_flat_map in Hin as [s3 [H3 Hin]].
  rewrite rx_match_seq in Hin. apply in_flat_map in Hin as [s4 [H4 Hin]].
  rewrite rx_match_seq in Hin. apply in_flat_map in Hin as [s5 [H5 H6]].
  apply (rx_match_lit_reads (py "\mathbf{")) in H1 as [M1 C1].
  apply rx_match_grp_reads in H2 as [g1 [M2 C2]]; [|reflexivity].
  apply (rx_match_lit_reads (py "}")) in H3 as [M3 C3].
  apply (rx_match_lit_reads (py "\mathbf{")) in H4 as [M4 C4].
  apply rx_match_grp_reads in H5 as [g2 [M5 C5]]; [|reflexivity].
  apply (rx_match_lit_reads (py "}")) in H6 as [M6 C6].
  exists g1, g2. split.
  - pose proof (moved_trans M1 (moved_trans M2 (moved_trans M3
                  (moved_trans M4 (moved_trans M5 M6))))) as M.
    apply moved_firstn in M. cbn [ms_rest] in M. exact M.
  - rewrite C6, C5, C4, C3, C2, C1. reflexivity.
Qed.

Lemma regroup_shorter (macro : string) (s : str) :
  (length (re_sub (spaced_group macro) (regroup macro) s) <= length s)%nat.
Proof.
  apply re_sub_shorter. intros seen rest adv len caps H.
  apply spaced_group_hit in H as [w1 [g [w2 [-> ->]]]].
  unfold regroup, group. cbn [m_caps find fst snd Nat.eqb].
  rewrite !length_app. lia.
Qed.

Lemma sim_shorter (prefix : string) (s : str) :
  (6 <= length (py prefix))%nat ->
  (length (re_sub (seqs [lit prefix; Grp 1 (Plus true (Chr (CNot [ch "$"]))); lit "$"])
                  (fun m => py "$\sim " ++ group m 1 ++ py "$") s) <= length s)%nat.
Proof.
  intro Hp. apply re_sub_shorter. intros seen rest adv len caps H.
  apply dollar_group_hit in H as [g [-> ->]].
  unfold group. cbn [m_caps find fst snd Nat.eqb].
  rewrite !length_app. change (length (py "$\sim ")) with 6%nat. lia.
Qed.

Lemma mathbf_pair_shorter (s : str) :
  (length (re_sub (seqs [lit "\mathbf{"; Grp 1 (Plus true (Chr (CNot [ch "}"]))); lit "}";
                         lit "\mathbf{"; Grp 2 (Plus true (Chr (CNot [ch "}"]))); lit "}"])
                  (fun m => py "\mathbf{" ++ group m 1 ++ group m 2 ++ py "}") s)
   <= length s)%nat.
Proof.
  apply re_sub_shorter. intros seen rest adv len caps H.
  apply mathbf_pair_hit in H as [g1 [g2 [-> ->]]].
  unfold group. cbn [m_caps find fst snd Nat.eqb].
  rewrite !length_app. cbn [length py map list_ascii_of_string]. lia.
Qed.

End Shorter.

(** X18 ([LatexFormulaHandler.fix_formula_format], lines 115 to 159): the
    normalizer never makes a formula longer: each of its replacements
    writes no more characters than it takes away. *)
Theorem fix_formula_format_never_longer (U : PyUnicode) (formula : str) :
  (length (fix_formula_format formula) <= length formula)%nat.
Proof.
  unfold fix_formula_format.
  eapply Nat.le_trans; [apply replace_shorter; [discriminate|cbn; lia]|].
  do 2 (eapply Nat.le_trans; [apply regroup_shorter|]).
  do 2 (eapply Nat.le_trans; [apply regroup_shorter|]).
  eapply Nat.le_trans; [apply mathbf_pair_shorter|].
  do 2 (eapply Nat.le_trans; [apply regroup_shorter|]).
  do 2 (eapply Nat.le_trans; [apply sim_shorter; cbn; lia|]).
  do 4 (eapply Nat.le_trans; [apply replace_shorter; [discriminate|cbn; lia]|]).
  apply Nat.le_refl.
Qed.


(** * The callers: [app.py] and [markdown_to_html.py]

    [app.py] turns the language names of the form into codes, calls
    [translate_markdown] and renders the result through
    [convert_markdown_to_html_string], which reads and removes a front
    matter before it hands the text to the converter. *)

(** ** app.py *)

(** The keys of [lang_map] are Chinese names; they are written by their
    code points. *)
Definition lang_map : list (str * str) :=
  [ ([33521; 35821], py "en");                  (* U+82F1 U+8BED *)
    ([20013; 25991], py "zh");                  (* U+4E2D U+6587 *)
    ([26085; 35821], py "ja");                  (* U+65E5 U+8BED *)
    ([38889; 35821], py "ko");                  (* U+97E9 U+8BED *)
    ([27861; 35821], py "fr");                  (* U+6CD5 U+8BED *)
    ([24503; 35821], py "de");                  (* U+5FB7 U+8BED *)
    ([35199; 29677; 29273; 35821], py "es");    (* U+897F U+73ED U+7259 U+8BED *)
    ([24847; 22823; 21033; 35821], py "it");    (* U+610F U+5927 U+5229 U+8BED *)
    ([20420; 35821], py "ru");                  (* U+4FC4 U+8BED *)
    ([33889; 33796; 29273; 35821], py "pt") ].  (* U+8461 U+8404 U+7259 U+8BED *)

(** [lang_map.get(lang_name, "en")] *)
Definition get_lang_code (lang_name : str) : str :=
  match dict_get lang_map lang_name with
  | Some code => code
  | None => py "en"
  end.

(** ** markdown_to_html.py *)

(** [s.find(sub, start)] for a [sub] that is not empty; [None] is -1. *)
Fixpoint find_at (s sub : str) (i : nat) : option nat :=
  if startswith s sub then Some i
  else match s with
       | [] => None
       | _ :: s' => find_at s' sub (S i)
       end.

Definition find (s sub : str) (start : nat) : option nat :=
  find_at (skipn start s) sub start.

(** [s[a:b]] *)
Definition slice (s : str) (a b : nat) : str := firstn (b - a) (skipn a s).

(** [s.split(c, 1)] of a text that holds [c]: what is before the first
    [c] and what is after it. *)
Fixpoint split_once (c : char) (s : str) : str * str :=
  match s with
  | [] => ([], [])
  | d :: s' =>
      if d =? c then ([], s')
      else let (before, after) := split_once c s' in (d :: before, after)
  end.

(** [l.index(x)]; [None] when it raises [ValueError]. *)
Fixpoint index (x : str) (l : list str) : option nat :=
  match l with
  | [] => None
  | y :: l' => if str_eqb y x then Some O else option_map S (index x l')
  end.

(** The loop that gathers the lines of a block value: the lines that begin
    with a space, stripped, up to the first that does not. *)
Fixpoint next_lines {U : PyUnicode} (following : list str) : list str :=
  match following with
  | next_line :: rest =>
      if startswith next_line (py " ") then strip next_line :: next_lines rest else []
  | [] => []
  end.

(** What [extract_metadata] gives: [None], the dictionary, or the
    [ValueError] of [list.index]. *)
Inductive extracted : Type :=
| NoMetadata
| Metadata (metadata : list (str * str))
| ValueError.

(** One turn of the loop over the lines of the front matter; [None] once
    [index] has raised. *)
Definition metadata_line {U : PyUnicode} (metadata_lines : list str)
    (st : option (list (str * str))) (line : str) : option (list (str * str)) :=
  match st with
  | None => None
  | Some metadata =>
      let line := strip line in
      match line with
      | [] => Some metadata
      | _ :: _ =>
          if negb (in_set (ch ":") line) then Some metadata
          else
            let (key, value) := split_once (ch ":") line in
            let key := strip key in
            let value := strip value in
            if str_eqb value (py "|") then
              match index line metadata_lines with
              | None => None
              | Some i =>
                  Some (dict_set metadata key
                          (join [newline] (next_lines (skipn (S i) metadata_lines))))
              end
            else Some (dict_set metadata key value)
      end
  end.

Definition extract_metadata {U : PyUnicode} (markdown_content : str) : extracted :=
  if negb (startswith markdown_content (py "---")) then NoMetadata
  else
    match find markdown_content (py "---") 3 with
    | None => NoMetadata
    | Some end_index =>
        let metadata_text := strip (slice markdown_content 3 end_index) in
        let metadata_lines := split_on newline metadata_text in
        match fold_left (metadata_line metadata_lines) metadata_lines (Some []) with
        | Some metadata => Metadata metadata
        | None => ValueError
        end
    end.

Definition remove_metadata {U : PyUnicode} (markdown_content : str) : str :=
  if negb (startswith markdown_content (py "---")) then markdown_content
  else
    match find markdown_content (py "---") 3 with
    | None => markdown_content
    | Some end_index => strip (skipn (end_index + 3) markdown_content)
    end.

(** [convert_markdown_to_html_string]; the converter, which calls the
    [markdown] library, is [convert].  [None] when [extract_metadata]
    raises.  An empty dictionary is false for [if metadata:]. *)
Definition convert_markdown_to_html_string {U : PyUnicode}
    (convert : str -> str -> option str -> str)
    (markdown_content theme : str) (custom_css : option str) : option str :=
  match extract_metadata markdown_content with
  | ValueError => None
  | NoMetadata | Metadata [] => Some (convert markdown_content theme custom_css)
  | Metadata metadata =>
      let theme :=
        match dict_get metadata (py "theme") with Some t => t | None => theme end in
      let custom_css :=
        match dict_get metadata (py "custom_css") with
        | Some (c :: css) => Some (c :: css)
        | _ => custom_css
        end in
      Some (convert (remove_metadata markdown_content) theme custom_css)
  end.

(** [render_markdown] of [app.py] *)
Definition render_markdown {U : PyUnicode} (convert : str -> str -> option str -> str)
    (markdown_text : str) : option str :=
  match markdown_text with
  | [] => Some []
  | _ :: _ => convert_markdown_to_html_string convert markdown_text (py "default") None
  end.

(** ** The language codes *)

(** X19 ([get_lang_code], [app.py] lines 38 to 51): a name outside the
    table gives [en]; every name gives one of the ten codes; and two
    different names of the table give two different codes, so that the
    same-language branch of [translate_markdown] is taken for two listed
    names only when they are the same name. *)
Theorem get_lang_code_table :
  (forall lang_name, ~ In lang_name (map fst lang_map) -> get_lang_code lang_name = py "en") /\
  (forall lang_name, In (get_lang_code lang_name) (map snd lang_map)) /\
  (forall n1 n2, In n1 (map fst lang_map) -> In n2 (map fst lang_map) ->
                 get_lang_code n1 = get_lang_code n2 -> n1 = n2).
Proof.
  assert (Hget : forall (d : list (str * str)) lang_name,
             ~ In lang_name (map fst d) -> dict_get d lang_name = None).
  { induction d as [|[k v] d IH]; intros n Hn; [reflexivity|].
    cbn [dict_get]. cbn in Hn. rewrite str_eqb_neq by tauto. apply IH. tauto. }
  assert (Hin : forall (d : list (str * str)) lang_name code,
             dict_get d lang_name = Some code -> In code (map snd d)).
  { induction d as [|[k v] d IH]; intros n c Hc; [discriminate|].
    cbn [dict_get] in Hc. destruct (str_eqb k n).
    - injection Hc as <-. now left.
    - right. now apply IH with n. }
  split; [|split].
  - intros n Hn. unfold get_lang_code. now rewrite Hget.
  - intro n. unfold get_lang_code. destruct (dict_get lang_map n) eqn:E.
    + now apply Hin with n.
    + now left.
  - intros n1 n2 H1 H2. cbn in H1, H2.
    repeat (destruct H1 as [<-|H1]); try contradiction;
      repeat (destruct H2 as [<-|H2]); try contradiction;
      intro H; try reflexivity; vm_compute in H; discriminate.
Qed.

(** ** The fences of a front matter *)

Lemma find_at_none (s sub : str) :
  contains s sub = false -> forall i, find_at s sub i = None.
Proof.
  induction s as [|c s IH]; intros H i; cbn [contains find_at] in *;
    apply orb_false_iff in H as [H1 H2]; rewrite H1; [reflexivity|now apply IH].
Qed.

(** Whether a text that is followed by a fence begins with three hyphens is
    seen on the text followed by two. *)
Lemma startswith_fence (m body : str) :
  m <> [] ->
  startswith (m ++ py "---" ++ body) (py "---") = startswith (m ++ py "--") (py "---").
Proof.
  destruct m as [|d [|b [|c m]]]; [contradiction| | |]; intros _; reflexivity.
Qed.

(** The search stops at the fence when no three hyphens begin before it. *)
Lemma find_at_fence (m body : str) :
  contains (m ++ py "--") (py "---") = false ->
  forall i, find_at (m ++ py "---" ++ body) (py "---") i = Some (i + length m)%nat.
Proof.
  induction m as [|d m IH]; intros H i.
  - cbn [length]. rewrite Nat.add_0_r. reflexivity.
  - cbn [app contains] in H. apply orb_false_iff in H as [H1 H2].
    pose proof (@startswith_fence (d :: m) body ltac:(discriminate)) as E.
    cbn [app] in E. cbn [app find_at]. rewrite E, H1.
    rewrite IH by assumption. f_equal. cbn [length]. lia.
Qed.

Section Fences.
Context {U : PyUnicode}.

Lemma fenced_find (meta body : str) :
  contains (meta ++ py "--") (py "---") = false ->
  find (py "---" ++ meta ++ py "---" ++ body) (py "---") 3 = Some (3 + length meta)%nat.
Proof.
  intro H. unfold find.
  change (skipn 3 (py "---" ++ meta ++ py "---" ++ body)) with (meta ++ py "---" ++ body).
  now apply find_at_fence.
Qed.

Lemma fenced_slice (meta body : str) :
  slice (py "---" ++ meta ++ py "---" ++ body) 3 (3 + length meta) = meta.
Proof.
  unfold slice.
  change (skipn 3 (py "---" ++ meta ++ py "---" ++ body)) with (meta ++ py "---" ++ body).
  replace (3 + length meta - 3)%nat with (length meta + 0)%nat by lia.
  rewrite firstn_app_2. cbn [firstn]. apply app_nil_r.
Qed.

Lemma fenced_body (meta body : str) :
  skipn (3 + length meta + 3) (py "---" ++ meta ++ py "---" ++ body) = body.
Proof.
  replace (3 + length meta + 3)%nat with (3 + (length meta + 3))%nat by lia.
  change (skipn (3 + (length meta + 3)) (py "---" ++ meta ++ py "---" ++ body))
    with (skipn (length meta + 3) (meta ++ py "---" ++ body)).
  rewrite skipn_app. rewrite skipn_all2 by lia.
  replace (length meta + 3 - length meta)%nat with 3%nat by lia. reflexivity.
Qed.

(** The front matter of a fenced text, read from what is between the
    fences. *)
Lemma extract_fenced (meta body : str) :
  contains (meta ++ py "--") (py "---") = false ->
  extract_metadata (py "---" ++ meta ++ py "---" ++ body) =
  match fold_left (metadata_line (split_on newline (strip meta)))
                  (split_on newline (strip meta)) (Some []) with
  | Some metadata => Metadata metadata
  | None => ValueError
  end.
Proof.
  intro H. unfold extract_metadata.
  rewrite (startswith_app (meta ++ py "---" ++ body) (py "---")). cbn [negb].
  rewrite fenced_find by exact H. now rewrite fenced_slice.
Qed.

Lemma remove_fenced (meta body : str) :
  contains (meta ++ py "--") (py "---") = false ->
  remove_metadata (py "---" ++ meta ++ py "---" ++ body) = strip body.
Proof.
  intro H. unfold remove_metadata.
  rewrite (startswith_app (meta ++ py "---" ++ body) (py "---")). cbn [negb].
  rewrite fenced_find by exact H. now rewrite fenced_body.
Qed.

End Fences.

(** X20 ([extract_metadata] and [remove_metadata], [markdown_to_html.py]
    lines 100 to 171, [convert_markdown_to_html_string], lines 69 to 98,
    and [render_markdown], [app.py] lines 61 to 65): a text that does not
    begin with three hyphens, or holds no three hyphens after them, has no
    front matter: [extract_metadata] gives [None], [remove_metadata] gives
    the text back, and the text goes to the converter as it is, with the
    theme and the style sheet of the call; [render_markdown] converts it
    with the default theme, unless it is empty. *)
Theorem no_front_matter (U : PyUnicode) (markdown_content : str) :
  startswith markdown_content (py "---") = false \/
  contains (skipn 3 markdown_content) (py "---") = false ->
  extract_metadata markdown_content = NoMetadata /\
  remove_metadata markdown_content = markdown_content /\
  forall convert,
    (forall theme custom_css,
       convert_markdown_to_html_string convert markdown_content theme custom_css =
       Some (convert markdown_content theme custom_css)) /\
    render_markdown convert markdown_content =
    Some (match markdown_content with
          | [] => []
          | _ :: _ => convert markdown_content (py "default") None
          end).
Proof.
  intro H.
  assert (E : extract_metadata markdown_content = NoMetadata).
  { unfold extract_metadata. destruct H as [H|H]; [now rewrite H|].
    destruct (startswith markdown_content (py "---")); [|reflexivity]. cbn [negb].
    unfold find. now rewrite find_at_none. }
  split; [exact E|]. split.
  - unfold remove_metadata. destruct H as [H|H]; [now rewrite H|].
    destruct (startswith markdown_content (py "---")); [|reflexivity]. cbn [negb].
    unfold find. now rewrite find_at_none.
  - intro convert.
    assert (C : forall theme custom_css,
               convert_markdown_to_html_string convert markdown_content theme custom_css =
               Some (convert markdown_content theme custom_css)).
    { intros theme custom_css. unfold convert_markdown_to_html_string. now rewrite E. }
    split; [exact C|]. unfold render_markdown.
    destruct markdown_content as [|c s]; [reflexivity|apply C].
Qed.

Lemma no_front_matter_witness :
  @remove_metadata ascii_unicode (py "--- only one fence") = py "--- only one fence".
Proof.
  destruct (@no_front_matter ascii_unicode (py "--- only one fence")) as [_ [H _]].
  - right. reflexivity.
  - exact H.
Defined.

(** X21 ([extract_metadata] and [remove_metadata], [markdown_to_html.py]
    lines 121 to 171): the front matter ends at the first three hyphens
    after the opening ones.  For a text made of a fence, a part in which no
    three hyphens begin, a fence and a body, [remove_metadata] gives the
    body, stripped, and what [extract_metadata] gives does not depend on
    the body. *)
Theorem front_matter_ends_at_second_fence (U : PyUnicode) (meta body : str) :
  contains (meta ++ py "--") (py "---") = false ->
  remove_metadata (py "---" ++ meta ++ py "---" ++ body) = strip body /\
  extract_metadata (py "---" ++ meta ++ py "---" ++ body) =
  extract_metadata (py "---" ++ meta ++ py "---").
Proof.
  intro H. split; [now apply remove_fenced|].
  rewrite (@extract_fenced U meta body H).
  rewrite <- (app_nil_r (py "---")) at 2.
  now rewrite (@extract_fenced U meta [] H).
Qed.

Lemma front_matter_ends_witness :
  @remove_metadata ascii_unicode
     (py "---" ++ (newline :: py "custom-class: a--b" ++ [newline]) ++ py "---" ++
      (newline :: py "# Title" ++ [newline]))
  = py "# Title".
Proof.
  destruct (@front_matter_ends_at_second_fence ascii_unicode
              (newline :: py "custom-class: a--b" ++ [newline])
              (newline :: py "# Title" ++ [newline])) as [H _].
  - reflexivity.
  - rewrite H. reflexivity.
Defined.

(** ** The lines of a front matter *)

Lemma in_set_lacks (c : char) (s : str) : lacks c s -> in_set c s = false.
Proof.
  unfold in_set. induction s as [|d s IH]; intro H; [reflexivity|].
  apply lacks_cons in H as [Hd H]. cbn [existsb]. rewrite IH by assumption.
  destruct (N.eqb_spec c d); [congruence|reflexivity].
Qed.

Lemma in_set_In (c : char) (s : str) : in_set c s = true -> In c s.
Proof.
  unfold in_set. intro H. apply existsb_exists in H as [d [Hd E]].
  apply N.eqb_eq in E. now subst d.
Qed.

Lemma in_set_mid (c : char) (a b : str) : in_set c (a ++ c :: b) = true.
Proof.
  unfold in_set. induction a as [|d a IH]; cbn [app existsb].
  - now rewrite N.eqb_refl.
  - rewrite IH. apply orb_true_r.
Qed.

Lemma join_incl (sep : str) (parts : list str) (l : str) (d : char) :
  In l parts -> In d l -> In d (join sep parts).
Proof.
  induction parts as [|p ps IH]; [intros []|]. intros Hl Hd.
  destruct ps as [|q ps].
  - destruct Hl as [->|[]]. exact Hd.
  - rewrite join_cons_cons. apply in_or_app. destruct Hl as [->|Hl]; [now left|].
    right. apply in_or_app. right. now apply IH.
Qed.

(** A character of a line is a character of the text. *)
Lemma split_on_incl (c : char) (s l : str) (d : char) :
  In l (split_on c s) -> In d l -> In d s.
Proof.
  intros Hl Hd. rewrite <- (join_split_on c s). now apply join_incl with l.
Qed.

Lemma index_none (x : str) (l : list str) : ~ In x l -> index x l = None.
Proof.
  induction l as [|y l IH]; intro H; [reflexivity|]. cbn [index]. cbn in H.
  rewrite str_eqb_neq by tauto. rewrite IH by tauto. reflexivity.
Qed.

Lemma dict_get_set_iff (V : Type) (d : list (str * V)) (k k' : str) (v : V) :
  dict_get (dict_set d k v) k' <> None <-> k = k' \/ dict_get d k' <> None.
Proof.
  destruct (str_eqb k k') eqn:E.
  - apply str_eqb_eq in E. subst k'. rewrite dict_get_set_same.
    split; [now left|discriminate].
  - assert (Hk : k <> k') by (intros ->; now rewrite str_eqb_refl in E).
    rewrite dict_get_set_other by assumption. tauto.
Qed.

Section FrontMatter.
Context {U : PyUnicode}.

Lemma lstrip_incl (s : str) (c : char) : In c (lstrip s) -> In c s.
Proof.
  induction s as [|d s IH]; cbn [lstrip]; [tauto|].
  destruct (is_space d); intro H; [right; now apply IH|exact H].
Qed.

(** [strip] only takes characters away. *)
Lemma strip_incl (s : str) (c : char) : In c (strip s) -> In c s.
Proof.
  unfold strip. intro H. apply in_rev in H. apply lstrip_incl in H.
  apply in_rev in H. now apply lstrip_incl.
Qed.

(** The key a line gives: what is before its first colon, stripped. *)
Definition key_of (line : str) : str :=
  strip (fst (split_once (ch ":") (strip line))).

Lemma fold_metadata_raised (metadata_lines ls : list str) :
  fold_left (metadata_line metadata_lines) ls None = None.
Proof. induction ls as [|l ls IH]; [reflexivity|exact IH]. Qed.

(** A line without a colon adds nothing. *)
Lemma metadata_line_skip (metadata_lines : list str) (metadata : list (str * str))
    (line : str) :
  lacks (ch ":") line ->
  metadata_line metadata_lines (Some metadata) line = Some metadata.
Proof.
  intro H. unfold metadata_line.
  assert (Hs : lacks (ch ":") (strip line)) by (intro Hin; apply H; now apply strip_incl).
  destruct (strip line) as [|c l]; [reflexivity|].
  now rewrite in_set_lacks.
Qed.

(** What one turn of the loop does to the dictionary. *)
Lemma metadata_line_sets (metadata_lines : list str) (metadata metadata' : list (str * str))
    (line : str) :
  metadata_line metadata_lines (Some metadata) line = Some metadata' ->
  (in_set (ch ":") (strip line) = false /\ metadata' = metadata) \/
  (in_set (ch ":") (strip line) = true /\
   exists value, metadata' = dict_set metadata (key_of line) value).
Proof.
  unfold metadata_line, key_of.
  destruct (strip line) as [|c l] eqn:E.
  - intros [= <-]. left. now split.
  - destruct (in_set (ch ":") (c :: l)) eqn:Ei; cbn [negb].
    + destruct (split_once (ch ":") (c :: l)) as [key value] eqn:Es. cbn [fst].
      destruct (str_eqb (strip value) (py "|")).
      * destruct (index (c :: l) metadata_lines) as [i|]; [|discriminate].
        intros [= <-]. right. split; [reflexivity|]. now eexists.
      * intros [= <-]. right. split; [reflexivity|]. now eexists.
    + intros [= <-]. left. now split.
Qed.

(** A block line whose stripped form is not a line of the front matter
    makes [index] raise. *)
Lemma metadata_line_raises (metadata_lines : list str) (st : option (list (str * str)))
    (line : str) :
  in_set (ch ":") (strip line) = true ->
  strip (snd (split_once (ch ":") (strip line))) = py "|" ->
  ~ In (strip line) metadata_lines ->
  metadata_line metadata_lines st line = None.
Proof.
  intros Hi Hv Hn. destruct st as [metadata|]; [|reflexivity].
  unfold metadata_line.
  destruct (strip line) as [|c l]; [discriminate|]. rewrite Hi. cbn [negb].
  destruct (split_once (ch ":") (c :: l)) as [key value]. cbn [snd] in Hv.
  rewrite Hv, str_eqb_refl. now rewrite index_none.
Qed.

Lemma fold_metadata_raises (metadata_lines ls : list str) (line : str) :
  In line ls ->
  (forall st, metadata_line metadata_lines st line = None) ->
  forall st, fold_left (metadata_line metadata_lines) ls st = None.
Proof.
  intros Hin Hr. induction ls as [|l ls IH]; [destruct Hin|]. intro st.
  cbn [fold_left]. destruct Hin as [->|Hin].
  - rewrite Hr. apply fold_metadata_raised.
  - now apply IH.
Qed.

(** The keys after the loop: those it began with and those of the lines
    that hold a colon. *)
Lemma fold_metadata_keys (metadata_lines ls : list str) (k : str) :
  forall metadata0 metadata,
  fold_left (metadata_line metadata_lines) ls (Some metadata0) = Some metadata ->
  (dict_get metadata k <> None <->
   dict_get metadata0 k <> None \/
   exists line, In line ls /\ in_set (ch ":") (strip line) = true /\ key_of line = k).
Proof.
  induction ls as [|l ls IH]; intros m0 m H.
  - injection H as <-. split; [now left|]. now intros [H|[line [[] _]]].
  - cbn [fold_left] in H.
    destruct (metadata_line metadata_lines (Some m0) l) as [m1|] eqn:E1;
      [|rewrite fold_metadata_raised in H; discriminate].
    apply IH in H. rewrite H.
    apply metadata_line_sets in E1 as [[Hi ->]|[Hi [value ->]]].
    + split.
      * intros [Hk|[line [Hl Hc]]]; [now left|]. right. exists line. split; [now right|exact Hc].
      * intros [Hk|[line [[<-|Hl] [Hc Hk]]]]; [now left|congruence|].
        right. now exists line.
    + rewrite dict_get_set_iff. split.
      * intros [[Hk|Hk]|[line [Hl Hc]]].
        -- right. exists l. split; [now left|]. now split.
        -- now left.
        -- right. exists line. split; [now right|exact Hc].
      * intros [Hk|[line [[<-|Hl] [Hc Hk]]]].
        -- left. now right.
        -- left. now left.
        -- right. now exists line.
Qed.

End FrontMatter.

(** X22 ([extract_metadata], [markdown_to_html.py] lines 100 to 152, and
    [convert_markdown_to_html_string], lines 69 to 98): a front matter
    without any colon gives the empty dictionary, which is false for
    [if metadata:]; so the text goes to the converter with its front matter
    and both fences left in, and with the theme and the style sheet of the
    call. *)
Theorem front_matter_without_colon_is_kept (U : PyUnicode) (meta body : str) :
  contains (meta ++ py "--") (py "---") = false ->
  lacks (ch ":") meta ->
  extract_metadata (py "---" ++ meta ++ py "---" ++ body) = Metadata [] /\
  forall convert theme custom_css,
    convert_markdown_to_html_string convert (py "---" ++ meta ++ py "---" ++ body)
      theme custom_css =
    Some (convert (py "---" ++ meta ++ py "---" ++ body) theme custom_css).
Proof.
  intros Hf Hc.
  assert (E : extract_metadata (py "---" ++ meta ++ py "---" ++ body) = Metadata []).
  { rewrite (@extract_fenced U meta body Hf).
    assert (Hl : Forall (lacks (ch ":")) (split_on newline (strip meta))).
    { apply Forall_forall. intros l Hl Hin. apply Hc.
      apply strip_incl. now apply split_on_incl with newline l. }
    generalize (split_on newline (strip meta)) at 1. intro L.
    induction Hl as [|l ls Hl Hls IH]; [reflexivity|].
    cbn [fold_left]. now rewrite metadata_line_skip. }
  split; [exact E|]. intros convert theme custom_css.
  unfold convert_markdown_to_html_string. now rewrite E.
Qed.

Lemma front_matter_without_colon_witness :
  @extract_metadata ascii_unicode
    (py "---" ++ (newline :: py "draft" ++ [newline]) ++ py "---" ++ py " text")
  = Metadata [].
Proof.
  destruct (@front_matter_without_colon_is_kept ascii_unicode
              (newline :: py "draft" ++ [newline]) (py " text")) as [H _].
  - reflexivity.
  - apply lacks_forallb. reflexivity.
  - exact H.
Defined.

(** X23 ([extract_metadata], [markdown_to_html.py] lines 125 to 150): the
    keys of the dictionary are the stripped parts before the first colon of
    the lines that hold a colon.  The loop does not pass over the lines it
    has gathered into a block value, so a line of a block value that holds
    a colon gives a key of its own. *)
Theorem metadata_keys_are_the_colon_lines (U : PyUnicode) (meta body : str)
    (metadata : list (str * str)) (k : str) :
  contains (meta ++ py "--") (py "---") = false ->
  extract_metadata (py "---" ++ meta ++ py "---" ++ body) = Metadata metadata ->
  (dict_get metadata k <> None <->
   exists line, In line (split_on newline (strip meta)) /\
                in_set (ch ":") (strip line) = true /\ key_of line = k).
Proof.
  intros Hf. rewrite (@extract_fenced U meta body Hf).
  destruct (fold_left (metadata_line (split_on newline (strip meta)))
              (split_on newline (strip meta)) (Some [])) as [m|] eqn:E; [|discriminate].
  intros [= <-]. rewrite (fold_metadata_keys _ _ k _ E). cbn [dict_get]. tauto.
Qed.

Lemma metadata_keys_witness :
  exists line,
    In line (split_on newline
               (@strip ascii_unicode
                  (newline :: py "theme: dark" ++ newline :: py "custom_css: |" ++
                   newline :: py "  .custom-class { color: red; }" ++ [newline]))) /\
    in_set (ch ":") (@strip ascii_unicode line) = true /\
    @key_of ascii_unicode line = py ".custom-class { color".
Proof.
  apply (@metadata_keys_are_the_colon_lines ascii_unicode
           (newline :: py "theme: dark" ++ newline :: py "custom_css: |" ++
            newline :: py "  .custom-class { color: red; }" ++ [newline])
           (newline :: py "# Title")
           [ (py "theme", py "dark");
             (py "custom_css", py ".custom-class { color: red; }");
             (py ".custom-class { color", py "red; }") ]
           (py ".custom-class { color")).
  - reflexivity.
  - vm_compute. reflexivity.
  - vm_compute. discriminate.
Defined.

(** X24 ([extract_metadata], [markdown_to_html.py] lines 125 to 150, and
    [convert_markdown_to_html_string], lines 85 to 96): the line of a block
    key is looked up by [list.index] in its stripped form among the lines as
    they are.  When a line whose value is a bar is not found there in its
    stripped form, as when it is indented or followed by a space,
    [extract_metadata] raises [ValueError], and so does the conversion. *)
Theorem block_key_out_of_place_raises (U : PyUnicode) (meta body line : str) :
  contains (meta ++ py "--") (py "---") = false ->
  In line (split_on newline (strip meta)) ->
  in_set (ch ":") (strip line) = true ->
  strip (snd (split_once (ch ":") (strip line))) = py "|" ->
  ~ In (strip line) (split_on newline (strip meta)) ->
  extract_metadata (py "---" ++ meta ++ py "---" ++ body) = ValueError /\
  forall convert theme custom_css,
    convert_markdown_to_html_string convert (py "---" ++ meta ++ py "---" ++ body)
      theme custom_css = None.
Proof.
  intros Hf Hin Hi Hv Hn.
  assert (E : extract_metadata (py "---" ++ meta ++ py "---" ++ body) = ValueError).
  { rewrite (@extract_fenced U meta body Hf).
    rewrite (@fold_metadata_raises U _ _ line Hin); [reflexivity|].
    intro st. now apply metadata_line_raises. }
  split; [exact E|]. intros convert theme custom_css.
  unfold convert_markdown_to_html_string. now rewrite E.
Qed.

Lemma block_key_out_of_place_witness :
  @extract_metadata ascii_unicode
    (py "---" ++
     (newline :: py "theme: dark" ++ newline :: py "  custom_css: |" ++
      newline :: py "    .a { }" ++ [newline]) ++
     py "---" ++ (newline :: py "# Title"))
  = ValueError.
Proof.
  destruct (@block_key_out_of_place_raises ascii_unicode
              (newline :: py "theme: dark" ++ newline :: py "  custom_css: |" ++
               newline :: py "    .a { }" ++ [newline])
              (newline :: py "# Title")
              (py "  custom_css: |")) as [H _].
  - reflexivity.
  - vm_compute. tauto.
  - reflexivity.
  - reflexivity.
  - vm_compute. intros [H|[H|[H|[]]]]; discriminate.
  - exact H.
Defined.

(** X25 ([convert_markdown_to_html_string], [markdown_to_html.py] lines 85
    to 96, with [extract_metadata] and [remove_metadata]): when the front
    matter names a theme, the converter gets the body after the closing
    fence, stripped, with the theme of the front matter in place of the
    theme of the call; the style sheet of the call is replaced only by a
    [custom_css] that is not empty. *)
Theorem front_matter_theme_overrides (U : PyUnicode) (meta body : str)
    (metadata : list (str * str)) (t : str) :
  contains (meta ++ py "--") (py "---") = false ->
  extract_metadata (py "---" ++ meta ++ py "---" ++ body) = Metadata metadata ->
  dict_get metadata (py "theme") = Some t ->
  forall convert theme custom_css,
    convert_markdown_to_html_string convert (py "---" ++ meta ++ py "---" ++ body)
      theme custom_css =
    Some (convert (strip body) t
            match dict_get metadata (py "custom_css") with
            | Some (c :: css) => Some (c :: css)
            | _ => custom_css
            end).
Proof.
  intros Hf E Ht convert theme custom_css.
  unfold convert_markdown_to_html_string. rewrite E.
  destruct metadata as [|kv metadata]; [discriminate|].
  rewrite Ht. now rewrite (@remove_fenced U meta body Hf).
Qed.

Lemma front_matter_theme_witness :
  @convert_markdown_to_html_string ascii_unicode
    (fun markdown_content theme _ => theme ++ py "|" ++ markdown_content)
    (py "---" ++ (newline :: py "theme: dark" ++ newline :: py "custom_css:" ++ [newline]) ++
     py "---" ++ (newline :: py "# Title" ++ [newline]))
    (py "default") (Some (py "p { }"))
  = Some (py "dark|# Title").
Proof.
  rewrite (@front_matter_theme_overrides ascii_unicode
             (newline :: py "theme: dark" ++ newline :: py "custom_css:" ++ [newline])
             (newline :: py "# Title" ++ [newline])
             [ (py "theme", py "dark"); (py "custom_css", []) ] (py "dark")).
  - reflexivity.
  - reflexivity.
  - vm_compute. reflexivity.
  - reflexivity.
Defined.

(** ** Writing a front matter and reading it back *)

(** The line of an entry, as the documentation of [extract_metadata]
    writes it. *)
Definition entry_line (kv : str * str) : str := fst kv ++ py ": " ++ snd kv.

(** A text that is not empty, begins and ends with an ASCII character that
    is no white space, and holds no newline. *)
Definition word (s : str) : bool :=
  negb (str_eqb s []) && solid_head s && solid_head (rev s) && negb (in_set newline s).

Definition plain_entry (kv : str * str) : bool :=
  word (fst kv) && negb (in_set (ch ":") (fst kv)) &&
  word (snd kv) && negb (str_eqb (snd kv) (py "|")).

Lemma in_set_false_lacks (c : char) (s : str) : in_set c s = false -> lacks c s.
Proof.
  intros H Hin. unfold in_set in H.
  assert (E : existsb (N.eqb c) s = true);
    [apply existsb_exists; exists c; split; [exact Hin|apply N.eqb_refl]|congruence].
Qed.

Lemma word_spec (s : str) :
  word s = true ->
  s <> [] /\ solid_head s = true /\ solid_head (rev s) = true /\ lacks newline s.
Proof.
  unfold word. intro H.
  apply andb_true_iff in H as [H H4]. apply andb_true_iff in H as [H H3].
  apply andb_true_iff in H as [H1 H2]. repeat split; try assumption.
  - intros ->. discriminate.
  - apply in_set_false_lacks. now destruct (in_set newline s).
Qed.

Lemma solid_head_app (a b : str) : a <> [] -> solid_head (a ++ b) = solid_head a.
Proof. destruct a; [contradiction|reflexivity]. Qed.

Lemma split_on_single (c : char) (p : str) : lacks c p -> split_on c p = [p].
Proof.
  induction p as [|d p IH]; intro H; [reflexivity|].
  apply lacks_cons in H as [Hd H]. cbn [split_on].
  destruct (N.eqb_spec d c); [contradiction|]. now rewrite IH.
Qed.

Lemma split_on_app (c : char) (p rest : str) :
  lacks c p -> split_on c (p ++ c :: rest) = p :: split_on c rest.
Proof.
  induction p as [|d p IH]; intro H; cbn [app split_on].
  - now rewrite N.eqb_refl.
  - apply lacks_cons in H as [Hd H].
    destruct (N.eqb_spec d c); [contradiction|]. now rewrite IH.
Qed.

(** [c.join(parts).split(c) == parts] for parts without [c]. *)
Lemma split_on_join (c : char) (parts : list str) :
  parts <> [] -> Forall (lacks c) parts -> split_on c (join [c] parts) = parts.
Proof.
  intros Hne H. induction H as [|p ps Hp Hps IH]; [contradiction|].
  destruct ps as [|q ps].
  - now apply split_on_single.
  - rewrite join_cons_cons. change ([c] ++ join [c] (q :: ps)) with (c :: join [c] (q :: ps)).
    rewrite split_on_app by assumption. f_equal. apply IH. discriminate.
Qed.

Lemma split_once_at (c : char) (k rest : str) :
  lacks c k -> split_once c (k ++ c :: rest) = (k, rest).
Proof.
  induction k as [|d k IH]; intro H; cbn [app split_once].
  - now rewrite N.eqb_refl.
  - apply lacks_cons in H as [Hd H].
    destruct (N.eqb_spec d c); [contradiction|]. now rewrite IH.
Qed.

(** The lines joined begin and end as the first and the last of them. *)
Lemma join_lines_solid (lines : list str) :
  lines <> [] ->
  Forall (fun l => l <> [] /\ solid_head l = true /\ solid_head (rev l) = true) lines ->
  join [newline] lines <> [] /\
  solid_head (join [newline] lines) = true /\
  solid_head (rev (join [newline] lines)) = true.
Proof.
  intros Hne H. induction H as [|l ls [H1 [H2 H3]] Hls IH]; [contradiction|].
  destruct ls as [|l' ls]; [now repeat split|].
  destruct IH as [I1 [I2 I3]]; [discriminate|].
  rewrite join_cons_cons. repeat split.
  - destruct l; [contradiction|discriminate].
  - now rewrite solid_head_app.
  - rewrite !rev_app_distr. rewrite <- app_assoc. rewrite solid_head_app; [exact I3|].
    intro E. apply (f_equal (@rev char)) in E. rewrite rev_involutive in E. contradiction.
Qed.

(** No three hyphens begin in a text that holds none, once it is put
    between two newlines. *)
Lemma contains_padded (a : str) :
  contains a (py "---") = false ->
  contains ((newline :: a ++ [newline]) ++ py "--") (py "---") = false.
Proof.
  intro H. rewrite <- app_comm_cons, <- app_assoc.
  change ([newline] ++ py "--") with [newline; 45; 45].
  change (py "---") with [45; 45; 45] in *.
  cbn [contains]. rewrite startswith_cons. change (45 =? newline) with false.
  cbn [andb orb].
  induction a as [|d a IH]; [reflexivity|].
  cbn [contains] in H. apply orb_false_iff in H as [H1 H2].
  cbn [app contains]. rewrite (IH H2), orb_false_r.
  destruct a as [|b [|c a]].
  - cbn [app]. rewrite !startswith_cons. change (45 =? newline) with false.
    now rewrite andb_false_r.
  - cbn [app]. rewrite !startswith_cons. change (45 =? newline) with false.
    now rewrite !andb_false_r.
  - exact H1.
Qed.

Section RoundTrip.
Context {U : PyUnicode}.

Lemma lstrip_blank_app (ws s : str) : blank ws -> lstrip (ws ++ s) = lstrip s.
Proof.
  induction 1 as [|c ws Hc Hws IH]; [reflexivity|]. cbn [app lstrip].
  rewrite is_space_ascii by now apply ascii_space_bound. now rewrite Hc.
Qed.

(** [strip] takes the white space around a text that begins and ends with
    none. *)
Lemma strip_padded (ws s ws' : str) :
  blank ws -> blank ws' -> s <> [] ->
  solid_head s = true -> solid_head (rev s) = true ->
  strip (ws ++ s ++ ws') = s.
Proof.
  intros Hw Hw' Hne H1 H2. unfold strip.
  rewrite lstrip_blank_app by assumption.
  rewrite (lstrip_solid (s ++ ws')) by now rewrite solid_head_app.
  rewrite rev_app_distr.
  rewrite lstrip_blank_app by (apply Forall_rev; exact Hw').
  rewrite (lstrip_solid (rev s) H2). apply rev_involutive.
Qed.

(** One turn of the loop on the line of a plain entry. *)
Lemma metadata_line_entry (metadata_lines : list str) (metadata : list (str * str))
    (kv : str * str) :
  plain_entry kv = true ->
  metadata_line metadata_lines (Some metadata) (entry_line kv) =
  Some (dict_set metadata (fst kv) (snd kv)).
Proof.
  destruct kv as [k v]. unfold plain_entry, entry_line. cbn [fst snd]. intro H.
  apply andb_true_iff in H as [H Hbar]. apply andb_true_iff in H as [H Hv].
  apply andb_true_iff in H as [Hk Hcolon].
  apply word_spec in Hk as [K1 [K2 [K3 K4]]]. apply word_spec in Hv as [V1 [V2 [V3 V4]]].
  assert (Hc : lacks (ch ":") k) by (apply in_set_false_lacks; now destruct (in_set (ch ":") k)).
  assert (Es : strip (k ++ py ": " ++ v) = k ++ py ": " ++ v).
  { apply strip_solid; [now rewrite solid_head_app|].
    rewrite !rev_app_distr. rewrite <- app_assoc. rewrite solid_head_app; [exact V3|].
    intro E. apply (f_equal (@rev char)) in E. rewrite rev_involutive in E. contradiction. }
  unfold metadata_line. rewrite Es.
  destruct (k ++ py ": " ++ v) as [|c0 l0] eqn:El;
    [destruct k; [contradiction|discriminate]|]. rewrite <- El.
  change (py ": " ++ v) with (ch ":" :: py " " ++ v).
  rewrite in_set_mid. cbn [negb]. rewrite split_once_at by assumption.
  rewrite (strip_solid k K2 K3).
  rewrite <- (app_nil_r (py " " ++ v)), <- app_assoc.
  rewrite strip_padded; try assumption;
    [|repeat constructor|constructor].
  destruct (str_eqb v (py "|")); [discriminate|reflexivity].
Qed.

Lemma fold_metadata_entries (metadata_lines : list str) (entries : list (str * str)) :
  forallb plain_entry entries = true ->
  forall metadata,
    fold_left (metadata_line metadata_lines) (map entry_line entries) (Some metadata) =
    Some (fold_left (fun m kv => dict_set m (fst kv) (snd kv)) entries metadata).
Proof.
  induction entries as [|kv entries IH]; intros H m; [reflexivity|].
  cbn [forallb] in H. apply andb_true_iff in H as [Hkv H].
  cbn [map fold_left]. rewrite metadata_line_entry by assumption. now apply IH.
Qed.

Lemma entry_line_solid (kv : str * str) :
  plain_entry kv = true ->
  (entry_line kv <> [] /\ solid_head (entry_line kv) = true /\
   solid_head (rev (entry_line kv)) = true) /\
  lacks newline (entry_line kv).
Proof.
  destruct kv as [k v]. unfold plain_entry, entry_line. cbn [fst snd]. intro H.
  apply andb_true_iff in H as [H Hbar]. apply andb_true_iff in H as [H Hv].
  apply andb_true_iff in H as [Hk Hcolon].
  apply word_spec in Hk as [K1 [K2 [K3 K4]]]. apply word_spec in Hv as [V1 [V2 [V3 V4]]].
  repeat split.
  - destruct k; [contradiction|discriminate].
  - now rewrite solid_head_app.
  - rewrite !rev_app_distr. rewrite <- app_assoc. rewrite solid_head_app; [exact V3|].
    intro E. apply (f_equal (@rev char)) in E. rewrite rev_involutive in E. contradiction.
  - apply lacks_app. split; [exact K4|]. apply lacks_app. split; [|exact V4].
    apply lacks_forallb. reflexivity.
Qed.

End RoundTrip.

(** X26 ([extract_metadata], [markdown_to_html.py] lines 100 to 152): a
    front matter written one [key: value] line per entry is read back as
    the dictionary of the entries, a later entry of a key taking the place
    of an earlier one.  The keys and the values are not empty, begin and
    end with an ASCII character that is no white space and hold no newline;
    a key holds no colon, a value is not a bar, and no three hyphens follow
    one another in the lines. *)
Theorem front_matter_round_trip (U : PyUnicode) (entries : list (str * str)) (body : str) :
  forallb plain_entry entries = true ->
  contains (join [newline] (map entry_line entries)) (py "---") = false ->
  extract_metadata
    (py "---" ++ (newline :: join [newline] (map entry_line entries) ++ [newline]) ++
     py "---" ++ body) =
  Metadata (fold_left (fun m kv => dict_set m (fst kv) (snd kv)) entries []).
Proof.
  intros He Hf.
  rewrite (@extract_fenced U _ body (contains_padded _ Hf)).
  destruct entries as [|kv entries].
  { cbn [map join app]. now rewrite strip_blank by (repeat constructor). }
  assert (Hl : Forall (fun kv => (entry_line kv <> [] /\ solid_head (entry_line kv) = true /\
                                  solid_head (rev (entry_line kv)) = true) /\
                                 lacks newline (entry_line kv)) (kv :: entries)).
  { apply Forall_forall. intros e Hin. apply entry_line_solid.
    rewrite forallb_forall in He. now apply He. }
  destruct (@join_lines_solid (map entry_line (kv :: entries))) as [J1 [J2 J3]];
    [discriminate| |].
  { apply Forall_map. eapply Forall_impl; [|exact Hl]. now intros e [H _]. }
  change (newline :: join [newline] (map entry_line (kv :: entries)) ++ [newline])
    with ([newline] ++ join [newline] (map entry_line (kv :: entries)) ++ [newline]).
  rewrite strip_padded; try assumption; [|repeat constructor|repeat constructor].
  rewrite split_on_join; [|discriminate|].
  - now rewrite fold_metadata_entries.
  - apply Forall_map. eapply Forall_impl; [|exact Hl]. now intros e [_ H].
Qed.

Lemma front_matter_round_trip_witness :
  @extract_metadata ascii_unicode
    (py "---" ++
     (newline :: py "theme: dark" ++ newline :: py "custom-class: a--b: c" ++
      newline :: py "theme: green" ++ [newline]) ++
     py "---" ++ (newline :: py "# Title"))
  = Metadata [ (py "theme", py "green"); (py "custom-class", py "a--b: c") ].
Proof.
  apply (@front_matter_round_trip ascii_unicode
           [ (py "theme", py "dark"); (py "custom-class", py "a--b: c");
             (py "theme", py "green") ]
           (newline :: py "# Title")).
  - reflexivity.
  - reflexivity.
Defined.
